(** * quota.5m.py: quota retrieval and normalisation, verified

    A shallow embedding of the SwiftBar plugin [src/quota.5m.py]: the
    credential directory client ([get_auth_files]), the two provider
    fetchers ([fetch_codex_quota], [fetch_antigravity_quota]), the
    Antigravity group aggregator ([_build_antigravity_groups]) and the
    reset-time formatters ([_fmt_reset_abs], [_fmt_reset_time]).

    Python values decoded from JSON are the inductive [value]; a Python
    [dict] is an association list in insertion order; a raised exception
    is the [Raise] branch of [outcome]; the network is an oracle
    [urlopen] and every request handed to it is appended to a log that
    the functions thread through. What the interpreter and its standard
    library supply (floats, [json], [datetime], the clock) is a variable
    of the enclosing section.

    The development also covers the statements the module runs when it is
    loaded (the [.env] file and the configuration), the output functions
    ([print_codex_section], [print_antigravity_section],
    [print_status_bar], [print_error]) and [main]; standard output is the
    list of the texts printed, one for each call of [print]. *)

From Stdlib Require Import ZArith QArith String Ascii List DecimalString.
From Stdlib Require Import Permutation Sorted Lia.
From stdpp Require Import base option gmap strings list sorting.

Set Warnings "-register-all".
Open Scope string_scope.
Open Scope list_scope.
Open Scope Z_scope.

(** ** Exceptions and results *)

(** [json.JSONDecodeError]: message, line, column and offset. *)
Record decode_error := DecodeError {
  de_msg : string;
  de_lineno : Z;
  de_colno : Z;
  de_pos : Z
}.

(** The exception classes the program meets. [OtherError] stands for what
    the transport raises besides [urllib.error.URLError]. *)
Inductive exn :=
| RuntimeError (msg : string)
| JSONDecodeError (e : decode_error)
| KeyError (msg : string)
| AttributeError
| TypeError
| ValueError
| OverflowError
| OtherError (msg : string).

Inductive outcome (A : Type) :=
| Ret (a : A)
| Raise (e : exn).
Arguments Ret {A} a.
Arguments Raise {A} e.

#[global] Instance outcome_ret : MRet outcome := fun A a => Ret a.
#[global] Instance outcome_bind : MBind outcome := fun A B f m =>
  match m with
  | Ret a => f a
  | Raise e => Raise e
  end.

(** [str(n)] for a Python [int]. *)
Definition str_of_int (z : Z) : string := NilZero.string_of_int (Z.to_int z).

(** [str(exc)] for a [json.JSONDecodeError]:
    ["%s: line %d column %d (char %d)"]. *)
Definition decode_error_str (e : decode_error) : string :=
  de_msg e +:+ ": line " +:+ str_of_int (de_lineno e) +:+ " column "
    +:+ str_of_int (de_colno e) +:+ " (char " +:+ str_of_int (de_pos e) +:+ ")".

(** [str(exc)]. *)
Definition exn_str (e : exn) : string :=
  match e with
  | RuntimeError msg => msg
  | JSONDecodeError d => decode_error_str d
  | KeyError msg => msg
  | AttributeError => "AttributeError"
  | TypeError => "TypeError"
  | ValueError => "ValueError"
  | OverflowError => "OverflowError"
  | OtherError msg => msg
  end.

(** Association lists: a [dict] in insertion order. *)
Fixpoint assoc {A : Type} (k : string) (d : list (string * A)) : option A :=
  match d with
  | [] => None
  | (k', v) :: d' => if String.eqb k' k then Some v else assoc k d'
  end.

(** Update in place of the entry stored under [k] (an object reached
    through the dict and mutated); the position is kept. *)
Fixpoint assoc_alter {A : Type} (f : A -> A) (k : string) (d : list (string * A))
  : list (string * A) :=
  match d with
  | [] => []
  | (k', v) :: d' =>
      if String.eqb k' k then (k', f v) :: d' else (k', v) :: assoc_alter f k d'
  end.

(** ** Python values *)

(** Python's [float] and the operations on it that the program uses. They
    belong to the interpreter, not to this repository: nothing is assumed
    of them here, and a theorem that needs a property of [<] states it as
    a hypothesis. *)
Class PyFloat := {
  float : Type;
  (** [a < b] on two floats. *)
  flt : float -> float -> bool;
  (** [bool(x)]: false exactly for a zero. *)
  float_truthy : float -> bool;
  (** [float(n)] for an [int]; [None] is [OverflowError]. *)
  float_of_int : Z -> option float;
  (** [float(s)] for a [str]; [None] is [ValueError]. *)
  float_of_str : string -> option float;
  (** [x < n] and [x >= n] for a float [x] and an int [n]. *)
  float_lt_int : float -> Z -> bool;
  float_ge_int : float -> Z -> bool;
  (** [str(x)]. *)
  float_str : float -> string
}.

Section Program.

Context {pf : PyFloat}.

(** What [json.loads] returns. *)
Inductive value :=
| VNone
| VBool (b : bool)
| VInt (z : Z)
| VFloat (x : float)
| VStr (s : string)
| VList (l : list value)
| VDict (d : list (string * value)).

(** Truth value of an object, as [if v:], [not v] and [v or w] test it. *)
Definition truthy (v : value) : bool :=
  match v with
  | VNone => false
  | VBool b => b
  | VInt z => negb (z =? 0)
  | VFloat x => float_truthy x
  | VStr s => negb (String.eqb s "")
  | VList l => match l with [] => false | _ => true end
  | VDict d => match d with [] => false | _ => true end
  end.

(** [a or b]. *)
Definition py_or (a b : value) : value := if truthy a then a else b.

(** [d.get(k, dflt)] on a dict. *)
Definition dict_get (d : list (string * value)) (k : string) (dflt : value) : value :=
  default dflt (assoc k d).

(** [v.get(k, dflt)] on any object: only a dict has the attribute. *)
Definition py_get (v : value) (k : string) (dflt : value) : outcome value :=
  match v with
  | VDict d => Ret (dict_get d k dflt)
  | _ => Raise AttributeError
  end.

(** [float(v)]. *)
Definition py_float (v : value) : outcome float :=
  match v with
  | VFloat x => Ret x
  | VInt z => from_option Ret (Raise OverflowError) (float_of_int z)
  | VBool b => from_option Ret (Raise OverflowError) (float_of_int (Z.b2z b))
  | VStr s => from_option Ret (Raise ValueError) (float_of_str s)
  | VNone | VList _ | VDict _ => Raise TypeError
  end.

(** ** Static configuration *)

(** One entry of [ANTIGRAVITY_GROUPS]. *)
Record GroupDef := {
  gd_id : string;
  gd_label : string;
  gd_ids : list string
}.

Definition ANTIGRAVITY_GROUPS : list GroupDef :=
  [ {| gd_id := "claude-gpt"; gd_label := "Claude/GPT";
       gd_ids := [ "claude-sonnet-4-5-thinking"; "claude-opus-4-5-thinking";
                   "claude-opus-4-6-thinking"; "claude-sonnet-4-5";
                   "claude-sonnet-4-6"; "gpt-oss-120b-medium" ] |};
    {| gd_id := "gemini-3-pro"; gd_label := "Gemini 3 Pro";
       gd_ids := [ "gemini-3-pro-high"; "gemini-3-pro-low";
                   "gemini-3.1-pro-high"; "gemini-3.1-pro-low" ] |};
    {| gd_id := "gemini-3-flash"; gd_label := "Gemini 3 Flash";
       gd_ids := [ "gemini-3-flash"; "gemini-3.1-flash-image" ] |};
    {| gd_id := "gemini-2.5-pro"; gd_label := "Gemini 2.5 Pro";
       gd_ids := [ "gemini-2.5-pro" ] |};
    {| gd_id := "gemini-2-5-flash"; gd_label := "Gemini 2.5 Flash";
       gd_ids := [ "gemini-2.5-flash"; "gemini-2.5-flash-thinking" ] |};
    {| gd_id := "gemini-2-5-flash-lite"; gd_label := "Gemini 2.5 Flash Lite";
       gd_ids := [ "gemini-2.5-flash-lite" ] |} ].

(** ** The group aggregator *)

(** [AntigravityModelQuota]. *)
Record AntigravityModelQuota := {
  group_label : string;
  remaining_fraction : option float;
  reset_time : value;
  models : list string
}.

(** The lookup [model_to_group] that [_build_antigravity_groups] builds
    first: a later group overwrites an earlier one on a shared model id. *)
Definition build_model_to_group (groups : list GroupDef) : gmap string GroupDef :=
  foldl (fun m group => foldl (fun m mid => <[mid := group]> m) m (gd_ids group))
        ∅ groups.

Definition model_to_group : gmap string GroupDef :=
  build_model_to_group ANTIGRAVITY_GROUPS.

(** The two conditional expressions that read [remaining] and
    [reset_time] off one model entry [info] (a dict). *)
Definition extract_quota_fields (info : list (string * value)) : outcome (value * value) :=
  let quota_info := dict_get info "quotaInfo" (VDict []) in
  if truthy quota_info then
    d ← py_get quota_info "remaining_fraction" VNone;
    remaining ← py_get quota_info "remainingFraction" d;
    d' ← py_get quota_info "reset_time" (VStr "");
    reset ← py_get quota_info "resetTime" d';
    mret (remaining, reset)
  else
    mret (dict_get info "remainingFraction" (dict_get info "remaining_fraction" VNone),
          dict_get info "resetTime" (dict_get info "reset_time" (VStr ""))).

(** What the loop body takes from one model entry [info]: the fraction
    [float(remaining)] unless [remaining is None], and the reset time. *)
Definition observed_quota (info : list (string * value)) : outcome (option float * value) :=
  fields ← extract_quota_fields info;
  match fst fields with
  | VNone => mret (None, snd fields)
  | remaining => frac ← py_float remaining; mret (Some frac, snd fields)
  end.

(** The assignment under [if g.remaining_fraction is None or frac < ...]. *)
Definition lower_fraction (frac : float) (reset : value) (g : AntigravityModelQuota)
  : AntigravityModelQuota :=
  let lower := match remaining_fraction g with
               | None => true
               | Some cur => flt frac cur
               end in
  if lower then
    {| group_label := group_label g;
       remaining_fraction := Some frac;
       reset_time := py_or reset (reset_time g);
       models := models g |}
  else g.

(** [g.models.append(model_id)]. *)
Definition append_model (model_id : string) (g : AntigravityModelQuota)
  : AntigravityModelQuota :=
  {| group_label := group_label g;
     remaining_fraction := remaining_fraction g;
     reset_time := reset_time g;
     models := models g ++ [model_id] |}.

(** The object stored on [gid not in group_data]. *)
Definition fresh_group (gdef : GroupDef) : AntigravityModelQuota :=
  {| group_label := gd_label gdef;
     remaining_fraction := None;
     reset_time := VStr "";
     models := [] |}.

(** [group_data]: group id to quota object, in insertion order. *)
Definition group_data := list (string * AntigravityModelQuota).

(** One iteration of [for model_id, info in models.items()]. *)
Definition aggregate_entry (gd : group_data) (entry : string * value)
  : outcome group_data :=
  let '(model_id, info) := entry in
  match info with
  | VDict d =>
      '(remaining, reset) ← extract_quota_fields d;
      match model_to_group !! model_id with
      | Some gdef =>
          let gid := gd_id gdef in
          let gd1 := match assoc gid gd with
                     | Some _ => gd
                     | None => gd ++ [(gid, fresh_group gdef)]
                     end in
          let gd2 := assoc_alter (append_model model_id) gid gd1 in
          match remaining with
          | VNone => mret gd2
          | _ =>
              frac ← py_float remaining;
              mret (assoc_alter (lower_fraction frac reset) gid gd2)
          end
      | None => mret gd
      end
  | _ => mret gd
  end.

Fixpoint aggregate_loop (gd : group_data) (entries : list (string * value))
  : outcome group_data :=
  match entries with
  | [] => mret gd
  | e :: rest => gd' ← aggregate_entry gd e; aggregate_loop gd' rest
  end.

(** [sorted(..., key=lambda x: x.group_label)]: a stable sort on the
    label, strings compared code point by code point. *)
Fixpoint insert_by_label (g : AntigravityModelQuota) (l : list AntigravityModelQuota)
  : list AntigravityModelQuota :=
  match l with
  | [] => [g]
  | h :: t =>
      if String.leb (group_label g) (group_label h) then g :: h :: t
      else h :: insert_by_label g t
  end.

Definition sorted_by_label (l : list AntigravityModelQuota) : list AntigravityModelQuota :=
  foldr insert_by_label [] l.

(** [_build_antigravity_groups(models)], [models] given by its items. *)
Definition _build_antigravity_groups (models : list (string * value))
  : outcome (list AntigravityModelQuota) :=
  gd ← aggregate_loop [] models;
  mret (sorted_by_label (snd <$> gd)).

(** ** Effects: the request log and exceptions *)

(** What [urllib.request.Request] is built from; [req_data] is the object
    whose [json.dumps(...).encode("utf-8")] is the body, [None] for a
    request without one. *)
Record Request := {
  req_url : string;
  req_method : string;
  req_headers : list (string * string);
  req_data : option value
}.

(** What [urlopen] followed by [resp.read().decode("utf-8")] does: it
    returns the text of the response, or raises [urllib.error.HTTPError],
    [urllib.error.URLError], or something else of the transport's own (a
    timeout while reading, a reset connection, bytes that are not UTF-8),
    which no handler of the fetchers names. *)
Inductive reply :=
| Response (text : string)
| HTTPError (code : Z) (body : string)
| URLError (reason : string)
| TransportRaises (msg : string).

(** The host of one run: the [json] codec, the two configuration values
    read from the environment and the network. *)
Class Host := {
  (** [json.loads(s)]. *)
  json_loads : string -> decode_error + value;
  (** [json.dumps(v)]. *)
  json_dumps : value -> string;
  (** [os.environ["CPA_BASE_URL"].rstrip("/")]. *)
  BASE_URL : string;
  (** [os.environ["CPA_MANAGEMENT_KEY"]]. *)
  MANAGEMENT_KEY : string;
  urlopen : Request -> reply
}.

Context {host : Host}.

(** A computation over a mutable state [S] that returns or raises; the
    state survives a raised exception, as mutation does in Python. *)
Definition Eff (S A : Type) : Type := S -> outcome A * S.

#[global] Instance eff_ret {S} : MRet (Eff S) := fun A a s => (Ret a, s).
#[global] Instance eff_bind {S} : MBind (Eff S) := fun A B f m s =>
  match m s with
  | (Ret a, s') => f a s'
  | (Raise e, s') => (Raise e, s')
  end.

Definition raise {S A} (e : exn) : Eff S A := fun s => (Raise e, s).

Definition lift {S A} (o : outcome A) : Eff S A := fun s => (o, s).

(** [try: body except classes as exc: handler exc]. *)
Definition try_except {S A} (body : Eff S A) (caught : exn -> bool)
    (handler : exn -> Eff S A) : Eff S A :=
  fun s =>
    match body s with
    | (Raise e, s') => if caught e then handler e s' else (Raise e, s')
    | r => r
    end.

(** The requests sent so far, oldest first. *)
Definition Log := list Request.

Definition MANAGEMENT_API : string := BASE_URL +:+ "/v0/management".

Definition HTTP_HEADERS : list (string * string) :=
  [ ("Authorization", "Bearer " +:+ MANAGEMENT_KEY);
    ("Content-Type", "application/json");
    ("User-Agent",
     "Mozilla/5.0 (Macintosh; Intel Mac OS X 10_15_7) " +:+
     "AppleWebKit/537.36 (KHTML, like Gecko) " +:+
     "Chrome/131.0.0.0 Safari/537.36") ].

(** The request [_make_request] builds. *)
Definition make_req (url method : string) (data : option value) : Request :=
  {| req_url := url;
     req_method := method;
     req_headers := HTTP_HEADERS;
     req_data := match data with
                 | Some d => if truthy d then Some d else None
                 | None => None
                 end |}.

(** [_make_request(url, method, data)]. *)
Definition _make_request (url method : string) (data : option value) : Eff Log value :=
  fun log =>
    let req := make_req url method data in
    let log' := log ++ [req] in
    match urlopen req with
    | Response text =>
        match json_loads text with
        | inr v => (Ret v, log')
        | inl e => (Raise (JSONDecodeError e), log')
        end
    | HTTPError code body =>
        (Raise (RuntimeError ("HTTP " +:+ str_of_int code +:+ ": " +:+ body)), log')
    | URLError reason =>
        (Raise (RuntimeError ("Connection error: " +:+ reason)), log')
    | TransportRaises msg => (Raise (OtherError msg), log')
    end.

(** [api_call(payload)]. *)
Definition api_call (payload : value) : Eff Log value :=
  _make_request (MANAGEMENT_API +:+ "/api-call") "POST" (Some payload).

(** ** Numbers as a status code *)

(** The objects that compare with an [int]. *)
Inductive number :=
| NInt (z : Z)
| NBool (b : bool)
| NFloat (x : float).

Definition as_number (v : value) : option number :=
  match v with
  | VInt z => Some (NInt z)
  | VBool b => Some (NBool b)
  | VFloat x => Some (NFloat x)
  | _ => None
  end.

Definition number_lt (n : number) (k : Z) : bool :=
  match n with
  | NInt z => z <? k
  | NBool b => Z.b2z b <? k
  | NFloat x => float_lt_int x k
  end.

Definition number_ge (n : number) (k : Z) : bool :=
  match n with
  | NInt z => k <=? z
  | NBool b => k <=? Z.b2z b
  | NFloat x => float_ge_int x k
  end.

(** [str(n)], as an f-string renders it. *)
Definition number_str (n : number) : string :=
  match n with
  | NInt z => str_of_int z
  | NBool b => if b then "True" else "False"
  | NFloat x => float_str x
  end.

(** [status_code < 200 or status_code >= 300]; the comparison of anything
    but a number with an [int] is a [TypeError]. The number is returned
    with the verdict, for the message. *)
Definition status_not_2xx (status_code : value) : outcome (bool * number) :=
  match as_number status_code with
  | Some n => Ret (number_lt n 200 || number_ge n 300, n)
  | None => Raise TypeError
  end.

(** [json.loads(body_str) if isinstance(body_str, str) else body_str]. *)
Definition decode_body (body_str : value) : outcome value :=
  match body_str with
  | VStr s =>
      match json_loads s with
      | inr v => Ret v
      | inl e => Raise (JSONDecodeError e)
      end
  | _ => Ret body_str
  end.

(** ** Data models *)

(** [AuthFile]. The dataclass annotates its fields but stores whatever the
    directory response holds, so a field is a [value]; the fields carry the
    prefix [af_] (projections share one name space). *)
Record AuthFile := {
  af_name : value;
  af_provider : value;
  af_auth_index : value;
  af_email : value;
  af_status : value;
  af_status_message : value;
  af_disabled : value;
  af_unavailable : value;
  af_label : value;
  af_account_type : value;
  af_chatgpt_account_id : value;
  af_plan_type : value;
  af_project_id : value
}.

(** [CodexQuota], fields prefixed [cq_]. *)
Record CodexQuota := {
  cq_email : value;
  cq_plan_type : value;
  cq_primary_used_pct : value;
  cq_primary_reset_seconds : value;
  cq_secondary_used_pct : value;
  cq_secondary_reset_seconds : value;
  cq_limit_reached : value;
  cq_error : string
}.

(** [AntigravityQuota], fields prefixed [aq_]. *)
Record AntigravityQuota := {
  aq_email : value;
  aq_groups : list AntigravityModelQuota;
  aq_error : string
}.

(** ** The credential directory client *)

Definition TARGET_PROVIDERS : list string := ["codex"; "antigravity"].

(** [provider not in TARGET_PROVIDERS]: membership in a set hashes the
    object, and a list or a dict is unhashable. *)
Definition not_in_target_providers (provider : value) : outcome bool :=
  match provider with
  | VList _ | VDict _ => Raise TypeError
  | VStr s => Ret (negb (bool_decide (s ∈ TARGET_PROVIDERS)))
  | _ => Ret true
  end.

(** [for item in v]: the items a [for] loop draws from an object. A dict
    yields its keys and a string its characters. *)
Definition py_iter (v : value) : outcome (list value) :=
  match v with
  | VList l => Ret l
  | VDict d => Ret ((fun kv => VStr (fst kv)) <$> d)
  | VStr s => Ret ((fun c => VStr (String c EmptyString)) <$> list_ascii_of_string s)
  | _ => Raise TypeError
  end.

(** [v == "codex"]. *)
Definition is_str (v : value) (s : string) : bool :=
  match v with
  | VStr s' => String.eqb s' s
  | _ => false
  end.

(** The body of the loop of [get_auth_files] for one [item]: [None] is
    [continue], [Some af] is what [auth_files.append] receives. *)
Definition parse_auth_file (item : value) : outcome (option AuthFile) :=
  provider ← py_get item "provider" (VStr "");
  skip ← not_in_target_providers provider;
  if skip : bool then Ret None
  else
    name ← py_get item "name" (VStr "");
    idx1 ← py_get item "auth_index" (VStr "");
    idx2 ← py_get item "authIndex" (VStr "");
    email ← py_get item "email" (VStr "");
    status ← py_get item "status" (VStr "unknown");
    status_message ← py_get item "status_message" (VStr "");
    disabled ← py_get item "disabled" (VBool false);
    unavailable ← py_get item "unavailable" (VBool false);
    label ← py_get item "label" (VStr "");
    account_type ← py_get item "account_type" (VStr "");
    let af := {| af_name := name;
                 af_provider := provider;
                 af_auth_index := py_or idx1 idx2;
                 af_email := email;
                 af_status := status;
                 af_status_message := status_message;
                 af_disabled := disabled;
                 af_unavailable := unavailable;
                 af_label := label;
                 af_account_type := account_type;
                 af_chatgpt_account_id := VStr "";
                 af_plan_type := VStr "";
                 af_project_id := VStr "" |} in
    id_token ← py_get item "id_token" (VDict []);
    if truthy id_token && is_str provider "codex" then
      account ← py_get id_token "chatgpt_account_id" (VStr "");
      plan ← py_get id_token "plan_type" (VStr "");
      mret (Some {| af_name := af_name af;
                    af_provider := af_provider af;
                    af_auth_index := af_auth_index af;
                    af_email := af_email af;
                    af_status := af_status af;
                    af_status_message := af_status_message af;
                    af_disabled := af_disabled af;
                    af_unavailable := af_unavailable af;
                    af_label := af_label af;
                    af_account_type := af_account_type af;
                    af_chatgpt_account_id := account;
                    af_plan_type := plan;
                    af_project_id := af_project_id af |})
    else mret (Some af).

(** The loop of [get_auth_files] over the items, appending to
    [auth_files]. *)
Fixpoint parse_auth_files (auth_files : list AuthFile) (items : list value)
  : outcome (list AuthFile) :=
  match items with
  | [] => mret auth_files
  | item :: rest =>
      r ← parse_auth_file item;
      match r with
      | None => parse_auth_files auth_files rest
      | Some af => parse_auth_files (auth_files ++ [af]) rest
      end
  end.

(** What [get_auth_files] does with the decoded response [resp]. *)
Definition parse_directory (resp : value) : outcome (list AuthFile) :=
  files ← py_get resp "files" (VList []);
  items ← py_iter files;
  parse_auth_files [] items.

(** [get_auth_files()]. *)
Definition get_auth_files : Eff Log (list AuthFile) :=
  resp ← _make_request (MANAGEMENT_API +:+ "/auth-files") "GET" None;
  lift (parse_directory resp).

(** ** The Codex fetcher *)

Definition CODEX_USAGE_URL : string := "https://chatgpt.com/backend-api/wham/usage".

Definition CODEX_REQUEST_HEADERS : list (string * value) :=
  [ ("Authorization", VStr "Bearer $TOKEN$");
    ("Content-Type", VStr "application/json");
    ("User-Agent", VStr "codex_cli_rs/0.76.0 (Debian 13.0.0; x86_64) WindowsTerminal") ].

(** Assignments to the fields of a [CodexQuota]. *)
Definition set_cq_error (e : string) (q : CodexQuota) : CodexQuota :=
  {| cq_email := cq_email q; cq_plan_type := cq_plan_type q;
     cq_primary_used_pct := cq_primary_used_pct q;
     cq_primary_reset_seconds := cq_primary_reset_seconds q;
     cq_secondary_used_pct := cq_secondary_used_pct q;
     cq_secondary_reset_seconds := cq_secondary_reset_seconds q;
     cq_limit_reached := cq_limit_reached q; cq_error := e |}.

Definition set_cq_plan_type (v : value) (q : CodexQuota) : CodexQuota :=
  {| cq_email := cq_email q; cq_plan_type := v;
     cq_primary_used_pct := cq_primary_used_pct q;
     cq_primary_reset_seconds := cq_primary_reset_seconds q;
     cq_secondary_used_pct := cq_secondary_used_pct q;
     cq_secondary_reset_seconds := cq_secondary_reset_seconds q;
     cq_limit_reached := cq_limit_reached q; cq_error := cq_error q |}.

Definition set_cq_limit_reached (v : value) (q : CodexQuota) : CodexQuota :=
  {| cq_email := cq_email q; cq_plan_type := cq_plan_type q;
     cq_primary_used_pct := cq_primary_used_pct q;
     cq_primary_reset_seconds := cq_primary_reset_seconds q;
     cq_secondary_used_pct := cq_secondary_used_pct q;
     cq_secondary_reset_seconds := cq_secondary_reset_seconds q;
     cq_limit_reached := v; cq_error := cq_error q |}.

Definition set_cq_primary_used_pct (v : value) (q : CodexQuota) : CodexQuota :=
  {| cq_email := cq_email q; cq_plan_type := cq_plan_type q;
     cq_primary_used_pct := v;
     cq_primary_reset_seconds := cq_primary_reset_seconds q;
     cq_secondary_used_pct := cq_secondary_used_pct q;
     cq_secondary_reset_seconds := cq_secondary_reset_seconds q;
     cq_limit_reached := cq_limit_reached q; cq_error := cq_error q |}.

Definition set_cq_primary_reset_seconds (v : value) (q : CodexQuota) : CodexQuota :=
  {| cq_email := cq_email q; cq_plan_type := cq_plan_type q;
     cq_primary_used_pct := cq_primary_used_pct q;
     cq_primary_reset_seconds := v;
     cq_secondary_used_pct := cq_secondary_used_pct q;
     cq_secondary_reset_seconds := cq_secondary_reset_seconds q;
     cq_limit_reached := cq_limit_reached q; cq_error := cq_error q |}.

Definition set_cq_secondary_used_pct (v : value) (q : CodexQuota) : CodexQuota :=
  {| cq_email := cq_email q; cq_plan_type := cq_plan_type q;
     cq_primary_used_pct := cq_primary_used_pct q;
     cq_primary_reset_seconds := cq_primary_reset_seconds q;
     cq_secondary_used_pct := v;
     cq_secondary_reset_seconds := cq_secondary_reset_seconds q;
     cq_limit_reached := cq_limit_reached q; cq_error := cq_error q |}.

Definition set_cq_secondary_reset_seconds (v : value) (q : CodexQuota) : CodexQuota :=
  {| cq_email := cq_email q; cq_plan_type := cq_plan_type q;
     cq_primary_used_pct := cq_primary_used_pct q;
     cq_primary_reset_seconds := cq_primary_reset_seconds q;
     cq_secondary_used_pct := cq_secondary_used_pct q;
     cq_secondary_reset_seconds := v;
     cq_limit_reached := cq_limit_reached q; cq_error := cq_error q |}.

(** [CodexQuota(email=af.email, plan_type=af.plan_type)]. *)
Definition new_codex_quota (af : AuthFile) : CodexQuota :=
  {| cq_email := af_email af; cq_plan_type := af_plan_type af;
     cq_primary_used_pct := VNone; cq_primary_reset_seconds := VNone;
     cq_secondary_used_pct := VNone; cq_secondary_reset_seconds := VNone;
     cq_limit_reached := VBool false; cq_error := "" |}.

(** Running a network computation next to a local object [Q]. *)
Definition on_log {Q A} (m : Eff Log A) : Eff (Log * Q) A :=
  fun s => let '(r, log') := m (fst s) in (r, (log', snd s)).

(** Mutation of the local object. *)
Definition modify {Q} (f : Q -> Q) : Eff (Log * Q) unit :=
  fun s => (Ret tt, (fst s, f (snd s))).

(** The payload of the proxied call of [fetch_codex_quota]. *)
Definition codex_payload (af : AuthFile) : value :=
  VDict [ ("authIndex", af_auth_index af);
          ("method", VStr "GET");
          ("url", VStr CODEX_USAGE_URL);
          ("header", VDict (CODEX_REQUEST_HEADERS ++
                            [("Chatgpt-Account-Id", af_chatgpt_account_id af)])) ].

(** One usage window: [if window:] followed by the two assignments from
    [window.get("used_percent")] and [window.get("reset_after_seconds")]. *)
Definition read_window (window : value)
    (set_used set_reset : value -> CodexQuota -> CodexQuota)
  : Eff (Log * CodexQuota) unit :=
  if truthy window then
    used ← lift (py_get window "used_percent" VNone);
    _ ← modify (set_used used);
    reset ← lift (py_get window "reset_after_seconds" VNone);
    modify (set_reset reset)
  else mret tt.

(** The body of the [try] of [fetch_codex_quota]; [quota] is the mutable
    local object, and a [return quota] inside it ends the body. *)
Definition codex_try (af : AuthFile) : Eff (Log * CodexQuota) unit :=
  result ← on_log (api_call (codex_payload af));
  status_code ← lift (py_get result "status_code" (VInt 0));
  check ← lift (status_not_2xx status_code);
  if fst check : bool then modify (set_cq_error ("HTTP " +:+ number_str (snd check)))
  else
    body_str ← lift (py_get result "body" (VStr ""));
    if negb (truthy body_str) then modify (set_cq_error "empty response")
    else
      body ← lift (decode_body body_str);
      plan ← lift (py_get body "plan_type" (af_plan_type af));
      _ ← modify (set_cq_plan_type plan);
      rate_limit ← lift (py_get body "rate_limit" (VDict []));
      reached ← lift (py_get rate_limit "limit_reached" (VBool false));
      _ ← modify (set_cq_limit_reached reached);
      primary ← lift (py_get rate_limit "primary_window" (VDict []));
      _ ← read_window primary set_cq_primary_used_pct set_cq_primary_reset_seconds;
      secondary ← lift (py_get rate_limit "secondary_window" (VDict []));
      read_window secondary set_cq_secondary_used_pct set_cq_secondary_reset_seconds.

(** [except (RuntimeError, json.JSONDecodeError, KeyError)]. *)
Definition codex_caught (e : exn) : bool :=
  match e with
  | RuntimeError _ | JSONDecodeError _ | KeyError _ => true
  | _ => false
  end.

(** [fetch_codex_quota(af)]. *)
Definition fetch_codex_quota (af : AuthFile) : Eff Log CodexQuota :=
  fun log =>
    let quota := new_codex_quota af in
    if negb (truthy (af_auth_index af)) then
      (Ret (set_cq_error "missing auth_index" quota), log)
    else if negb (truthy (af_chatgpt_account_id af)) then
      (Ret (set_cq_error "missing chatgpt_account_id" quota), log)
    else
      let '(r, (log', quota')) :=
        try_except (codex_try af) codex_caught
                   (fun exc => modify (set_cq_error (exn_str exc)))
                   (log, quota) in
      match r with
      | Ret _ => (Ret quota', log')
      | Raise e => (Raise e, log')
      end.

(** ** The Antigravity fetcher *)

Definition ANTIGRAVITY_QUOTA_URLS : list string :=
  [ "https://daily-cloudcode-pa.googleapis.com/v1internal:fetchAvailableModels";
    "https://daily-cloudcode-pa.sandbox.googleapis.com/v1internal:fetchAvailableModels";
    "https://cloudcode-pa.googleapis.com/v1internal:fetchAvailableModels" ].

Definition ANTIGRAVITY_REQUEST_HEADERS : list (string * value) :=
  [ ("Authorization", VStr "Bearer $TOKEN$");
    ("Content-Type", VStr "application/json");
    ("User-Agent", VStr "antigravity/1.11.5 windows/amd64") ].

Definition DEFAULT_ANTIGRAVITY_PROJECT_ID : string := "bamboo-precept-lgxtn".

(** [json.dumps({"project": af.project_id or DEFAULT_ANTIGRAVITY_PROJECT_ID})]. *)
Definition antigravity_request_body (af : AuthFile) : string :=
  json_dumps (VDict [("project",
                      py_or (af_project_id af) (VStr DEFAULT_ANTIGRAVITY_PROJECT_ID))]).

(** The payload of the proxied call for one endpoint [url]. *)
Definition antigravity_payload (af : AuthFile) (url : string) : value :=
  VDict [ ("authIndex", af_auth_index af);
          ("method", VStr "POST");
          ("url", VStr url);
          ("header", VDict ANTIGRAVITY_REQUEST_HEADERS);
          ("data", VStr (antigravity_request_body af)) ].

(** How one pass of the loop over the endpoints ends: [continue] with a
    new [last_error], or [return quota] with the groups just stored. *)
Inductive attempt :=
| Continue (last_error : string)
| Return (groups : list AntigravityModelQuota).

(** The body of the [try] for one endpoint. *)
Definition antigravity_try (af : AuthFile) (url : string) : Eff Log attempt :=
  result ← api_call (antigravity_payload af url);
  status_code ← lift (py_get result "status_code" (VInt 0));
  check ← lift (status_not_2xx status_code);
  if fst check : bool then mret (Continue ("HTTP " +:+ number_str (snd check)))
  else
    body_str ← lift (py_get result "body" (VStr ""));
    if negb (truthy body_str) then mret (Continue "empty response")
    else
      body ← lift (decode_body body_str);
      models ← lift (py_get body "models" (VDict []));
      match models with
      | VDict (entry :: entries) =>
          groups ← lift (_build_antigravity_groups (entry :: entries));
          mret (Return groups)
      | _ => mret (Continue "no models in response")
      end.

(** [except (RuntimeError, json.JSONDecodeError)]. *)
Definition antigravity_caught (e : exn) : bool :=
  match e with
  | RuntimeError _ | JSONDecodeError _ => true
  | _ => false
  end.

(** [last_error or "all endpoints failed"]. *)
Definition final_error (last_error : string) : string :=
  if String.eqb last_error "" then "all endpoints failed" else last_error.

(** [for url in urls: ...] and the two statements after the loop;
    [last_error] is the loop's local variable. *)
Fixpoint antigravity_loop (af : AuthFile) (last_error : string) (urls : list string)
  : Eff Log AntigravityQuota :=
  match urls with
  | [] =>
      mret {| aq_email := af_email af; aq_groups := [];
              aq_error := final_error last_error |}
  | url :: rest =>
      a ← try_except (antigravity_try af url) antigravity_caught
                     (fun exc => mret (Continue (exn_str exc)));
      match a with
      | Continue e => antigravity_loop af e rest
      | Return groups =>
          mret {| aq_email := af_email af; aq_groups := groups; aq_error := "" |}
      end
  end.

(** [fetch_antigravity_quota(af)]. *)
Definition fetch_antigravity_quota (af : AuthFile) : Eff Log AntigravityQuota :=
  if negb (truthy (af_auth_index af)) then
    mret {| aq_email := af_email af; aq_groups := [];
            aq_error := "missing auth_index" |}
  else antigravity_loop af "" ANTIGRAVITY_QUOTA_URLS.

End Program.

(** ** Reset-time formatting *)

(** Python's [datetime] and the clock of the host. A [datetime] is naive or
    aware; an aware one denotes a point of the time line, its [instant]
    (microseconds since the epoch). *)
Class PyClock := {
  datetime : Type;
  (** The point of the time line of an aware datetime; [None] for a naive
      one. *)
  instant : datetime -> option Z;
  dt_month : datetime -> Z;
  dt_day : datetime -> Z;
  dt_hour : datetime -> Z;
  dt_minute : datetime -> Z;
  (** [datetime.now()]: the local wall clock, naive. *)
  now_local : datetime;
  (** [datetime.now(timezone.utc)], by its instant. *)
  now_utc : Z;
  (** [dt + timedelta(seconds=n)]; [None] is [OverflowError]. *)
  add_seconds : datetime -> Z -> option datetime;
  (** [datetime.fromisoformat(s)]; [None] is [ValueError]. *)
  fromisoformat : string -> option datetime;
  (** [dt.astimezone()]: the same time in the local zone (a naive [dt] is
      taken as local time). *)
  astimezone : datetime -> outcome datetime
}.

Section Formatting.

Context {clock : PyClock}.

(** [f"{n:02d}"]. *)
Definition pad2 (n : Z) : string :=
  let s := str_of_int n in
  if (String.length s <? 2)%nat then "0" +:+ s else s.

(** [f"{dt.month}月{dt.day}日 {dt.hour:02d}:{dt.minute:02d}"]. *)
Definition fmt_month_day_time (dt : datetime) : string :=
  str_of_int (dt_month dt) +:+ "月" +:+ str_of_int (dt_day dt) +:+ "日 "
    +:+ pad2 (dt_hour dt) +:+ ":" +:+ pad2 (dt_minute dt).

(** [_fmt_reset_abs(seconds)], [seconds] an [int] or [None]. *)
Definition _fmt_reset_abs (seconds : option Z) : outcome string :=
  match seconds with
  | None => Ret "now"
  | Some n =>
      if n <=? 0 then Ret "now"
      else
        match add_seconds now_local n with
        | Some reset_dt => Ret (fmt_month_day_time reset_dt)
        | None => Raise OverflowError
        end
  end.

(** [s.replace("Z", "+00:00")]. *)
Fixpoint replace_Z (s : string) : string :=
  match s with
  | EmptyString => EmptyString
  | String c s' =>
      if Ascii.eqb c "Z" then "+00:00" +:+ replace_Z s' else String c (replace_Z s')
  end.

(** [(reset_dt - now).total_seconds() <= 0] with [now] aware: the
    subtraction of an aware datetime from a naive one is a [TypeError]. *)
Definition reset_passed (reset_dt : datetime) : outcome bool :=
  match instant reset_dt with
  | Some t => Ret (t - now_utc <=? 0)
  | None => Raise TypeError
  end.

(** [except (ValueError, TypeError)]. *)
Definition fmt_caught (e : exn) : bool :=
  match e with
  | ValueError | TypeError | JSONDecodeError _ => true
  | _ => false
  end.

(** [_fmt_reset_time(reset_time)], [reset_time] a [str]. *)
Definition _fmt_reset_time (reset_time : string) : outcome string :=
  if String.eqb reset_time "" then Ret ""
  else
    let body :=
      reset_dt ← from_option Ret (Raise ValueError) (fromisoformat (replace_Z reset_time));
      local_dt ← astimezone reset_dt;
      passed ← reset_passed reset_dt;
      if passed : bool then Ret "resetting"
      else Ret (fmt_month_day_time local_dt) in
    match body with
    | Raise e => if fmt_caught e then Ret "" else Raise e
    | r => r
    end.

End Formatting.

(** * Vocabulary of the statements *)

Section Vocabulary.

Context {pf : PyFloat} {host : Host}.

(** ** The aggregator, one contribution at a time *)

(** What one entry of the input brings to its group: the configured group
    of the model id, the id, and the fraction and reset time that
    [observed_quota] reads. *)
Record contrib := {
  c_gdef : GroupDef;
  c_mid : string;
  c_frac : option float;
  c_reset : value
}.

(** The contribution of one entry; [None] for an entry the loop skips (not
    a record, or a model id outside the configuration). The fraction is
    converted only for a model id of the configuration, as in the loop. *)
Definition entry_contrib (entry : string * value) : outcome (option contrib) :=
  match snd entry with
  | VDict d =>
      fields ← extract_quota_fields d;
      match model_to_group !! fst entry with
      | Some gdef =>
          match fst fields with
          | VNone =>
              mret (Some {| c_gdef := gdef; c_mid := fst entry;
                            c_frac := None; c_reset := snd fields |})
          | remaining =>
              frac ← py_float remaining;
              mret (Some {| c_gdef := gdef; c_mid := fst entry;
                            c_frac := Some frac; c_reset := snd fields |})
          end
      | None => mret None
      end
  | _ => mret None
  end.

(** [lower_fraction] under [if remaining is not None]. *)
Definition lower_opt (frac : option float) (reset : value) (g : AntigravityModelQuota)
  : AntigravityModelQuota :=
  match frac with
  | Some f => lower_fraction f reset g
  | None => g
  end.

(** What the loop body does to the quota object of the group. *)
Definition update_group (c : contrib) (g : AntigravityModelQuota) : AntigravityModelQuota :=
  lower_opt (c_frac c) (c_reset c) (append_model (c_mid c) g).

(** What the loop body does to [group_data] for one contribution. *)
Definition apply_contrib (gd : group_data) (c : contrib) : group_data :=
  let gid := gd_id (c_gdef c) in
  let gd1 := match assoc gid gd with
             | Some _ => gd
             | None => gd ++ [(gid, fresh_group (c_gdef c))]
             end in
  assoc_alter (update_group c) gid gd1.

(** The contributions of the entries, in the order of the input. *)
Fixpoint contributions (entries : list (string * value)) : outcome (list contrib) :=
  match entries with
  | [] => mret []
  | e :: rest =>
      c ← entry_contrib e;
      cs ← contributions rest;
      mret (match c with Some c => c :: cs | None => cs end)
  end.

(** The value of the first key of [keys] that [d] holds, [dflt] when it
    holds none of them. *)
Fixpoint first_present (d : list (string * value)) (keys : list string) (dflt : value)
  : value :=
  match keys with
  | [] => dflt
  | k :: keys' =>
      match assoc k d with
      | Some v => v
      | None => first_present d keys' dflt
      end
  end.

(** One quota object through a sequence of contributions. *)
Definition run_group (g : AntigravityModelQuota) (cs : list contrib) : AntigravityModelQuota :=
  foldl (fun g c => update_group c g) g cs.

(** The contributions to the group with id [gid]. *)
Definition in_gid (gid : string) (c : contrib) : Prop := gd_id (c_gdef c) = gid.

#[global] Instance in_gid_dec gid c : Decision (in_gid gid c).
Proof. unfold in_gid. apply _. Defined.

(** The quota object [group_data] holds under [gid] after the loop. *)
Definition group_of (gid : string) (cs : list contrib) : option AntigravityModelQuota :=
  match filter (in_gid gid) cs with
  | [] => None
  | c0 :: l => Some (run_group (fresh_group (c_gdef c0)) (c0 :: l))
  end.

(** ** Fractions that are numbers *)

(** A float that is a number. NaN is the one float that [<] relates to no
    float: [x < y] and [y < x] are false for every [y] when [x] is NaN,
    whereas every other float, the infinities included, is below some
    float or above one. *)
Definition is_number (x : float) : Prop :=
  exists y, flt x y = true \/ flt y x = true.

(** [a == b] on floats: both are numbers and neither is below the other.
    (Of two floats that are numbers exactly one of [a < b], [a == b] and
    [b < a] holds; NaN is equal to no float, itself included.) *)
Definition float_eq (a b : float) : Prop :=
  is_number a /\ is_number b /\ flt a b = false /\ flt b a = false.

(** [a <= b] on floats. *)
Definition float_le (a b : float) : Prop :=
  flt a b = true \/ float_eq a b.

(** No member of the group [g] shows a NaN fraction in [raw]. *)
Definition member_fractions_are_numbers (raw : list (string * value))
    (g : AntigravityModelQuota) : Prop :=
  forall mid info f r,
    mid ∈ models g -> (mid, VDict info) ∈ raw ->
    observed_quota info = Ret (Some f, r) -> is_number f.

(** The member that gave the group [g] its fraction [m]: the input splits
    at an entry [(mid, info)] of the group that shows the fraction [m] and
    a reset time [reset]; [m <= f] for the fraction [f] of every entry of
    the group; [m < f] for the fraction [f] of every entry of the group
    before that entry; and the reset time of the group is
    [reset or previous], where [previous] is the reset time the loop held
    for the group when it reached the entry (the empty string if the
    group was not yet there). *)
Definition lowest_member (raw : list (string * value)) (g : AntigravityModelQuota)
    (m : float) : Prop :=
  exists pre mid info post reset gdef gd0,
    raw = pre ++ (mid, VDict info) :: post /\
    mid ∈ models g /\
    observed_quota info = Ret (Some m, reset) /\
    (forall mid' info' f r,
       mid' ∈ models g -> (mid', VDict info') ∈ raw ->
       observed_quota info' = Ret (Some f, r) -> float_le m f) /\
    (forall mid' info' f r,
       mid' ∈ models g -> (mid', VDict info') ∈ pre ->
       observed_quota info' = Ret (Some f, r) -> flt m f = true) /\
    model_to_group !! mid = Some gdef /\
    aggregate_loop [] pre = Ret gd0 /\
    reset_time g =
      py_or reset (from_option reset_time (VStr "") (assoc (gd_id gdef) gd0)).

(** Two fractions that compare equal: both absent, or both there and
    [==]. *)
Definition same_fraction (a b : option float) : Prop :=
  match a, b with
  | None, None => True
  | Some x, Some y => float_eq x y
  | _, _ => False
  end.

(** An entry the loop appends to the group with the label [label]: its
    value is a record and its key is a model id of that group. *)
Definition member_of (label : string) (entry : string * value) : bool :=
  match snd entry with
  | VDict _ =>
      match model_to_group !! fst entry with
      | Some gdef => String.eqb (gd_label gdef) label
      | None => false
      end
  | _ => false
  end.

(** The members of [g] are the keys of its entries in [raw], in the order
    of [raw]. *)
Definition members_in_input_order (raw : list (string * value))
    (g : AntigravityModelQuota) : Prop :=
  models g = (filter (fun e => member_of (group_label g) e = true) raw).*1.

(** What two results of the aggregator share when [raw'], the input of
    the second, is a reordering of [raw], the input of the first. *)
Definition same_group (raw raw' : list (string * value))
    (g g' : AntigravityModelQuota) : Prop :=
  group_label g = group_label g' /\
  members_in_input_order raw g /\
  members_in_input_order raw' g' /\
  models g ≡ₚ models g' /\
  (member_fractions_are_numbers raw g ->
   same_fraction (remaining_fraction g) (remaining_fraction g')) /\
  forall mid info m r,
    mid ∈ models g -> (mid, VDict info) ∈ raw ->
    observed_quota info = Ret (Some m, r) -> truthy r = true ->
    (forall mid' info' f r',
       mid' ∈ models g -> (mid', VDict info') ∈ raw ->
       observed_quota info' = Ret (Some f, r') -> mid' = mid \/ flt m f = true) ->
    reset_time g = r /\ reset_time g' = r.

(** The order of the final sort. *)
Definition label_le (g h : AntigravityModelQuota) : Prop :=
  String.leb (group_label g) (group_label h) = true.

(** ** Outcomes of a proxied call *)

(** The request behind [api_call(payload)]. *)
Definition api_request (payload : value) : Request :=
  make_req (MANAGEMENT_API +:+ "/api-call") "POST" (Some payload).

(** What [api_call(payload)] returns or raises. *)
Definition proxied (payload : value) : outcome value := fst (api_call payload []).

Definition status_of (result : list (string * value)) : value :=
  dict_get result "status_code" (VInt 0).

Definition body_of (result : list (string * value)) : value :=
  dict_get result "body" (VStr "").

(** A status code that is a number from 200 to 299. *)
Definition is_2xx (status_code : value) : Prop :=
  exists n, as_number status_code = Some n /\
    number_lt n 200 = false /\ number_ge n 300 = false.

(** The failures of a proxied call that both fetchers turn into an error
    string, each with that string. *)
Inductive proxy_fails : outcome value -> string -> Prop :=
| fails_runtime msg :
    proxy_fails (Raise (RuntimeError msg)) msg
| fails_decode e :
    proxy_fails (Raise (JSONDecodeError e)) (decode_error_str e)
| fails_status d n :
    as_number (status_of d) = Some n ->
    number_lt n 200 || number_ge n 300 = true ->
    proxy_fails (Ret (VDict d)) ("HTTP " +:+ number_str n)
| fails_empty_body d :
    is_2xx (status_of d) -> truthy (body_of d) = false ->
    proxy_fails (Ret (VDict d)) "empty response"
| fails_body_decode d s e :
    is_2xx (status_of d) -> body_of d = VStr s -> s <> "" ->
    json_loads s = inl e ->
    proxy_fails (Ret (VDict d)) (decode_error_str e).

(** A [models] field that is missing, empty or not a mapping. *)
Definition no_models (models : value) : Prop :=
  forall entry entries, models <> VDict (entry :: entries).

(** The failures of one Antigravity endpoint. *)
Inductive endpoint_fails : outcome value -> string -> Prop :=
| endpoint_proxy_fails r reason :
    proxy_fails r reason -> endpoint_fails r reason
| endpoint_no_models d body :
    is_2xx (status_of d) -> truthy (body_of d) = true ->
    decode_body (body_of d) = Ret (VDict body) ->
    no_models (dict_get body "models" (VDict [])) ->
    endpoint_fails (Ret (VDict d)) "no models in response".

(** An endpoint whose response has a 2xx status, a body that is not empty
    and a [models] mapping that is not empty. *)
Definition endpoint_succeeds (r : outcome value) (models : list (string * value)) : Prop :=
  exists d body,
    r = Ret (VDict d) /\ is_2xx (status_of d) /\ truthy (body_of d) = true /\
    decode_body (body_of d) = Ret (VDict body) /\
    dict_get body "models" (VDict []) = VDict models /\ models <> [].

(** The result of [fetch_antigravity_quota] when the aggregation of the
    first good endpoint is [r]. *)
Definition antigravity_result (af : AuthFile)
    (r : outcome (list AntigravityModelQuota)) : outcome AntigravityQuota :=
  match r with
  | Ret groups => Ret {| aq_email := af_email af; aq_groups := groups; aq_error := "" |}
  | Raise e => Raise e
  end.

(** A usage window the fetcher can read: an empty object or a mapping. *)
Definition window_ok (window : value) : Prop :=
  truthy window = false \/ exists d, window = VDict d.


(** The request [get_auth_files] sends. *)
Definition directory_request : Request :=
  make_req (MANAGEMENT_API +:+ "/auth-files") "GET" None.

(** An entry whose provider tag is in the supported set. *)
Definition item_supported (item : list (string * value)) : Prop :=
  exists s, dict_get item "provider" (VStr "") = VStr s /\ s ∈ TARGET_PROVIDERS.

#[global] Instance item_supported_dec item : Decision (item_supported item).
Proof.
  unfold item_supported.
  destruct (dict_get item "provider" (VStr "")) as [| | | |s| |] eqn:Hp;
    try (right; by intros (s' & [=] & _)).
  destruct (decide (s ∈ TARGET_PROVIDERS)) as [Hs|Hs].
  - left. by exists s.
  - right. intros (s' & [= <-] & Hs'). done.
Defined.

(** An entry the loop can read: its provider tag is hashable and, for a
    codex entry, its [id_token] is empty or a mapping. *)
Definition item_readable (item : list (string * value)) : Prop :=
  match dict_get item "provider" (VStr "") with
  | VList _ | VDict _ => False
  | provider =>
      is_str provider "codex" = true -> window_ok (dict_get item "id_token" (VDict []))
  end.

(** The field [k] of the [id_token] of a codex entry, or its default. *)
Definition id_token_field (item : list (string * value)) (k : string) : value :=
  if is_str (dict_get item "provider" (VStr "")) "codex" then
    match dict_get item "id_token" (VDict []) with
    | VDict (entry :: entries) => dict_get (entry :: entries) k (VStr "")
    | _ => VStr ""
    end
  else VStr "".

(** The record built from one entry, field by field, with the default of
    each field that is absent. *)
Definition auth_file_of (item : list (string * value)) (af : AuthFile) : Prop :=
  af_name af = dict_get item "name" (VStr "") /\
  af_provider af = dict_get item "provider" (VStr "") /\
  af_auth_index af =
    py_or (dict_get item "auth_index" (VStr "")) (dict_get item "authIndex" (VStr "")) /\
  af_email af = dict_get item "email" (VStr "") /\
  af_status af = dict_get item "status" (VStr "unknown") /\
  af_status_message af = dict_get item "status_message" (VStr "") /\
  af_disabled af = dict_get item "disabled" (VBool false) /\
  af_unavailable af = dict_get item "unavailable" (VBool false) /\
  af_label af = dict_get item "label" (VStr "") /\
  af_account_type af = dict_get item "account_type" (VStr "") /\
  af_chatgpt_account_id af = id_token_field item "chatgpt_account_id" /\
  af_plan_type af = id_token_field item "plan_type" /\
  af_project_id af = VStr "".

End Vocabulary.

(** * A concrete interpreter and host, for the examples *)

(** [str(x)] for a rational with a finite decimal expansion of at most
    [fuel] digits after the point: [0.5], [0.25], [1.0]. *)
Fixpoint decimal_digits (fuel : nat) (num den : Z) : string :=
  match fuel with
  | O => ""
  | S fuel' =>
      let d := (num * 10) / den in
      let r := (num * 10) mod den in
      str_of_int d +:+ (if r =? 0 then "" else decimal_digits fuel' r den)
  end.

Definition Q_str (x : Q) : string :=
  let n := Qnum x in
  let d := Z.pos (Qden x) in
  (if n <? 0 then "-" else "") +:+ str_of_int (Z.abs n / d) +:+ "."
    +:+ decimal_digits 17 (Z.abs n mod d) d.

(** Floats as rationals: exact comparison, and [float()] is the identity on
    numbers. [float(s)] is not tabulated: no example converts a string. *)
Definition QFloat : PyFloat := {|
  float := Q;
  flt a b := negb (Qle_bool b a);
  float_truthy x := negb (Qeq_bool x 0);
  float_of_int z := Some (inject_Z z);
  float_of_str _ := None;
  float_lt_int x n := negb (Qle_bool (inject_Z n) x);
  float_ge_int x n := Qle_bool (inject_Z n) x;
  float_str := Q_str
|}.

(** Floats with NaN: a rational, or [None] for NaN, which [<] relates to
    no float. [float(s)] is tabulated for the text "nan" only. *)
Definition NanFloat : PyFloat := {|
  float := option Q;
  flt a b :=
    match a, b with
    | Some x, Some y => negb (Qle_bool y x)
    | _, _ => false
    end;
  float_truthy x := match x with Some q => negb (Qeq_bool q 0) | None => true end;
  float_of_int z := Some (Some (inject_Z z));
  float_of_str s := if String.eqb s "nan" then Some None else None;
  float_lt_int x n :=
    match x with Some q => negb (Qle_bool (inject_Z n) q) | None => false end;
  float_ge_int x n := match x with Some q => Qle_bool (inject_Z n) q | None => false end;
  float_str x := match x with Some q => Q_str q | None => "nan" end
|}.

Section ExampleHost.

#[local] Existing Instance QFloat.

(** [json.dumps] on the values of the examples (no control character and
    no character outside ASCII in a string). *)
Definition json_quote (s : string) : string :=
  let dq := String (ascii_of_nat 34) EmptyString in
  let bs := ascii_of_nat 92 in
  let fix escape (s : string) : string :=
    match s with
    | EmptyString => EmptyString
    | String c s' =>
        if Ascii.eqb c (ascii_of_nat 34) || Ascii.eqb c bs
        then String bs (String c (escape s'))
        else String c (escape s')
    end in
  dq +:+ escape s +:+ dq.

Fixpoint json_text (v : value) : string :=
  match v with
  | VNone => "null"
  | VBool b => if b then "true" else "false"
  | VInt z => str_of_int z
  | VFloat x => float_str x
  | VStr s => json_quote s
  | VList l =>
      "[" +:+ (fix items (l : list value) : string :=
                 match l with
                 | [] => ""
                 | [x] => json_text x
                 | x :: l' => json_text x +:+ ", " +:+ items l'
                 end) l +:+ "]"
  | VDict d =>
      "{" +:+ (fix items (d : list (string * value)) : string :=
                 match d with
                 | [] => ""
                 | [(k, x)] => json_quote k +:+ ": " +:+ json_text x
                 | (k, x) :: d' => json_quote k +:+ ": " +:+ json_text x +:+ ", " +:+ items d'
                 end) d +:+ "}"
  end.

(** What the network answers on one URL: a 200 response carrying the JSON
    text of a value, or a failure of the transport. *)
Inductive answer :=
| Answers (v : value)
| Fails (r : reply).

(** The URL a request is about: the upstream URL of a proxied call, the
    URL of the request otherwise. *)
Definition target_url (req : Request) : string :=
  match req_data req with
  | Some (VDict d) => match assoc "url" d with Some (VStr u) => u | _ => req_url req end
  | _ => req_url req
  end.

(** A host given by the answer to each URL; [json.loads] is known on the
    text of every answer and of every value of [bodies], and nothing else
    is sent to it. *)
Definition example_host (answers : list (string * answer)) (bodies : list value) : Host := {|
  json_loads s :=
    let known := omap (fun a => match a.2 with Answers v => Some v | Fails _ => None end) answers
                 ++ bodies in
    match List.find (fun v => String.eqb (json_text v) s) known with
    | Some v => inr v
    | None => inl (DecodeError "Expecting value" 1 1 0)
    end;
  json_dumps := json_text;
  BASE_URL := "http://127.0.0.1:8317";
  MANAGEMENT_KEY := "secret";
  urlopen req :=
    match assoc (target_url req) answers with
    | Some (Answers v) => Response (json_text v)
    | Some (Fails r) => r
    | None => URLError "unreachable"
    end
|}.

Definition url_A : string := "https://daily-cloudcode-pa.googleapis.com/v1internal:fetchAvailableModels".
Definition url_B : string := "https://daily-cloudcode-pa.sandbox.googleapis.com/v1internal:fetchAvailableModels".
Definition url_C : string := "https://cloudcode-pa.googleapis.com/v1internal:fetchAvailableModels".

Definition example_model_entry (remaining : list (string * value)) : value :=
  VDict [("quotaInfo", VDict remaining)].

End ExampleHost.

(** ** Example data *)

Section ExampleData.

#[local] Existing Instance QFloat.

(** Two members of the group "Gemini 3 Pro": the first at one half with a
    reset time, the second at one quarter without one. *)
Definition two_models : list (string * value) :=
  [ ("gemini-3-pro-high",
     example_model_entry [("remainingFraction", VFloat (1#2)); ("resetTime", VStr "T1")]);
    ("gemini-3-pro-low",
     example_model_entry [("remainingFraction", VFloat (1#4))]) ].

Definition two_models_swapped : list (string * value) :=
  [ ("gemini-3-pro-low",
     example_model_entry [("remainingFraction", VFloat (1#4))]);
    ("gemini-3-pro-high",
     example_model_entry [("remainingFraction", VFloat (1#2)); ("resetTime", VStr "T1")]) ].

(** An entry whose [quotaInfo] holds a reset time only, with the fraction
    at the top level. *)
Definition split_entry : list (string * value) :=
  [ ("quotaInfo", VDict [("resetTime", VStr "T")]);
    ("remainingFraction", VFloat (1#2)) ].

Definition codex_account : AuthFile := {|
  af_name := VStr "codex-1.json"; af_provider := VStr "codex";
  af_auth_index := VStr "a1"; af_email := VStr "u@x.com";
  af_status := VStr "active"; af_status_message := VStr "";
  af_disabled := VBool false; af_unavailable := VBool false;
  af_label := VStr ""; af_account_type := VStr "";
  af_chatgpt_account_id := VStr "acct1"; af_plan_type := VStr "plus";
  af_project_id := VStr "" |}.

Definition antigravity_account : AuthFile := {|
  af_name := VStr "ag-1.json"; af_provider := VStr "antigravity";
  af_auth_index := VStr "a2"; af_email := VStr "v@y.com";
  af_status := VStr "active"; af_status_message := VStr "";
  af_disabled := VBool false; af_unavailable := VBool false;
  af_label := VStr ""; af_account_type := VStr "";
  af_chatgpt_account_id := VStr ""; af_plan_type := VStr "";
  af_project_id := VStr "" |}.


(** The Codex backend answers 503. *)
Definition host_codex_503 : Host :=
  example_host
    [ ("https://chatgpt.com/backend-api/wham/usage",
       Answers (VDict [("status_code", VInt 503); ("body", VStr "")])) ]
    [].

Definition codex_usage : value :=
  VDict [ ("plan_type", VStr "pro");
          ("rate_limit",
           VDict [ ("limit_reached", VBool false);
                   ("primary_window",
                    VDict [("used_percent", VInt 25); ("reset_after_seconds", VInt 1800)]) ]) ].

(** The Codex backend answers 200 with a usage record. *)
Definition host_codex_usage : Host :=
  example_host
    [ ("https://chatgpt.com/backend-api/wham/usage",
       Answers (VDict [("status_code", VInt 200); ("body", VStr (json_text codex_usage))])) ]
    [ codex_usage ].

Definition good_models : list (string * value) :=
  [ ("gemini-2.5-pro",
     example_model_entry [ ("remainingFraction", VFloat (2#5));
                           ("resetTime", VStr "2099-01-01T00:00:00Z") ]) ].

(** The first endpoint is unreachable, the second answers 404, the third
    answers 200 with one model. *)
Definition host_third_endpoint : Host :=
  example_host
    [ (url_A, Fails (URLError "timed out"));
      (url_B, Answers (VDict [("status_code", VInt 404); ("body", VStr "not found")]));
      (url_C, Answers (VDict [ ("status_code", VInt 200);
                               ("body", VStr (json_text (VDict [("models", VDict good_models)]))) ])) ]
    [ VDict [("models", VDict good_models)] ].



(** The first endpoint answers 200 with a model whose [quotaInfo] is a
    string. *)
Definition bad_models : list (string * value) :=
  [ ("gemini-2.5-pro", VDict [("quotaInfo", VStr "n/a")]) ].

Definition host_bad_model_entry : Host :=
  example_host
    [ (url_A, Answers (VDict [ ("status_code", VInt 200);
                               ("body", VDict [("models", VDict bad_models)]) ])) ]
    [].

(** The first endpoint answers 200 with the JSON list [[1]] as body, the
    second with one model. *)
Definition host_list_then_good : Host :=
  example_host
    [ (url_A, Answers (VDict [("status_code", VInt 200); ("body", VStr "[1]")]));
      (url_B, Answers (VDict [ ("status_code", VInt 200);
                               ("body", VDict [("models", VDict good_models)]) ])) ]
    [ VList [VInt 1] ].



Definition bare_codex_item : list (string * value) := [("provider", VStr "codex")].

(** The directory lists one codex entry that has a provider tag and
    nothing else. *)
Definition host_bare_directory : Host :=
  example_host
    [ ("http://127.0.0.1:8317/v0/management/auth-files",
       Answers (VDict [("files", VList [VDict bare_codex_item])])) ]
    [].

Definition directory_items : list (list (string * value)) :=
  [ [ ("name", VStr "codex-1.json"); ("provider", VStr "codex");
      ("auth_index", VStr "a1"); ("email", VStr "u@x.com");
      ("id_token", VDict [("chatgpt_account_id", VStr "acct1"); ("plan_type", VStr "plus")]) ];
    [ ("name", VStr "claude-1.json"); ("provider", VStr "claude") ];
    [ ("name", VStr "ag-1.json"); ("provider", VStr "antigravity");
      ("authIndex", VStr "a2"); ("email", VStr "v@y.com") ] ].

(** The directory lists a codex, a claude and an antigravity entry. *)
Definition host_directory : Host :=
  example_host
    [ ("http://127.0.0.1:8317/v0/management/auth-files",
       Answers (VDict [("files", VList (VDict <$> directory_items))])) ]
    [].

(** The group the aggregator returns for [two_models]. *)
Definition two_models_group : AntigravityModelQuota :=
  {| group_label := "Gemini 3 Pro";
     remaining_fraction := Some (1#4)%Q;
     reset_time := VStr "T1";
     models := ["gemini-3-pro-high"; "gemini-3-pro-low"] |}.

(** The group it returns for the same entries in the other order. *)
Definition two_models_swapped_group : AntigravityModelQuota :=
  {| group_label := "Gemini 3 Pro";
     remaining_fraction := Some (1#4)%Q;
     reset_time := VStr "";
     models := ["gemini-3-pro-low"; "gemini-3-pro-high"] |}.

(** Two records that lack what the Codex fetcher needs. *)
Definition account_without_index : AuthFile := {|
  af_name := VStr "codex-2.json"; af_provider := VStr "codex";
  af_auth_index := VStr ""; af_email := VStr "w@x.com";
  af_status := VStr "active"; af_status_message := VStr "";
  af_disabled := VBool false; af_unavailable := VBool false;
  af_label := VStr ""; af_account_type := VStr "";
  af_chatgpt_account_id := VStr "acct2"; af_plan_type := VStr "plus";
  af_project_id := VStr "" |}.

Definition account_without_id : AuthFile := {|
  af_name := VStr "codex-3.json"; af_provider := VStr "codex";
  af_auth_index := VStr "a3"; af_email := VStr "z@x.com";
  af_status := VStr "active"; af_status_message := VStr "";
  af_disabled := VBool false; af_unavailable := VBool false;
  af_label := VStr ""; af_account_type := VStr "";
  af_chatgpt_account_id := VStr ""; af_plan_type := VStr "";
  af_project_id := VStr "" |}.

End ExampleData.

Section NanExampleData.

#[local] Existing Instance NanFloat.

(** Two members of the group "Gemini 3 Pro": the first shows NaN, the
    second one quarter. *)
Definition nan_models : list (string * value) :=
  [ ("gemini-3-pro-high",
     VDict [("quotaInfo", VDict [("remainingFraction", VFloat None)])]);
    ("gemini-3-pro-low",
     VDict [("quotaInfo", VDict [("remainingFraction", VFloat (Some (1#4)))])]) ].

Definition nan_models_swapped : list (string * value) :=
  [ ("gemini-3-pro-low",
     VDict [("quotaInfo", VDict [("remainingFraction", VFloat (Some (1#4)))])]);
    ("gemini-3-pro-high",
     VDict [("quotaInfo", VDict [("remainingFraction", VFloat None)])]) ].

End NanExampleData.

(** A clock for the examples: a host whose local zone is UTC and whose
    clock reads 2026-11-03 12:00:00. A datetime is its wall-clock time in
    seconds since 1970-01-01 00:00:00 and its UTC offset in seconds, absent
    for a naive one. *)
Record example_datetime := {
  ex_wall : Z;
  ex_offset : option Z
}.

(** Year, month and day of a day count since 1970-01-01, in the proleptic
    Gregorian calendar. *)
Definition civil_from_days (days : Z) : Z * Z * Z :=
  let z := days + 719468 in
  let era := z / 146097 in
  let doe := z - era * 146097 in
  let yoe := (doe - doe / 1460 + doe / 36524 - doe / 146096) / 365 in
  let doy := doe - (365 * yoe + yoe / 4 - yoe / 100) in
  let mp := (5 * doy + 2) / 153 in
  let d := doy - (153 * mp + 2) / 5 + 1 in
  let m := if mp <? 10 then mp + 3 else mp - 9 in
  let y := yoe + era * 400 + (if m <=? 2 then 1 else 0) in
  (y, m, d).

(** [datetime.fromisoformat] on the timestamps of the examples; any other
    text is taken as malformed. *)
Definition example_fromisoformat (s : string) : option example_datetime :=
  if String.eqb s "2099-01-01T00:00:00+00:00" then
    Some {| ex_wall := 4070908800; ex_offset := Some 0 |}
  else if String.eqb s "2020-01-01T00:00:00+00:00" then
    Some {| ex_wall := 1577836800; ex_offset := Some 0 |}
  else if String.eqb s "2099-01-01T00:00:00" then
    Some {| ex_wall := 4070908800; ex_offset := None |}
  else None.

Definition example_clock : PyClock := {|
  datetime := example_datetime;
  instant dt := (fun offset => (ex_wall dt - offset) * 1000000) <$> ex_offset dt;
  dt_month dt := (civil_from_days (ex_wall dt / 86400)).1.2;
  dt_day dt := (civil_from_days (ex_wall dt / 86400)).2;
  dt_hour dt := (ex_wall dt mod 86400) / 3600;
  dt_minute dt := (ex_wall dt mod 3600) / 60;
  now_local := {| ex_wall := 1793707200; ex_offset := None |};
  now_utc := 1793707200 * 1000000;
  add_seconds dt n :=
    let wall := ex_wall dt + n in
    let year := (civil_from_days (wall / 86400)).1.1 in
    if (1 <=? year) && (year <=? 9999)
    then Some {| ex_wall := wall; ex_offset := ex_offset dt |}
    else None;
  fromisoformat := example_fromisoformat;
  astimezone dt :=
    Ret {| ex_wall := ex_wall dt - default 0 (ex_offset dt); ex_offset := Some 0 |}
|}.

(** The same clock on a host five hours west of UTC: [astimezone] raises
    [OverflowError] when the local time falls outside the years 1 to
    9999, as it does for the first instant of year 1 in UTC. *)
Definition west_fromisoformat (s : string) : option example_datetime :=
  if String.eqb s "0001-01-01T00:00:00+00:00" then
    Some {| ex_wall := -62135596800; ex_offset := Some 0 |}
  else example_fromisoformat s.

Definition west_clock : PyClock := {|
  datetime := example_datetime;
  instant dt := (fun offset => (ex_wall dt - offset) * 1000000) <$> ex_offset dt;
  dt_month dt := (civil_from_days (ex_wall dt / 86400)).1.2;
  dt_day dt := (civil_from_days (ex_wall dt / 86400)).2;
  dt_hour dt := (ex_wall dt mod 86400) / 3600;
  dt_minute dt := (ex_wall dt mod 3600) / 60;
  now_local := {| ex_wall := 1793707200 - 18000; ex_offset := None |};
  now_utc := 1793707200 * 1000000;
  add_seconds dt n :=
    let wall := ex_wall dt + n in
    let year := (civil_from_days (wall / 86400)).1.1 in
    if (1 <=? year) && (year <=? 9999)
    then Some {| ex_wall := wall; ex_offset := ex_offset dt |}
    else None;
  fromisoformat := west_fromisoformat;
  astimezone dt :=
    let wall := match ex_offset dt with
                | Some offset => ex_wall dt - offset - 18000
                | None => ex_wall dt
                end in
    let year := (civil_from_days (wall / 86400)).1.1 in
    if (1 <=? year) && (year <=? 9999)
    then Ret {| ex_wall := wall; ex_offset := Some (-18000) |}
    else Raise OverflowError
|}.

(** * Vocabulary of the further statements *)

Section CoverageVocabulary.

Context {pf : PyFloat} {host : Host}.

(** An entry the loop of the aggregator acts on: its value is a record and
    its key is a model id of the configuration. *)
Definition configured_record (entry : string * value) : bool :=
  match snd entry with
  | VDict _ => bool_decide (is_Some (model_to_group !! fst entry))
  | _ => false
  end.

(** An assignment to the quota object that leaves its email and its error
    as they are. *)
Definition window_setter_keeps (set : value -> CodexQuota -> CodexQuota) : Prop :=
  forall v q, cq_email (set v q) = cq_email q /\ cq_error (set v q) = cq_error q.

(** What holds of every record [get_auth_files] builds: its provider is
    one of the two supported tags, it has no project id, and only a codex
    record has an account id and a plan type. *)
Definition directory_record (af : AuthFile) : Prop :=
  (af_provider af = VStr "codex" \/ af_provider af = VStr "antigravity") /\
  af_project_id af = VStr "" /\
  (af_provider af = VStr "antigravity" ->
   af_chatgpt_account_id af = VStr "" /\ af_plan_type af = VStr "").

End CoverageVocabulary.

(** * Module start-up: the [.env] file and the configuration *)

(** The statements the module runs when it is loaded: it reads the file
    [.env] beside the script into [os.environ], then takes the two
    configuration values from [os.environ]. A Python [str] is held as its
    UTF-8 encoding, one [ascii] a byte; the file is given by the lines its
    iteration yields, and [None] stands for a file that is not there. *)

(** The string of the bytes [codes]. *)
Definition bytes_string (codes : list nat) : list ascii := ascii_of_nat <$> codes.

(** The characters [str.isspace] holds of, each by its encoding: the code
    points 9 to 13, 28 to 32, 0x85, 0xA0, 0x1680, 0x2000 to 0x200A, 0x2028,
    0x2029, 0x202F, 0x205F and 0x3000. *)
Definition WHITESPACE : list (list ascii) :=
  bytes_string <$>
    [ [9]; [10]; [11]; [12]; [13]; [28]; [29]; [30]; [31]; [32];
      [194; 133]; [194; 160]; [225; 154; 128];
      [226; 128; 128]; [226; 128; 129]; [226; 128; 130]; [226; 128; 131];
      [226; 128; 132]; [226; 128; 133]; [226; 128; 134]; [226; 128; 135];
      [226; 128; 136]; [226; 128; 137]; [226; 128; 138];
      [226; 128; 168]; [226; 128; 169]; [226; 128; 175]; [226; 129; 159];
      [227; 128; 128] ]%nat.

(** The characters the value of a line is stripped of, the double and the
    single quote, and the character of [rstrip("/")]. *)
Definition QUOTES : list (list ascii) := bytes_string <$> [ [34]; [39] ]%nat.
Definition SLASH : list (list ascii) := bytes_string <$> [ [47] ]%nat.

(** [s] without its prefix [p], when it starts with [p]. *)
Fixpoint strip_prefix (p s : list ascii) : option (list ascii) :=
  match p, s with
  | [], _ => Some s
  | a :: p', b :: s' => if Ascii.eqb a b then strip_prefix p' s' else None
  | _ :: _, [] => None
  end.

(** [s] without its first character, when that is one of [chars]. *)
Fixpoint strip_one (chars : list (list ascii)) (s : list ascii) : option (list ascii) :=
  match chars with
  | [] => None
  | c :: chars' =>
      match strip_prefix c s with
      | Some s' => Some s'
      | None => strip_one chars' s
      end
  end.

Fixpoint lstrip_fuel (fuel : nat) (chars : list (list ascii)) (s : list ascii)
  : list ascii :=
  match fuel with
  | O => s
  | S fuel' =>
      match strip_one chars s with
      | Some s' => lstrip_fuel fuel' chars s'
      | None => s
      end
  end.

(** [s.lstrip(chars)], [s.rstrip(chars)] and [s.strip(chars)] on the
    bytes of [s]: characters of [chars] are taken off an end for as long as
    there is one. *)
Definition lstrip_bytes (chars : list (list ascii)) (s : list ascii) : list ascii :=
  lstrip_fuel (length s) chars s.

Definition rstrip_bytes (chars : list (list ascii)) (s : list ascii) : list ascii :=
  reverse (lstrip_bytes (reverse <$> chars) (reverse s)).

Definition rstrip (chars : list (list ascii)) (s : string) : string :=
  string_of_list_ascii (rstrip_bytes chars (list_ascii_of_string s)).

Definition strip (chars : list (list ascii)) (s : string) : string :=
  string_of_list_ascii
    (rstrip_bytes chars (lstrip_bytes chars (list_ascii_of_string s))).

(** [n] slashes. *)
Definition slashes (n : nat) : string := string_of_list_ascii (replicate n "/"%char).

(** ["=" in s] and [s.startswith("#")]. *)
Definition has_equals (s : string) : bool :=
  existsb (Ascii.eqb "=") (list_ascii_of_string s).

Definition is_comment (s : string) : bool := String.prefix "#" s.

(** [s.partition("=")]: what stands before the first ["="] and what
    stands after it. *)
Fixpoint partition_equals (s : string) : string * string :=
  match s with
  | EmptyString => (EmptyString, EmptyString)
  | String a s' =>
      if Ascii.eqb a "=" then (EmptyString, s')
      else let '(k, v) := partition_equals s' in (String a k, v)
  end.

(** [os.environ]. *)
Definition environ := gmap string string.

(** The key and the value one line of the file assigns; [None] for a line
    the loop passes over: a blank line, a comment, a line without ["="]
    or with nothing before it. *)
Definition parse_env_line (raw : string) : option (string * string) :=
  let line := strip WHITESPACE raw in
  if String.eqb line "" || is_comment line || negb (has_equals line) then None
  else
    let '(k, v) := partition_equals line in
    let key := strip WHITESPACE k in
    let val := strip QUOTES (strip WHITESPACE v) in
    if String.eqb key "" then None else Some (key, val).

(** [os.environ[key] = val]: a name or a value with a NUL byte is a
    [ValueError]. *)
Definition has_nul (s : string) : bool :=
  existsb (Ascii.eqb zero) (list_ascii_of_string s).

Definition setenv (key val : string) (env : environ) : outcome environ :=
  if has_nul key || has_nul val then Raise ValueError
  else Ret (<[key := val]> env).

(** The body of [for _line in _f]. *)
Definition load_env_line (env : environ) (raw : string) : outcome environ :=
  match parse_env_line raw with
  | Some (key, val) =>
      if bool_decide (is_Some (env !! key)) then Ret env else setenv key val env
  | None => Ret env
  end.

Fixpoint load_env_lines (env : environ) (lines : list string) : outcome environ :=
  match lines with
  | [] => Ret env
  | raw :: rest => env' ← load_env_line env raw; load_env_lines env' rest
  end.

(** [if os.path.isfile(_ENV_FILE): ...]. *)
Definition load_env_file (file : option (list string)) (env : environ) : outcome environ :=
  match file with
  | Some lines => load_env_lines env lines
  | None => Ret env
  end.

(** [os.environ[key]]; the [KeyError] carries the [repr] of the name. *)
Definition getenv (env : environ) (key : string) : outcome string :=
  match env !! key with
  | Some v => Ret v
  | None => Raise (KeyError ("'" +:+ key +:+ "'"))
  end.

(** [BASE_URL], [MANAGEMENT_KEY] and [MANAGEMENT_API] as the module
    computes them. *)
Record Configuration := {
  cfg_BASE_URL : string;
  cfg_MANAGEMENT_KEY : string;
  cfg_MANAGEMENT_API : string
}.

Definition configuration (env : environ) : outcome Configuration :=
  base ← getenv env "CPA_BASE_URL";
  key ← getenv env "CPA_MANAGEMENT_KEY";
  let base_url := rstrip SLASH base in
  mret {| cfg_BASE_URL := base_url;
          cfg_MANAGEMENT_KEY := key;
          cfg_MANAGEMENT_API := base_url +:+ "/v0/management" |}.

(** The start-up as a whole. *)
Definition startup (file : option (list string)) (env : environ) : outcome Configuration :=
  env' ← load_env_file file env;
  configuration env'.

(** * The SwiftBar output and the entry point *)

(** What the output functions take from the interpreter besides
    [PyFloat] and [PyClock]. The clock is read as the one instant
    [now_local] throughout a run. *)
Class PyRuntime {pf : PyFloat} {clock : PyClock} := {
  (** [s.upper()]. *)
  str_upper : string -> string;
  (** [str(v)] for a list or a dict [v]. *)
  container_str : value -> string;
  (** [n - x] for an int [n] and a float [x]. *)
  float_rsub : Z -> float -> float;
  (** [x * n] for a float [x] and an int [n]. *)
  float_mul_int : float -> Z -> float;
  (** [round(x)]: a [ValueError] for a NaN, an [OverflowError] for an
      infinity. *)
  float_round : float -> outcome Z;
  (** [x <= n] for a float [x] and an int [n]. *)
  float_le_int : float -> Z -> bool;
  (** [dt + timedelta(seconds=x)] for a float [x]: a [ValueError] for a
      NaN, an [OverflowError] out of range. *)
  add_seconds_float : datetime -> float -> outcome datetime;
  (** [dt.second]. *)
  dt_second : datetime -> Z;
  (** [str(exc)] for an exception that the interpreter raises with a text
      of its own, which [exn] does not hold. *)
  interpreter_text : exn -> string
}.

Section Output.

Context {pf : PyFloat} {host : Host} {clock : PyClock} {rt : PyRuntime}.

(** [str(v)], which is what an f-string puts for [{v}]. *)
Definition py_str (v : value) : string :=
  match v with
  | VNone => "None"
  | VBool b => if b then "True" else "False"
  | VInt z => str_of_int z
  | VFloat x => float_str x
  | VStr s => s
  | VList _ | VDict _ => container_str v
  end.

(** [v.upper()]: only a [str] has the method. *)
Definition py_upper (v : value) : outcome string :=
  match v with
  | VStr s => Ret (str_upper s)
  | _ => Raise AttributeError
  end.

(** [n - v] for an int [n]. *)
Definition py_rsub (n : Z) (v : value) : outcome value :=
  match v with
  | VInt z => Ret (VInt (n - z))
  | VBool b => Ret (VInt (n - Z.b2z b))
  | VFloat x => Ret (VFloat (float_rsub n x))
  | VNone | VStr _ | VList _ | VDict _ => Raise TypeError
  end.

(** [_fmt_reset_abs(seconds)] for whatever the response held under
    [reset_after_seconds]: [seconds <= 0] is a [TypeError] for a string,
    a list or a dict. *)
Definition fmt_reset_abs_value (seconds : value) : outcome string :=
  match seconds with
  | VNone => _fmt_reset_abs None
  | VInt n => _fmt_reset_abs (Some n)
  | VBool b => _fmt_reset_abs (Some (Z.b2z b))
  | VFloat x =>
      if float_le_int x 0 then Ret "now"
      else reset_dt ← add_seconds_float now_local x; Ret (fmt_month_day_time reset_dt)
  | VStr _ | VList _ | VDict _ => Raise TypeError
  end.

(** [_fmt_reset_time(reset_time)] for whatever the group holds as reset
    time: [reset_time.replace] is an [AttributeError], which the function
    does not handle, for anything truthy but a string. *)
Definition fmt_reset_time_value (reset_time : value) : outcome string :=
  if truthy reset_time then
    match reset_time with
    | VStr s => _fmt_reset_time s
    | _ => Raise AttributeError
    end
  else Ret "".

(** The text after the percentage: the reset time when there is one. *)
Definition reset_suffix (reset : string) : string :=
  if String.eqb reset "" then "" else " 🔄" +:+ reset.

(** The icon of a Codex account that has not reached its limit: the
    source holds the character U+FFFD there. *)
Definition CODEX_OK_ICON : string :=
  string_of_list_ascii (ascii_of_nat <$> [239; 191; 189]%nat).

(** Standard output: the texts written, one for each call of [print], in
    the order of the calls. [print] ends each text with a newline, so a
    text that holds no newline is one line of the output, and a text that
    holds one, as an error message copied from an HTTP response can, is
    more than one line. *)
Definition Out := list string.

(** [print(line)]: one call, one text. *)
Definition print (line : string) : Eff Out unit := fun out => (Ret tt, out ++ [line]).

(** [for x in l: f x]. *)
Fixpoint for_each {S A} (f : A -> Eff S unit) (l : list A) : Eff S unit :=
  match l with
  | [] => mret tt
  | x :: rest => _ ← f x; for_each f rest
  end.

(** [len(quotas)] in the heading of a section. *)
Definition len_str {A} (l : list A) : string := str_of_int (Z.of_nat (length l)).

(** The body of the loop of [print_codex_section]. *)
Definition print_codex_quota (q : CodexQuota) : Eff Out unit :=
  if negb (String.eqb (cq_error q) "") then
    print ("--  ❌ " +:+ py_str (py_or (cq_email q) (VStr "unknown")) +:+ " — "
             +:+ cq_error q +:+ " | font=Menlo size=12")
  else
    let status_icon := if truthy (cq_limit_reached q) then "🔴" else CODEX_OK_ICON in
    plan ← lift (if truthy (cq_plan_type q) then py_upper (cq_plan_type q) else Ret "?");
    let account := "--  " +:+ status_icon +:+ " " +:+ py_str (cq_email q)
                     +:+ " [" +:+ plan +:+ "] | font=Menlo size=12" in
    _ ← match cq_primary_used_pct q with
        | VNone => print account
        | used =>
            remaining_pct ← lift (py_rsub 100 used);
            reset ← lift (fmt_reset_abs_value (cq_primary_reset_seconds q));
            _ ← print account;
            print ("----  5h window: " +:+ py_str remaining_pct +:+ "%"
                     +:+ reset_suffix reset +:+ " | font=Menlo size=11")
        end;
    match cq_secondary_used_pct q with
    | VNone => mret tt
    | used =>
        remaining_pct ← lift (py_rsub 100 used);
        reset ← lift (fmt_reset_abs_value (cq_secondary_reset_seconds q));
        print ("----  Weekly: " +:+ py_str remaining_pct +:+ "%"
                 +:+ reset_suffix reset +:+ " | font=Menlo size=11")
    end.

(** [print_codex_section(quotas)]. *)
Definition print_codex_section (quotas : list CodexQuota) : Eff Out unit :=
  _ ← print ("🤖 Codex (" +:+ len_str quotas +:+ " accounts) | size=14 color=#ffffff");
  for_each print_codex_quota quotas.

(** The colour of a percentage. *)
Definition pct_color (pct : Z) : string :=
  if 50 <? pct then "#4caf50" else if 20 <? pct then "#ff9800" else "#f44336".

(** The body of the loop over the groups of an account. *)
Definition print_antigravity_group (g : AntigravityModelQuota) : Eff Out unit :=
  match remaining_fraction g with
  | Some x =>
      pct ← lift (float_round (float_mul_int x 100));
      reset ← lift (fmt_reset_time_value (reset_time g));
      print ("----  " +:+ group_label g +:+ ": " +:+ str_of_int pct +:+ "%"
               +:+ reset_suffix reset +:+ " | font=Menlo size=11 color=" +:+ pct_color pct)
  | None =>
      print ("----  " +:+ group_label g +:+ ": N/A | font=Menlo size=11 color=#888888")
  end.

(** The body of the loop of [print_antigravity_section]. *)
Definition print_antigravity_quota (q : AntigravityQuota) : Eff Out unit :=
  let display_name := py_str (py_or (aq_email q) (VStr "unknown")) in
  if negb (String.eqb (aq_error q) "") then
    print ("--  ❌ " +:+ display_name +:+ " — " +:+ aq_error q +:+ " | font=Menlo size=12")
  else
    _ ← print ("--  🟢 " +:+ display_name +:+ " | font=Menlo size=12");
    match aq_groups q with
    | [] => print "----  No model data | font=Menlo size=11 color=#888888"
    | groups => for_each print_antigravity_group groups
    end.

(** [print_antigravity_section(quotas)]. *)
Definition print_antigravity_section (quotas : list AntigravityQuota) : Eff Out unit :=
  _ ← print ("🌀 Antigravity (" +:+ len_str quotas +:+ " accounts) | size=14 color=#ffffff");
  for_each print_antigravity_quota quotas.

(** [min(fracs)] for a list that is not empty: the first of the least,
    by [<]. *)
Definition py_min (first : float) (rest : list float) : float :=
  foldl (fun lowest x => if flt x lowest then x else lowest) first rest.

(** What [print_status_bar] appends to [parts] for the Codex accounts. *)
Definition codex_title_parts (codex_quotas : list CodexQuota) : outcome (list string) :=
  match codex_quotas with
  | [] => Ret []
  | q :: _ =>
      match cq_primary_used_pct q with
      | VNone => Ret ["🤖C:?"]
      | used =>
          remaining ← py_rsub 100 used;
          let icon := if truthy (cq_limit_reached q) then "🔴" else "🤖" in
          Ret [icon +:+ "C:" +:+ py_str remaining +:+ "%"]
      end
  end.

(** What it appends for the Antigravity accounts. *)
Definition antigravity_title_parts (ag_quotas : list AntigravityQuota)
  : outcome (list string) :=
  match ag_quotas with
  | [] => Ret []
  | q :: _ =>
      match aq_groups q with
      | _ :: _ =>
          match omap remaining_fraction (aq_groups q) with
          | x :: fracs =>
              lowest ← float_round (float_mul_int (py_min x fracs) 100);
              Ret ["🌀A:" +:+ str_of_int lowest +:+ "%"]
          | [] => Ret ["🌀A:?"]
          end
      | [] =>
          if negb (String.eqb (aq_error q) "") then Ret ["🌀A:⚠️"] else Ret ["🌀A:?"]
      end
  end.

(** [print_status_bar(codex_quotas, ag_quotas)]. *)
Definition print_status_bar (codex_quotas : list CodexQuota)
    (ag_quotas : list AntigravityQuota) : Eff Out unit :=
  codex ← lift (codex_title_parts codex_quotas);
  antigravity ← lift (antigravity_title_parts ag_quotas);
  let parts := codex ++ antigravity in
  let title := match parts with
               | [] => "📊 Quota"
               | _ => String.concat " " parts
               end in
  print (title +:+ " | size=13").

(** The lines of [print_error(message)]. *)
Definition error_lines (message : string) : list string :=
  [ "⚠️ Quota | color=red";
    "---";
    "Error: " +:+ message +:+ " | color=red";
    "---";
    "🔄 Retry | refresh=true" ].

Definition print_lines (lines : list string) : Eff Out unit := for_each print lines.

(** [print_error(message)]. *)
Definition print_error (message : string) : Eff Out unit :=
  print_lines (error_lines message).

(** What [main] prints when the directory lists no account of the two
    providers. *)
Definition no_accounts_lines : list string :=
  [ "📊 No accounts | size=13";
    "---";
    "No Codex or Antigravity accounts found | color=#888888";
    "---";
    "⚙️ Management Center | href=" +:+ BASE_URL ].

(** The lines that end the menu; [now_str] is
    [datetime.now().strftime("%H:%M:%S")]. *)
Definition footer_lines : list string :=
  let now_str := pad2 (dt_hour now_local) +:+ ":" +:+ pad2 (dt_minute now_local)
                   +:+ ":" +:+ pad2 (dt_second now_local) in
  [ "---";
    "🕐 Updated: " +:+ now_str +:+ " | size=11 color=#888888";
    "---";
    "🔄 Refresh | refresh=true";
    "⚙️ Management Center | href=" +:+ BASE_URL +:+ " size=12" ].

(** The loop of [main] over the records: one fetch for each, by its
    provider, the results appended to the two lists. *)
Fixpoint fetch_quotas (auth_files : list AuthFile)
    (codex_quotas : list CodexQuota) (ag_quotas : list AntigravityQuota)
  : Eff Log (list CodexQuota * list AntigravityQuota) :=
  match auth_files with
  | [] => mret (codex_quotas, ag_quotas)
  | af :: rest =>
      if is_str (af_provider af) "codex" then
        q ← fetch_codex_quota af;
        fetch_quotas rest (codex_quotas ++ [q]) ag_quotas
      else if is_str (af_provider af) "antigravity" then
        q ← fetch_antigravity_quota af;
        fetch_quotas rest codex_quotas (ag_quotas ++ [q])
      else fetch_quotas rest codex_quotas ag_quotas
  end.

(** Running a printing computation next to the request log. *)
Definition on_out {A} (m : Eff Out A) : Eff (Log * Out) A :=
  fun s => let '(r, out') := m (snd s) in (r, (fst s, out')).

(** The rendering, step 3 of [main]. *)
Definition render (codex_quotas : list CodexQuota) (ag_quotas : list AntigravityQuota)
  : Eff Out unit :=
  _ ← print_status_bar codex_quotas ag_quotas;
  _ ← print "---";
  _ ← match codex_quotas with
      | [] => mret tt
      | _ => print_codex_section codex_quotas
      end;
  _ ← match ag_quotas with
      | [] => mret tt
      | _ => print_antigravity_section ag_quotas
      end;
  print_lines footer_lines.

(** The body of the [try] of [main]. The [sys.exit(0)] of the branch
    without accounts raises [SystemExit], which neither handler names: it
    ends the run as the end of the body does. *)
Definition main_try : Eff (Log * Out) unit :=
  auth_files ← on_log get_auth_files;
  match auth_files with
  | [] => on_out (print_lines no_accounts_lines)
  | _ =>
      quotas ← on_log (fetch_quotas auth_files [] []);
      on_out (render (fst quotas) (snd quotas))
  end.

(** [str(exc)] where [main] prints it. *)
Definition exc_text (e : exn) : string :=
  match e with
  | AttributeError | TypeError | ValueError | OverflowError => interpreter_text e
  | _ => exn_str e
  end.

(** The message of the two handlers of [main]: [except RuntimeError] and
    [except Exception]. *)
Definition error_message (e : exn) : string :=
  match e with
  | RuntimeError msg => msg
  | _ => "Unexpected: " +:+ exc_text e
  end.

(** [main()]; every path ends in [sys.exit(0)]. *)
Definition main : Eff (Log * Out) unit :=
  if String.eqb MANAGEMENT_KEY "" then on_out (print_error "CPA_MANAGEMENT_KEY not set")
  else
    try_except main_try (fun _ => true)
               (fun exc => on_out (print_error (error_message exc))).

End Output.

(** ** What the output functions print *)

Section OutputVocabulary.

Context {pf : PyFloat} {host : Host} {clock : PyClock} {rt : PyRuntime}.

(** A computation that returns. *)
Definition returns {A} (o : outcome A) : Prop :=
  match o with
  | Ret _ => True
  | Raise _ => False
  end.

(** A text that starts as an item of a submenu does: with [--]. *)
Definition nested (text : string) : Prop := String.prefix "--" text = true.

(** A printing computation whose calls of [print] each write a text that
    starts with [--]: at most [hi] calls, and at least [lo] when it
    returns. *)
Definition emits {A} (m : Eff Out A) (lo hi : nat) : Prop :=
  forall out, exists texts,
    snd (m out) = out ++ texts /\ Forall nested texts /\
    (length texts <= hi)%nat /\ (returns (fst (m out)) -> (lo <= length texts)%nat).

(** A printing computation that adds lines to the output and, when it
    returns, has the lines [closing] as the last of them. *)
Definition finishes {A} (m : Eff Out A) (closing : list string) : Prop :=
  forall out, exists lines,
    snd (m out) = out ++ lines /\
    (returns (fst (m out)) -> exists pre, lines = pre ++ closing).

(** The heading of a section. *)
Definition codex_heading (quotas : list CodexQuota) : string :=
  "🤖 Codex (" +:+ len_str quotas +:+ " accounts) | size=14 color=#ffffff".

Definition antigravity_heading (quotas : list AntigravityQuota) : string :=
  "🌀 Antigravity (" +:+ len_str quotas +:+ " accounts) | size=14 color=#ffffff".

(** The records of one provider. *)
Definition of_provider (provider : string) (af : AuthFile) : Prop :=
  af_provider af = VStr provider.

#[global] Instance of_provider_dec provider af : Decision (of_provider provider af).
Proof.
  unfold of_provider. destruct (af_provider af) as [| | | |s| |]; try (right; discriminate).
  destruct (decide (s = provider)) as [->|Hne]; [by left|right; congruence].
Defined.

End OutputVocabulary.

(** ** A concrete runtime, for the examples *)

(** [s.upper()] on a text of ASCII letters. *)
Definition ascii_upper (a : ascii) : ascii :=
  let n := nat_of_ascii a in
  if ((97 <=? n) && (n <=? 122))%nat then ascii_of_nat (n - 32) else a.

Definition example_upper (s : string) : string :=
  string_of_list_ascii (ascii_upper <$> list_ascii_of_string s).

(** [round(x)] on a rational: to the nearest integer, a tie to the even
    one. *)
Definition round_half_even (x : Q) : Z :=
  let n := Qnum x in
  let d := Z.pos (Qden x) in
  let f := n / d in
  let r := 2 * (n mod d) in
  if r <? d then f
  else if d <? r then f + 1
  else if Z.even f then f else f + 1.

(** [dt + timedelta(seconds=x)] on the clock of the examples: the delay
    is rounded to the microsecond, as [timedelta] does. *)
Definition example_add_seconds (dt : example_datetime) (x : Q) : outcome example_datetime :=
  let wall := ex_wall dt + round_half_even (x * 1000000)%Q / 1000000 in
  let year := (civil_from_days (wall / 86400)).1.1 in
  if (1 <=? year) && (year <=? 9999)
  then Ret {| ex_wall := wall; ex_offset := ex_offset dt |}
  else Raise OverflowError.

Definition example_rsub (n : Z) (x : Q) : Q := inject_Z n - x.
Definition example_mul_int (x : Q) (n : Z) : Q := x * inject_Z n.
Definition example_round (x : Q) : outcome Z := Ret (round_half_even x).
Definition example_le_int (x : Q) (n : Z) : bool := Qle_bool x (inject_Z n).

(** The runtime of the examples: rationals for floats, the clock
    [example_clock]. No example prints a list or a dict, and the text of
    an exception of the interpreter is shown as the name of its class. *)
Definition example_runtime : @PyRuntime QFloat example_clock :=
  @Build_PyRuntime QFloat example_clock
    example_upper (fun _ => "...") example_rsub example_mul_int example_round
    example_le_int example_add_seconds (fun dt => ex_wall dt mod 60) exn_str.

(** ** More example data *)

Section MoreExampleData.

#[local] Existing Instance QFloat.

(** Six entries: two members of "Gemini 3 Pro", one of "Claude/GPT", one
    of "Gemini 3 Flash" that shows a reset time and no fraction, a model
    the configuration does not know, and an entry that is not a record. *)
Definition mixed_models : list (string * value) :=
  [ ("gemini-3-pro-high",
     example_model_entry [("remainingFraction", VFloat (1#2)); ("resetTime", VStr "T1")]);
    ("mystery-model", example_model_entry [("remainingFraction", VFloat (1#10))]);
    ("claude-sonnet-4-5",
     example_model_entry [("remainingFraction", VFloat (3#4)); ("resetTime", VStr "T2")]);
    ("gemini-3-pro-low", example_model_entry [("remainingFraction", VFloat (1#4))]);
    ("gemini-2.5-pro", VStr "n/a");
    ("gemini-3-flash", example_model_entry [("resetTime", VStr "T3")]) ].

Definition flash_group : AntigravityModelQuota :=
  {| group_label := "Gemini 3 Flash"; remaining_fraction := None;
     reset_time := VStr ""; models := ["gemini-3-flash"] |}.

(** What the aggregator returns for [mixed_models]. *)
Definition mixed_groups : list AntigravityModelQuota :=
  [ {| group_label := "Claude/GPT"; remaining_fraction := Some (3#4)%Q;
       reset_time := VStr "T2"; models := ["claude-sonnet-4-5"] |};
    flash_group;
    {| group_label := "Gemini 3 Pro"; remaining_fraction := Some (1#4)%Q;
       reset_time := VStr "T1"; models := ["gemini-3-pro-high"; "gemini-3-pro-low"] |} ].

(** The entries of [mixed_models] the loop acts on. *)
Definition mixed_models_configured : list (string * value) :=
  [ ("gemini-3-pro-high",
     example_model_entry [("remainingFraction", VFloat (1#2)); ("resetTime", VStr "T1")]);
    ("claude-sonnet-4-5",
     example_model_entry [("remainingFraction", VFloat (3#4)); ("resetTime", VStr "T2")]);
    ("gemini-3-pro-low", example_model_entry [("remainingFraction", VFloat (1#4))]);
    ("gemini-3-flash", example_model_entry [("resetTime", VStr "T3")]) ].

(** The result of the Antigravity fetch on [host_third_endpoint]. *)
Definition third_endpoint_quota : AntigravityQuota :=
  {| aq_email := VStr "v@y.com";
     aq_groups := [ {| group_label := "Gemini 2.5 Pro";
                       remaining_fraction := Some (2#5)%Q;
                       reset_time := VStr "2099-01-01T00:00:00Z";
                       models := ["gemini-2.5-pro"] |} ];
     aq_error := "" |}.

(** The directory answers 401. *)
Definition host_directory_401 : Host :=
  example_host
    [ ("http://127.0.0.1:8317/v0/management/auth-files",
       Fails (HTTPError 401 "unauthorized")) ]
    [].

(** The directory lists a codex account and an antigravity account; the
    Codex backend answers 200 with the JSON list [[1]] as body. *)
Definition host_menu_codex_list : Host :=
  example_host
    [ ("http://127.0.0.1:8317/v0/management/auth-files",
       Answers (VDict [("files", VList (VDict <$> directory_items))]));
      ("https://chatgpt.com/backend-api/wham/usage",
       Answers (VDict [("status_code", VInt 200); ("body", VStr "[1]")])) ]
    [ VList [VInt 1] ].

(** The records [get_auth_files] builds from [directory_items]. *)
Definition listed_codex_account : AuthFile := {|
  af_name := VStr "codex-1.json"; af_provider := VStr "codex";
  af_auth_index := VStr "a1"; af_email := VStr "u@x.com";
  af_status := VStr "unknown"; af_status_message := VStr "";
  af_disabled := VBool false; af_unavailable := VBool false;
  af_label := VStr ""; af_account_type := VStr "";
  af_chatgpt_account_id := VStr "acct1"; af_plan_type := VStr "plus";
  af_project_id := VStr "" |}.

Definition listed_antigravity_account : AuthFile := {|
  af_name := VStr "ag-1.json"; af_provider := VStr "antigravity";
  af_auth_index := VStr "a2"; af_email := VStr "v@y.com";
  af_status := VStr "unknown"; af_status_message := VStr "";
  af_disabled := VBool false; af_unavailable := VBool false;
  af_label := VStr ""; af_account_type := VStr "";
  af_chatgpt_account_id := VStr ""; af_plan_type := VStr "";
  af_project_id := VStr "" |}.

Definition directory_accounts : list AuthFile :=
  [listed_codex_account; listed_antigravity_account].

End MoreExampleData.

(** A [.env] file and an environment of the process. *)
Definition env_file_lines : list string :=
  [ "# local settings";
    "CPA_BASE_URL = 'http://127.0.0.1:8317/'";
    "";
    "CPA_MANAGEMENT_KEY=from-file";
    "CPA_BASE_URL=http://other" ].

Definition process_environ : environ := {[ "CPA_MANAGEMENT_KEY" := "from-env" ]}.

Definition full_environ : environ :=
  {[ "CPA_BASE_URL" := "http://h:1//"; "CPA_MANAGEMENT_KEY" := "k" ]}.

(** * The aggregator *)

Section Aggregator.

Context {pf : PyFloat}.

Local Arguments py_float : simpl never.
Local Arguments extract_quota_fields : simpl never.

(** The lookup table is a closed term; the proofs never look inside it,
    apart from [model_to_group_lookup]. *)
Lemma model_to_group_unfold : model_to_group = build_model_to_group ANTIGRAVITY_GROUPS.
Proof. reflexivity. Qed.

Opaque model_to_group.

Lemma assoc_alter_compose {A} (f g : A -> A) k (d : list (string * A)) :
  assoc_alter f k (assoc_alter g k d) = assoc_alter (fun x => f (g x)) k d.
Proof.
  induction d as [|[k' v] d IH]; simpl; [done|].
  destruct (String.eqb k' k) eqn:E; simpl; rewrite E; [done|]. by rewrite IH.
Qed.

Lemma aggregate_entry_contrib gd e :
  aggregate_entry gd e =
  c ← entry_contrib e; mret (match c with Some c => apply_contrib gd c | None => gd end).
Proof.
  destruct e as [mid info]. unfold aggregate_entry, entry_contrib. simpl.
  destruct info; try reflexivity.
  destruct (extract_quota_fields d) as [[remaining reset]|ex]; simpl; [|done].
  destruct (model_to_group !! mid) as [gdef|]; [|done].
  destruct remaining; simpl; try reflexivity;
    unfold apply_contrib, update_group; simpl.
  all: try reflexivity.
  all: try (destruct (py_float _); simpl; [|done]); rewrite assoc_alter_compose; reflexivity.
Qed.

Lemma aggregate_loop_contributions es : forall gd,
  aggregate_loop gd es = cs ← contributions es; mret (foldl apply_contrib gd cs).
Proof.
  induction es as [|e es IH]; intros gd; simpl; [done|].
  rewrite aggregate_entry_contrib.
  destruct (entry_contrib e) as [[c|]|ex]; simpl; [| |done]; rewrite IH;
    destruct (contributions es); done.
Qed.

(** *** Reading one entry *)

(** C4. The fraction and the reset time of an entry are read from one
    mapping only: from [quotaInfo] when the entry holds a [quotaInfo]
    that is a mapping with an entry, from the top level of the entry when
    [quotaInfo] is absent or falsy, the camelCase key before the
    snake_case one with the first key present winning; a truthy
    [quotaInfo] that is not a mapping is an [AttributeError]. *)
Theorem extract_quota_fields_source info :
  extract_quota_fields info =
  match dict_get info "quotaInfo" (VDict []) with
  | VDict (entry :: entries) =>
      Ret (first_present (entry :: entries) ["remainingFraction"; "remaining_fraction"] VNone,
           first_present (entry :: entries) ["resetTime"; "reset_time"] (VStr ""))
  | quota_info =>
      if truthy quota_info then Raise AttributeError
      else
        Ret (first_present info ["remainingFraction"; "remaining_fraction"] VNone,
             first_present info ["resetTime"; "reset_time"] (VStr ""))
  end.
Proof.
  assert (forall d k1 k2 dflt,
            dict_get d k1 (dict_get d k2 dflt) = first_present d [k1; k2] dflt) as Hget.
  { intros d k1 k2 dflt. unfold dict_get. simpl.
    destruct (assoc k1 d); [done|]. by destruct (assoc k2 d). }
  unfold extract_quota_fields.
  destruct (dict_get info "quotaInfo" (VDict [])) as [|b|z|x|s|l|[|entry entries]];
    simpl; rewrite ?Hget; try done.
  all: repeat match goal with
       | |- context [if ?c then _ else _] => destruct c
       | |- context [match ?l with [] => _ | _ => _ end] => destruct l
       end; done.
Qed.

(** *** Association lists *)

Lemma assoc_app {A} k (d1 d2 : list (string * A)) :
  assoc k (d1 ++ d2) = match assoc k d1 with Some v => Some v | None => assoc k d2 end.
Proof.
  induction d1 as [|[k' v] d1 IH]; simpl; [done|].
  destruct (String.eqb k' k); done.
Qed.

Lemma assoc_alter_lookup {A} (f : A -> A) k k' (d : list (string * A)) :
  assoc k (assoc_alter f k' d) = if decide (k' = k) then f <$> assoc k d else assoc k d.
Proof.
  induction d as [|[k0 v] d IH]; simpl; [by case_decide|].
  destruct (String.eqb_spec k0 k') as [->|Hne]; simpl.
  - destruct (String.eqb_spec k' k) as [->|Hne']; case_decide; done.
  - rewrite IH. destruct (String.eqb_spec k0 k) as [->|Hne']; case_decide; congruence.
Qed.

Lemma assoc_alter_keys {A} (f : A -> A) k (d : list (string * A)) :
  fmap fst (assoc_alter f k d) = fmap fst d.
Proof.
  induction d as [|[k0 v] d IH]; csimpl; [done|].
  destruct (String.eqb k0 k); csimpl; [done|]. by rewrite IH.
Qed.

Lemma assoc_None_keys {A} k (d : list (string * A)) :
  assoc k d = None -> k ∉ fmap fst d.
Proof.
  induction d as [|[k0 v] d IH]; csimpl; [intros _; apply not_elem_of_nil|].
  destruct (String.eqb_spec k0 k) as [->|Hne]; [done|].
  intros H. apply not_elem_of_cons. split; [congruence|auto].
Qed.

Lemma assoc_Some_elem {A} k v (d : list (string * A)) :
  assoc k d = Some v -> (k, v) ∈ d.
Proof.
  induction d as [|[k0 v0] d IH]; simpl; [done|].
  destruct (String.eqb_spec k0 k) as [->|Hne].
  - intros [= ->]. left.
  - intros H. right. auto.
Qed.

Lemma elem_assoc_NoDup {A} k v (d : list (string * A)) :
  NoDup (fmap fst d) -> (k, v) ∈ d -> assoc k d = Some v.
Proof.
  induction d as [|[k0 v0] d IH]; csimpl; intros Hnd Hin.
  - by apply elem_of_nil in Hin.
  - apply NoDup_cons in Hnd as [Hk0 Hnd].
    apply elem_of_cons in Hin as [[= <- <-]|Hin].
    + by rewrite String.eqb_refl.
    + destruct (String.eqb_spec k0 k) as [->|Hne]; [|auto].
      exfalso. apply Hk0. apply list_elem_of_fmap. by exists (k, v).
Qed.

(** *** One group seen through the loop *)

Lemma assoc_apply_contrib gd c gid :
  assoc gid (apply_contrib gd c) =
  if decide (in_gid gid c)
  then Some (update_group c (default (fresh_group (c_gdef c)) (assoc gid gd)))
  else assoc gid gd.
Proof.
  unfold apply_contrib. rewrite assoc_alter_lookup.
  destruct (decide (in_gid gid c)) as [Hg|Hg]; unfold in_gid in Hg.
  - rewrite decide_True by done. subst gid.
    destruct (assoc (gd_id (c_gdef c)) gd) as [g|] eqn:E; simpl.
    + by rewrite E.
    + rewrite assoc_app, E. simpl. by rewrite String.eqb_refl.
  - rewrite decide_False by done.
    destruct (assoc (gd_id (c_gdef c)) gd) as [g|] eqn:E; [done|].
    rewrite assoc_app. destruct (assoc gid gd); [done|]. simpl.
    by destruct (String.eqb_spec (gd_id (c_gdef c)) gid).
Qed.

Lemma apply_contrib_keys_NoDup gd c :
  NoDup (fmap fst gd) -> NoDup (fmap fst (apply_contrib gd c)).
Proof.
  intros Hnd. unfold apply_contrib. rewrite assoc_alter_keys.
  destruct (assoc (gd_id (c_gdef c)) gd) eqn:E; [done|].
  rewrite fmap_app. simpl. apply NoDup_app. split; [done|]. split.
  - intros x Hx Hx'. apply list_elem_of_singleton in Hx'. subst x.
    by apply assoc_None_keys in E.
  - apply NoDup_singleton.
Qed.

Lemma foldl_apply_keys_NoDup cs : forall gd,
  NoDup (fmap fst gd) -> NoDup (fmap fst (foldl apply_contrib gd cs)).
Proof.
  induction cs as [|c cs IH]; intros gd Hnd; simpl; [done|].
  apply IH. by apply apply_contrib_keys_NoDup.
Qed.

Lemma assoc_foldl_apply gid cs :
  assoc gid (foldl apply_contrib [] cs) = group_of gid cs.
Proof.
  induction cs as [|c cs IH] using rev_ind; [done|].
  rewrite foldl_app. simpl. rewrite assoc_apply_contrib, IH.
  unfold group_of. rewrite filter_app.
  case_decide as Hc.
  - rewrite (filter_cons_True _ _ _ Hc), filter_nil.
    destruct (filter (in_gid gid) cs) as [|c0 l]; simpl; [done|].
    unfold run_group. by rewrite foldl_app.
  - rewrite (filter_cons_False _ _ _ Hc), filter_nil, app_nil_r. done.
Qed.

Lemma run_group_snoc g cs c :
  run_group g (cs ++ [c]) = update_group c (run_group g cs).
Proof. unfold run_group. by rewrite foldl_app. Qed.

Lemma update_group_label c g : group_label (update_group c g) = group_label g.
Proof.
  unfold update_group, lower_opt, lower_fraction.
  destruct (c_frac c); [|done]. simpl.
  destruct (remaining_fraction g); [destruct (flt _ _)|]; done.
Qed.

Lemma update_group_models c g : models (update_group c g) = models g ++ [c_mid c].
Proof.
  unfold update_group, lower_opt, lower_fraction.
  destruct (c_frac c); [|done]. simpl.
  destruct (remaining_fraction g); [destruct (flt _ _)|]; done.
Qed.

Lemma run_group_label cs : forall g, group_label (run_group g cs) = group_label g.
Proof.
  induction cs as [|c cs IH] using rev_ind; intros g; [done|].
  by rewrite run_group_snoc, update_group_label.
Qed.

Lemma run_group_models cs : forall g, models (run_group g cs) = models g ++ (c_mid <$> cs).
Proof.
  induction cs as [|c cs IH] using rev_ind; intros g.
  - simpl. by rewrite app_nil_r.
  - rewrite run_group_snoc, update_group_models, IH, fmap_app, <-app_assoc. done.
Qed.

(** The three ways one contribution acts on the fraction of its group. *)
Lemma update_group_cases c g :
  (c_frac c = None /\ remaining_fraction (update_group c g) = remaining_fraction g
     /\ reset_time (update_group c g) = reset_time g)
  \/ (exists f, c_frac c = Some f /\
        match remaining_fraction g with None => True | Some r => flt f r = true end /\
        remaining_fraction (update_group c g) = Some f /\
        reset_time (update_group c g) = py_or (c_reset c) (reset_time g))
  \/ (exists f r, c_frac c = Some f /\ remaining_fraction g = Some r /\ flt f r = false /\
        remaining_fraction (update_group c g) = Some r /\
        reset_time (update_group c g) = reset_time g).
Proof.
  unfold update_group, lower_opt, lower_fraction.
  destruct (c_frac c) as [f|]; simpl; [|by left].
  destruct (remaining_fraction g) as [r|] eqn:Hr; simpl.
  - destruct (flt f r) eqn:Hlt; simpl.
    + right; left. exists f. repeat split; auto.
    + right; right. exists f, r. repeat split; auto.
  - right; left. exists f. repeat split; auto.
Qed.

(** A group that holds no fraction has met none. *)
Lemma run_group_None cs : forall g,
  remaining_fraction (run_group g cs) = None ->
  remaining_fraction g = None /\ reset_time (run_group g cs) = reset_time g /\
  forall c, c ∈ cs -> c_frac c = None.
Proof.
  induction cs as [|c cs IH] using rev_ind; intros g Hn.
  - repeat split; [done|]. intros c Hc. by apply elem_of_nil in Hc.
  - rewrite run_group_snoc in Hn |- *.
    destruct (update_group_cases c (run_group g cs))
      as [(Hc & Hf & Hr)|[(f & _ & _ & Hf & _)|(f & r & _ & _ & _ & Hf & _)]];
      [|congruence..].
    rewrite Hf in Hn. destruct (IH g Hn) as (Hg & Hrs & Hall).
    repeat split; [done|congruence|].
    intros c' Hc'. apply elem_of_app in Hc' as [Hc'|Hc'%list_elem_of_singleton]; [auto|by subst].
Qed.

(** The contribution that stored the fraction the group ends with. *)
Lemma run_group_setter cs : forall g m,
  remaining_fraction g = None ->
  remaining_fraction (run_group g cs) = Some m ->
  exists pre c post,
    cs = pre ++ c :: post /\ c_frac c = Some m /\
    match remaining_fraction (run_group g pre) with
    | None => True
    | Some r => flt m r = true
    end /\
    (forall c' f, c' ∈ post -> c_frac c' = Some f -> flt f m = false) /\
    reset_time (run_group g cs) = py_or (c_reset c) (reset_time (run_group g pre)).
Proof.
  induction cs as [|c cs IH] using rev_ind; intros g m Hg Hm.
  - simpl in Hm. congruence.
  - rewrite run_group_snoc in Hm |- *.
    destruct (update_group_cases c (run_group g cs))
      as [(Hc & Hf & Hr)|[(f & Hc & Hlow & Hf & Hr)|(f & r & Hc & Hcur & Hlt & Hf & Hr)]].
    + rewrite Hf in Hm. destruct (IH g m Hg Hm) as (pre & c0 & post & -> & Hc0 & Hlow & Hpost & Hrs).
      exists pre, c0, (post ++ [c]). rewrite <-app_assoc. simpl.
      repeat split; [done|done| |congruence].
      intros c' f' [Hin|Hin%list_elem_of_singleton]%elem_of_app Hf'; [eauto|].
      subst c'. congruence.
    + exists cs, c, []. rewrite Hf in Hm. injection Hm as <-.
      repeat split; [done|done| |done].
      intros c' f' Hin. by apply elem_of_nil in Hin.
    + rewrite Hf in Hm. injection Hm as <-.
      destruct (IH g r Hg Hcur) as (pre & c0 & post & -> & Hc0 & Hlow & Hpost & Hrs).
      exists pre, c0, (post ++ [c]). rewrite <-app_assoc. simpl.
      repeat split; [done|done| |congruence].
      intros c' f' [Hin|Hin%list_elem_of_singleton]%elem_of_app Hf'; [eauto|].
      subst c'. congruence.
Qed.

Section Order.

(** The two properties of [<] on floats that make "lowest" meaningful;
    IEEE comparison has both (a NaN is below nothing and nothing is below
    it). *)
Hypothesis flt_irrefl : forall a, flt a a = false.
Hypothesis flt_trans : forall a b c, flt a b = true -> flt b c = true -> flt a c = true.

(** No contribution lies below the fraction the group ends with. *)
Lemma run_group_lower_bound cs : forall g m,
  remaining_fraction g = None ->
  remaining_fraction (run_group g cs) = Some m ->
  forall c f, c ∈ cs -> c_frac c = Some f -> flt f m = false.
Proof.
  induction cs as [|c cs IH] using rev_ind; intros g m Hg Hm c' f' Hin Hf'.
  - by apply elem_of_nil in Hin.
  - rewrite run_group_snoc in Hm.
    destruct (update_group_cases c (run_group g cs))
      as [(Hc & Hf & Hr)|[(f & Hc & Hlow & Hf & Hr)|(f & r & Hc & Hcur & Hlt & Hf & Hr)]].
    + rewrite Hf in Hm.
      apply elem_of_app in Hin as [Hin|Hin%list_elem_of_singleton]; [eauto|].
      subst c'. congruence.
    + rewrite Hf in Hm. injection Hm as <-.
      apply elem_of_app in Hin as [Hin|Hin%list_elem_of_singleton].
      * destruct (remaining_fraction (run_group g cs)) as [r|] eqn:Hcur.
        -- destruct (flt f' f) eqn:Hlt; [|done].
           pose proof (IH g r Hg Hcur c' f' Hin Hf') as Hle.
           pose proof (flt_trans _ _ _ Hlt Hlow) as Hbad. congruence.
        -- apply run_group_None in Hcur as (_ & _ & Hall).
           rewrite (Hall c' Hin) in Hf'. done.
      * subst c'. assert (f' = f) as -> by congruence. apply flt_irrefl.
    + rewrite Hf in Hm. injection Hm as <-.
      apply elem_of_app in Hin as [Hin|Hin%list_elem_of_singleton]; [eauto|].
      subst c'. congruence.
Qed.

End Order.

(** *** From the input to the contributions and back *)

Lemma filter_split {A} (P : A -> Prop) `{forall x, Decision (P x)} (l : list A) :
  forall l1 x l2, filter P l = l1 ++ x :: l2 ->
  exists k1 k2, l = k1 ++ x :: k2 /\ filter P k1 = l1 /\ filter P k2 = l2.
Proof.
  induction l as [|y l IH]; intros l1 x l2 Hf.
  - rewrite filter_nil in Hf. by destruct l1.
  - destruct (decide (P y)) as [Hy|Hy].
    + rewrite filter_cons_True in Hf by done.
      destruct l1 as [|z l1]; simpl in Hf; injection Hf as -> Hf.
      * exists [], l. by rewrite filter_nil.
      * destruct (IH _ _ _ Hf) as (k1 & k2 & -> & <- & <-).
        exists (z :: k1), k2. by rewrite filter_cons_True.
    + rewrite filter_cons_False in Hf by done.
      destruct (IH _ _ _ Hf) as (k1 & k2 & -> & <- & <-).
      exists (y :: k1), k2. by rewrite filter_cons_False.
Qed.

Lemma contributions_cons_inv e raw cs :
  contributions (e :: raw) = Ret cs ->
  exists c cs', entry_contrib e = Ret c /\ contributions raw = Ret cs' /\
    cs = match c with Some c => c :: cs' | None => cs' end.
Proof.
  simpl. destruct (entry_contrib e) as [c|]; simpl; [|done].
  destruct (contributions raw) as [cs'|]; simpl; [|done].
  intros [= <-]. by exists c, cs'.
Qed.

Lemma contributions_split raw : forall cpre c cpost,
  contributions raw = Ret (cpre ++ c :: cpost) ->
  exists pre e post, raw = pre ++ e :: post /\ contributions pre = Ret cpre /\
    entry_contrib e = Ret (Some c) /\ contributions post = Ret cpost.
Proof.
  induction raw as [|e raw IH]; intros cpre c cpost Hc.
  - simpl in Hc. injection Hc as Hc. by destruct cpre.
  - apply contributions_cons_inv in Hc as (c0 & cs' & He & Hraw & Hcs).
    destruct c0 as [c0|].
    + destruct cpre as [|c1 cpre]; simpl in Hcs; injection Hcs as -> <-.
      * by exists [], e, raw.
      * destruct (IH _ _ _ Hraw) as (pre & e' & post & -> & Hpre & He' & Hpost).
        exists (e :: pre), e', post. simpl. rewrite He, Hpre. done.
    + subst cs'. destruct (IH _ _ _ Hraw) as (pre & e' & post & -> & Hpre & He' & Hpost).
      exists (e :: pre), e', post. simpl. rewrite He, Hpre. done.
Qed.

Lemma contributions_elem raw : forall cs e c,
  contributions raw = Ret cs -> e ∈ raw -> entry_contrib e = Ret (Some c) -> c ∈ cs.
Proof.
  induction raw as [|e0 raw IH]; intros cs e c Hc Hin He.
  - by apply elem_of_nil in Hin.
  - apply contributions_cons_inv in Hc as (c0 & cs' & He0 & Hraw & ->).
    apply elem_of_cons in Hin as [->|Hin].
    + rewrite He in He0. injection He0 as <-. left.
    + specialize (IH _ _ _ Hraw Hin He). destruct c0; [by right|done].
Qed.

Lemma contributions_elem_inv raw : forall cs c,
  contributions raw = Ret cs -> c ∈ cs ->
  exists e, e ∈ raw /\ entry_contrib e = Ret (Some c).
Proof.
  induction raw as [|e0 raw IH]; intros cs c Hc Hin.
  - simpl in Hc. injection Hc as <-. by apply elem_of_nil in Hin.
  - apply contributions_cons_inv in Hc as (c0 & cs' & He0 & Hraw & ->).
    destruct c0 as [c0|].
    + apply elem_of_cons in Hin as [->|Hin].
      * exists e0. split; [left|done].
      * destruct (IH _ _ Hraw Hin) as (e & He & Hec). exists e. split; [by right|done].
    + destruct (IH _ _ Hraw Hin) as (e & He & Hec). exists e. split; [by right|done].
Qed.

Lemma entry_contrib_Some e c :
  entry_contrib e = Ret (Some c) ->
  exists info, e = (c_mid c, VDict info) /\
    model_to_group !! c_mid c = Some (c_gdef c) /\
    observed_quota info = Ret (c_frac c, c_reset c).
Proof.
  destruct e as [mid info]. unfold entry_contrib, observed_quota. simpl.
  destruct info as [| | | | | |d]; try done.
  destruct (extract_quota_fields d) as [[remaining reset]|] eqn:Hx; simpl; [|done].
  destruct (model_to_group !! mid) as [gdef|] eqn:Hg; [|done].
  destruct remaining; simpl; try (destruct (py_float _) eqn:Hp; simpl; [|done]);
    intros [= <-]; simpl; exists d; rewrite Hx; simpl; rewrite ?Hp;
    (split; [reflexivity|split; [assumption|reflexivity]]).
Qed.

Lemma entry_contrib_observed mid info gdef fo r :
  model_to_group !! mid = Some gdef ->
  observed_quota info = Ret (fo, r) ->
  entry_contrib (mid, VDict info) =
    Ret (Some {| c_gdef := gdef; c_mid := mid; c_frac := fo; c_reset := r |}).
Proof.
  unfold entry_contrib, observed_quota. simpl. intros ->.
  destruct (extract_quota_fields info) as [[remaining reset]|]; simpl; [|done].
  destruct remaining; simpl; try (destruct (py_float _); simpl; [|done]);
    by intros [= <- <-].
Qed.

(** *** The final sort *)

Lemma insert_by_label_perm g l : insert_by_label g l ≡ₚ g :: l.
Proof.
  induction l as [|h t IH]; simpl; [done|].
  destruct (String.leb _ _); [done|]. rewrite IH. apply perm_swap.
Qed.

Lemma sorted_by_label_perm l : sorted_by_label l ≡ₚ l.
Proof.
  induction l as [|g l IH]; simpl; [done|].
  by rewrite insert_by_label_perm, IH.
Qed.

Lemma build_groups_inv raw gs :
  _build_antigravity_groups raw = Ret gs ->
  exists cs, contributions raw = Ret cs /\
    aggregate_loop [] raw = Ret (foldl apply_contrib [] cs) /\
    gs = sorted_by_label (snd <$> foldl apply_contrib [] cs).
Proof.
  unfold _build_antigravity_groups. rewrite aggregate_loop_contributions.
  destruct (contributions raw) as [cs|]; simpl; [|done].
  intros [= <-]. by exists cs.
Qed.

(** A returned group is the fold of the contributions of one group id. *)
Lemma build_groups_elem raw gs g :
  _build_antigravity_groups raw = Ret gs -> g ∈ gs ->
  exists cs c0 l,
    contributions raw = Ret cs /\
    filter (in_gid (gd_id (c_gdef c0))) cs = c0 :: l /\
    g = run_group (fresh_group (c_gdef c0)) (c0 :: l).
Proof.
  intros (cs & Hcs & _ & ->)%build_groups_inv Hg.
  rewrite sorted_by_label_perm in Hg.
  apply list_elem_of_fmap in Hg as ([gid g'] & -> & Hin). simpl.
  apply elem_assoc_NoDup in Hin; [|apply foldl_apply_keys_NoDup, NoDup_nil_2].
  rewrite assoc_foldl_apply in Hin. unfold group_of in Hin.
  destruct (filter (in_gid gid) cs) as [|c0 l] eqn:Hf; [done|].
  injection Hin as <-. exists cs, c0, l.
  assert (in_gid gid c0) as <-.
  { assert (c0 ∈ filter (in_gid gid) cs) as Hc0 by (rewrite Hf; left).
    by apply list_elem_of_filter in Hc0 as [? _]. }
  done.
Qed.

(** *** The static configuration *)

Lemma build_model_to_group_lookup groups mid g :
  build_model_to_group groups !! mid = Some g -> g ∈ groups /\ mid ∈ gd_ids g.
Proof.
  unfold build_model_to_group.
  assert (forall (gs : list GroupDef) (m : gmap string GroupDef),
    (forall g, m !! mid = Some g -> g ∈ groups /\ mid ∈ gd_ids g) ->
    (forall g, g ∈ gs -> g ∈ groups) ->
    forall g,
      foldl (fun m group => foldl (fun m mid => <[mid := group]> m) m (gd_ids group)) m gs
        !! mid = Some g ->
      g ∈ groups /\ mid ∈ gd_ids g) as Hgen.
  { induction gs as [|g0 gs IH]; intros m Hm Hsub g'; simpl; [by auto|].
    apply IH; [|intros; apply Hsub; by right].
    assert (g0 ∈ groups) as Hg0 by (apply Hsub; left).
    assert (forall (ids pre : list string) (m' : gmap string GroupDef),
      gd_ids g0 = pre ++ ids ->
      (forall g, m' !! mid = Some g -> g ∈ groups /\ mid ∈ gd_ids g) ->
      forall g, foldl (fun m mid => <[mid := g0]> m) m' ids !! mid = Some g ->
      g ∈ groups /\ mid ∈ gd_ids g) as Hin.
    { induction ids as [|i ids IHi]; intros pre m' Hids Hm' g1; simpl; [by auto|].
      apply (IHi (pre ++ [i])); [by rewrite <-app_assoc|].
      intros g2. rewrite lookup_insert. case_decide as Hi; [|by auto].
      intros [= <-]. split; [done|]. rewrite Hids. subst i.
      apply elem_of_app. right. left. }
    by apply (Hin (gd_ids g0) []). }
  apply Hgen; [|done]. intros g'. by rewrite lookup_empty.
Qed.

Lemma NoDup_fmap_eq {A B} (f : A -> B) (l : list A) x y :
  NoDup (f <$> l) -> x ∈ l -> y ∈ l -> f x = f y -> x = y.
Proof.
  induction l as [|z l IH]; csimpl; intros Hnd Hx Hy Hf.
  - by apply elem_of_nil in Hx.
  - apply NoDup_cons in Hnd as [Hz Hnd].
    apply elem_of_cons in Hx as [->|Hx]; apply elem_of_cons in Hy as [->|Hy]; [done| | |by auto].
    + exfalso. apply Hz. rewrite Hf. by apply list_elem_of_fmap_2.
    + exfalso. apply Hz. rewrite <-Hf. by apply list_elem_of_fmap_2.
Qed.

Lemma ANTIGRAVITY_GROUPS_ids : NoDup (gd_id <$> ANTIGRAVITY_GROUPS).
Proof. apply (bool_decide_unpack _). vm_compute. exact I. Qed.

Lemma ANTIGRAVITY_GROUPS_labels : NoDup (gd_label <$> ANTIGRAVITY_GROUPS).
Proof. apply (bool_decide_unpack _). vm_compute. exact I. Qed.

Lemma model_to_group_lookup mid g :
  model_to_group !! mid = Some g -> g ∈ ANTIGRAVITY_GROUPS /\ mid ∈ gd_ids g.
Proof. rewrite model_to_group_unfold. apply build_model_to_group_lookup. Qed.

(** Two contributions to one group id name the same configured group. *)
Lemma contrib_same_group raw cs c c' :
  contributions raw = Ret cs -> c ∈ cs -> c' ∈ cs ->
  gd_id (c_gdef c) = gd_id (c_gdef c') -> c_gdef c = c_gdef c'.
Proof.
  intros Hcs Hc Hc' Hid.
  destruct (contributions_elem_inv _ _ _ Hcs Hc) as (e & _ & (i & _ & Hg & _)%entry_contrib_Some).
  destruct (contributions_elem_inv _ _ _ Hcs Hc') as (e' & _ & (i' & _ & Hg' & _)%entry_contrib_Some).
  apply model_to_group_lookup in Hg as [Hg _]. apply model_to_group_lookup in Hg' as [Hg' _].
  by apply (NoDup_fmap_eq gd_id ANTIGRAVITY_GROUPS); [apply ANTIGRAVITY_GROUPS_ids|..].
Qed.

(** C10. Every group the aggregator returns has a member; its label is the
    label of a group of [ANTIGRAVITY_GROUPS]; and each member is a model
    id of that configured group and a key of the input whose value is a
    record. *)
Theorem groups_nonempty_and_configured raw gs g :
  _build_antigravity_groups raw = Ret gs -> g ∈ gs ->
  models g <> [] /\
  exists gdef, gdef ∈ ANTIGRAVITY_GROUPS /\ group_label g = gd_label gdef /\
    forall mid, mid ∈ models g ->
      mid ∈ gd_ids gdef /\ exists info, (mid, VDict info) ∈ raw.
Proof.
  intros Hb Hg. destruct (build_groups_elem _ _ _ Hb Hg) as (cs & c0 & l & Hcs & Hf & ->).
  rewrite run_group_models, run_group_label. simpl. split; [done|].
  assert (forall c, c ∈ c0 :: l -> c ∈ cs /\ gd_id (c_gdef c) = gd_id (c_gdef c0)) as Hmem.
  { intros c Hc. rewrite <-Hf in Hc. by apply list_elem_of_filter in Hc as [? ?]. }
  assert (c0 ∈ cs) as Hc0 by (apply Hmem; left).
  exists (c_gdef c0). split; [|split; [done|]].
  - destruct (contributions_elem_inv _ _ _ Hcs Hc0) as (e & _ & (i & _ & Hm & _)%entry_contrib_Some).
    by apply model_to_group_lookup in Hm as [? _].
  - intros mid Hmid. change (mid ∈ c_mid <$> c0 :: l) in Hmid.
    apply list_elem_of_fmap in Hmid as (c & -> & Hc).
    destruct (Hmem c Hc) as [Hccs Hid].
    rewrite <-(contrib_same_group _ _ _ _ Hcs Hccs Hc0 Hid).
    destruct (contributions_elem_inv _ _ _ Hcs Hccs) as (e & He & (i & -> & Hm & _)%entry_contrib_Some).
    split; [by apply model_to_group_lookup in Hm as [_ ?]|by exists i].
Qed.

Section Minimum.

Hypothesis flt_irrefl : forall a, flt a a = false.
Hypothesis flt_trans : forall a b c, flt a b = true -> flt b c = true -> flt a c = true.
Hypothesis flt_between : forall a b c,
  flt a b = true -> is_number c -> flt a c = true \/ flt c b = true.

(** A number that is not below the fraction a group ends with is strictly
    above every fraction the group had met when that fraction was
    stored. *)
Lemma run_group_setter_first pre g m r c f :
  remaining_fraction g = None ->
  remaining_fraction (run_group g pre) = Some r -> flt m r = true ->
  c ∈ pre -> c_frac c = Some f -> is_number f ->
  flt m f = true.
Proof.
  intros Hg Hr Hlow Hc Hf Hnum.
  pose proof (run_group_lower_bound flt_irrefl flt_trans pre g r Hg Hr c f Hc Hf) as Hnb.
  destruct (flt_between m r f Hlow Hnum) as [?|Hbad]; [done|congruence].
Qed.

(** C1. A group the aggregator returns with a fraction [m], none of whose
    members shows a NaN fraction, has a lowest member: [m] is the
    fraction the loop read for one of the members of the group, [m <= f]
    for the fraction [f] of every member, [m < f] for the fraction [f] of
    every member before that one in the input, and the reset time of the
    group is the reset time of that member when it is not empty, and
    otherwise the reset time the group held when the loop reached that
    member. Stated for a comparison of floats that is irreflexive and
    transitive and puts every number above [a] or below [b] when
    [a < b]. *)
Theorem group_fraction_is_minimum raw gs g m :
  _build_antigravity_groups raw = Ret gs -> g ∈ gs ->
  remaining_fraction g = Some m ->
  member_fractions_are_numbers raw g ->
  lowest_member raw g m.
Proof.
  intros Hb Hg Hm Hnum. unfold lowest_member.
  destruct (build_groups_elem _ _ _ Hb Hg) as (cs & c0 & l & Hcs & Hf & Hgeq).
  set (gid := gd_id (c_gdef c0)) in *.
  set (g0 := fresh_group (c_gdef c0)) in *.
  rewrite Hgeq in Hm.
  destruct (run_group_setter _ g0 m eq_refl Hm)
    as (lpre & c & lpost & Hl & Hc & Hlow & Hpost & Hreset).
  rewrite <-Hf in Hl.
  destruct (filter_split _ _ _ _ _ Hl) as (cpre & cpost & -> & Hfpre & Hfpost).
  destruct (contributions_split _ _ _ _ Hcs) as (pre & e & post & -> & Hpre & He & Hpost').
  destruct (entry_contrib_Some _ _ He) as (info & -> & Hgd & Hobs).
  rewrite Hc in Hobs.
  (* every member of the group comes from a contribution with this group id *)
  assert (forall mid', mid' ∈ models g ->
            exists gdef', model_to_group !! mid' = Some gdef' /\ gd_id gdef' = gid) as Hmember.
  { intros mid' Hmid. rewrite Hgeq, run_group_models in Hmid. simpl in Hmid.
    change (mid' ∈ c_mid <$> c0 :: l) in Hmid.
    apply list_elem_of_fmap in Hmid as (c' & -> & Hc').
    rewrite <-Hf in Hc'. apply list_elem_of_filter in Hc' as [Hid Hc'].
    destruct (contributions_elem_inv _ _ _ Hcs Hc') as (e' & _ & (i' & _ & Hg' & _)%entry_contrib_Some).
    by exists (c_gdef c'). }
  assert (in_gid gid c) as Hcid.
  { assert (c ∈ filter (in_gid gid) (cpre ++ c :: cpost)) as Hin
      by (rewrite Hl; apply elem_of_app; right; left).
    by apply list_elem_of_filter in Hin as [? _]. }
  assert (c_mid c ∈ models g) as Hcmem.
  { rewrite Hgeq, run_group_models. simpl. change ((c_mid c) ∈ c_mid <$> c0 :: l).
    apply list_elem_of_fmap_2. rewrite <-Hf, Hl. apply elem_of_app; right; left. }
  assert (is_number m) as Hmnum.
  { apply (Hnum (c_mid c) info m (c_reset c)); [done| |done].
    apply elem_of_app; right; left. }
  exists pre, (c_mid c), info, post, (c_reset c), (c_gdef c), (foldl apply_contrib [] cpre).
  split; [done|]. split; [done|]. split; [done|]. split.
  { intros mid' info' f r Hmid Hin Hobs'.
    destruct (Hmember mid' Hmid) as (gdef' & Hg' & Hid').
    pose proof (entry_contrib_observed _ _ _ _ _ Hg' Hobs') as He'.
    pose proof (contributions_elem _ _ _ _ Hcs Hin He') as Hc'.
    assert (flt f m = false) as Hnb.
    { apply (run_group_lower_bound flt_irrefl flt_trans (c0 :: l) g0 m eq_refl Hm
               {| c_gdef := gdef'; c_mid := mid'; c_frac := Some f; c_reset := r |});
        [|done].
      rewrite <-Hf. by apply list_elem_of_filter. }
    unfold float_le, float_eq. destruct (flt m f) eqn:Hmf; [by left|right].
    split; [done|]. split; [by apply (Hnum mid' info' f r)|done]. }
  split.
  { intros mid' info' f r Hmid Hin Hobs'.
    destruct (Hmember mid' Hmid) as (gdef' & Hg' & Hid').
    pose proof (entry_contrib_observed _ _ _ _ _ Hg' Hobs') as He'.
    pose proof (contributions_elem _ _ _ _ Hpre Hin He') as Hc'.
    assert ({| c_gdef := gdef'; c_mid := mid'; c_frac := Some f; c_reset := r |} ∈ lpre) as Hl'.
    { rewrite <-Hfpre. by apply list_elem_of_filter. }
    assert (is_number f) as Hfnum.
    { apply (Hnum mid' info' f r); [done| |done]. apply elem_of_app. by left. }
    destruct (remaining_fraction (run_group g0 lpre)) as [r0|] eqn:Hr0.
    - by apply (run_group_setter_first lpre g0 m r0
                  {| c_gdef := gdef'; c_mid := mid'; c_frac := Some f; c_reset := r |} f).
    - apply run_group_None in Hr0 as (_ & _ & Hall). by specialize (Hall _ Hl'). }
  split; [done|]. split.
  { rewrite aggregate_loop_contributions, Hpre. done. }
  rewrite Hgeq, Hreset. f_equal.
  rewrite assoc_foldl_apply. unfold group_of. unfold in_gid in Hcid. rewrite Hcid, Hfpre.
  destruct lpre as [|c1 lpre]; [done|]. simpl.
  assert (c1 = c0) as ->.
  { rewrite Hf in Hl. simpl in Hl. by injection Hl. }
  done.
Qed.

End Minimum.

(** *** The order on labels *)

Lemma string_leb_trans a : forall b c,
  String.leb a b = true -> String.leb b c = true -> String.leb a c = true.
Proof.
  unfold String.leb.
  induction a as [|x a IH]; intros [|y b] [|z c]; simpl; try done.
  unfold Ascii.compare.
  destruct (N.compare_spec (N_of_ascii x) (N_of_ascii y)) as [Hxy|Hxy|Hxy];
  destruct (N.compare_spec (N_of_ascii y) (N_of_ascii z)) as [Hyz|Hyz|Hyz];
  destruct (N.compare_spec (N_of_ascii x) (N_of_ascii z)) as [Hxz|Hxz|Hxz];
  try done; try lia.
  apply IH.
Qed.

#[local] Instance label_le_trans : Transitive label_le.
Proof. intros x y z. unfold label_le. apply string_leb_trans. Qed.

Lemma insert_by_label_Sorted g l :
  Sorted label_le l -> Sorted label_le (insert_by_label g l).
Proof.
  induction l as [|h t IH]; simpl; intros Hs.
  - by repeat constructor.
  - destruct (String.leb (group_label g) (group_label h)) eqn:Hle.
    + constructor; [done|]. by constructor.
    + apply Sorted_inv in Hs as [Hs Hhd]. constructor; [by apply IH|].
      assert (label_le h g) as Hhg.
      { unfold label_le. by destruct (String.leb_total (group_label g) (group_label h)) as [?|?]; [congruence|]. }
      destruct t as [|h' t]; simpl; [by constructor|].
      destruct (String.leb (group_label g) (group_label h')); constructor; [done|].
      by apply HdRel_inv in Hhd.
Qed.

Lemma sorted_by_label_Sorted l : Sorted label_le (sorted_by_label l).
Proof.
  induction l as [|g l IH]; simpl; [constructor|]. by apply insert_by_label_Sorted.
Qed.

(** With distinct labels the result does not depend on the order in which
    the groups were first met. *)
Lemma sorted_by_label_unique l l' :
  l ≡ₚ l' -> NoDup (group_label <$> l) -> sorted_by_label l = sorted_by_label l'.
Proof.
  intros Hp Hnd.
  apply (Sorted_unique_strong label_le); [|apply sorted_by_label_Sorted..|].
  - intros x1 x2 Hx1 Hx2 H12 H21.
    rewrite sorted_by_label_perm in Hx1. rewrite sorted_by_label_perm, <-Hp in Hx2.
    apply (NoDup_fmap_eq group_label l); [done..|]. by apply String.leb_antisym.
  - by rewrite !sorted_by_label_perm.
Qed.

Lemma insert_by_label_Forall2 (R : relation AntigravityModelQuota) g g' l l' :
  (forall x y, R x y -> group_label x = group_label y) ->
  R g g' -> Forall2 R l l' ->
  Forall2 R (insert_by_label g l) (insert_by_label g' l').
Proof.
  intros Hlab Hg Hl. induction Hl as [|h h' t t' Hh Ht IH]; simpl.
  - by repeat constructor.
  - rewrite <-(Hlab _ _ Hg), <-(Hlab _ _ Hh).
    destruct (String.leb _ _); repeat constructor; done.
Qed.

Lemma sorted_by_label_Forall2 (R : relation AntigravityModelQuota) l l' :
  (forall x y, R x y -> group_label x = group_label y) ->
  Forall2 R l l' -> Forall2 R (sorted_by_label l) (sorted_by_label l').
Proof.
  intros Hlab Hl. induction Hl; simpl; [constructor|].
  by apply insert_by_label_Forall2.
Qed.

(** *** Reordering the input *)

Lemma contributions_perm raw raw' :
  raw ≡ₚ raw' -> forall cs, contributions raw = Ret cs ->
  exists cs', contributions raw' = Ret cs' /\ cs ≡ₚ cs'.
Proof.
  induction 1 as [|e raw raw' Hp IH|e1 e2 raw|raw1 raw2 raw3 H12 IH12 H23 IH23]; intros cs Hcs.
  - by exists cs.
  - apply contributions_cons_inv in Hcs as (c & cs0 & He & Hraw & ->).
    destruct (IH _ Hraw) as (cs0' & Hraw' & Hp').
    exists (match c with Some c => c :: cs0' | None => cs0' end).
    simpl. rewrite He, Hraw'. simpl. split; [done|].
    destruct c; [by constructor|done].
  - apply contributions_cons_inv in Hcs as (c2 & cs0 & He2 & Hraw & ->).
    apply contributions_cons_inv in Hraw as (c1 & cs1 & He1 & Hraw & ->).
    exists (match c1 with
            | Some c => c :: match c2 with Some c' => c' :: cs1 | None => cs1 end
            | None => match c2 with Some c' => c' :: cs1 | None => cs1 end
            end).
    simpl. rewrite He1, He2, Hraw. simpl. split; [done|].
    destruct c1, c2; try done. apply perm_swap.
  - destruct (IH12 _ Hcs) as (cs2 & Hcs2 & Hp2).
    destruct (IH23 _ Hcs2) as (cs3 & Hcs3 & Hp3).
    exists cs3. split; [done|]. by rewrite Hp2.
Qed.

Lemma assoc_is_Some_keys {A} k (d : list (string * A)) :
  k ∈ d.*1 <-> is_Some (assoc k d).
Proof.
  split.
  - induction d as [|[k0 v] d IH]; csimpl; intros Hin.
    + by apply elem_of_nil in Hin.
    + destruct (String.eqb_spec k0 k) as [->|Hne]; [by eexists|].
      apply elem_of_cons in Hin as [->|Hin]; [done|auto].
  - intros [v Hv]. apply assoc_Some_elem in Hv.
    apply list_elem_of_fmap. by exists (k, v).
Qed.

Lemma group_of_is_Some k cs :
  is_Some (group_of k cs) <-> exists c, c ∈ cs /\ in_gid k c.
Proof.
  unfold group_of. split.
  - destruct (filter (in_gid k) cs) as [|c0 l] eqn:Hf; [by intros [? ?]|].
    intros _. exists c0.
    assert (c0 ∈ filter (in_gid k) cs) as Hin by (rewrite Hf; left).
    apply list_elem_of_filter in Hin as [? ?]. done.
  - intros (c & Hc & Hk).
    assert (c ∈ filter (in_gid k) cs) as Hin by (by apply list_elem_of_filter).
    destruct (filter (in_gid k) cs); [by apply elem_of_nil in Hin|by eexists].
Qed.

Lemma foldl_apply_keys k cs :
  k ∈ (foldl apply_contrib [] cs).*1 <-> exists c, c ∈ cs /\ in_gid k c.
Proof. by rewrite assoc_is_Some_keys, assoc_foldl_apply, group_of_is_Some. Qed.

Lemma assoc_values {A} (x : A) (d : list (string * A)) :
  NoDup d.*1 -> d.*2 = (fun k => default x (assoc k d)) <$> d.*1.
Proof.
  induction d as [|[k v] d IH]; csimpl; intros Hnd; [done|].
  apply NoDup_cons in Hnd as [Hk Hnd].
  rewrite String.eqb_refl. simpl. f_equal. rewrite (IH Hnd).
  apply list_eq_Forall2, Forall2_fmap, Forall2_same_length_lookup_2; [done|].
  intros i k1 k2 H1 H2. assert (k1 = k2) as <- by congruence.
  destruct (String.eqb_spec k k1) as [->|Hne]; [|done].
  exfalso. apply Hk. by eapply list_elem_of_lookup_2.
Qed.

Lemma Forall2_fmap_same {A B} (R : relation B) (f f' : A -> B) (l : list A) :
  (forall x, x ∈ l -> R (f x) (f' x)) -> Forall2 R (f <$> l) (f' <$> l).
Proof.
  induction l as [|x l IH]; csimpl; intros H; constructor.
  - apply H. left.
  - apply IH. intros y Hy. apply H. by right.
Qed.

Section Reordering.

Hypothesis flt_irrefl : forall a, flt a a = false.
Hypothesis flt_trans : forall a b c, flt a b = true -> flt b c = true -> flt a c = true.

(** A contribution strictly below all others, with a reset time that is
    not empty, decides the reset time of its group. *)
Lemma run_group_strict_min cs g c m :
  remaining_fraction g = None ->
  c ∈ cs -> c_frac c = Some m -> truthy (c_reset c) = true ->
  (forall c' f, c' ∈ cs -> c_frac c' = Some f -> c' = c \/ flt m f = true) ->
  reset_time (run_group g cs) = c_reset c.
Proof.
  intros Hg Hc Hm Htr Hmin.
  destruct (remaining_fraction (run_group g cs)) as [m'|] eqn:Hres.
  2: { apply run_group_None in Hres as (_ & _ & Hall). rewrite (Hall c Hc) in Hm. done. }
  destruct (run_group_setter _ _ _ Hg Hres) as (pre & s & post & -> & Hs & Hlow & Hpost & Hreset).
  assert (s = c) as ->.
  { destruct (Hmin s m') as [?|Hlt]; [apply elem_of_app; right; left|done|done|].
    exfalso.
    apply elem_of_app in Hc as [Hc|Hc].
    - destruct (remaining_fraction (run_group g pre)) as [r0|] eqn:Hr0.
      + pose proof (run_group_lower_bound flt_irrefl flt_trans pre g r0 Hg Hr0 c m Hc Hm).
        pose proof (flt_trans _ _ _ Hlt Hlow). congruence.
      + apply run_group_None in Hr0 as (_ & _ & Hall). rewrite (Hall c Hc) in Hm. done.
    - apply elem_of_cons in Hc as [->|Hc].
      + assert (m' = m) as -> by congruence. rewrite flt_irrefl in Hlt. done.
      + rewrite (Hpost c m Hc Hm) in Hlt. done. }
  rewrite Hreset. unfold py_or. by rewrite Htr.
Qed.

(** The fractions a group ends with on two orders of the same
    contributions compare equal when the contributions show numbers. *)
Lemma run_group_same_fraction cs cs' g :
  cs ≡ₚ cs' -> remaining_fraction g = None ->
  (forall c f, c ∈ cs -> c_frac c = Some f -> is_number f) ->
  same_fraction (remaining_fraction (run_group g cs)) (remaining_fraction (run_group g cs')).
Proof.
  intros Hp Hg Hnum. unfold same_fraction.
  destruct (remaining_fraction (run_group g cs)) as [m|] eqn:Hm;
  destruct (remaining_fraction (run_group g cs')) as [m'|] eqn:Hm'; [| | |done].
  - destruct (run_group_setter _ _ _ Hg Hm) as (pre & s & post & Hcs & Hs & _).
    destruct (run_group_setter _ _ _ Hg Hm') as (pre' & s' & post' & Hcs' & Hs' & _).
    assert (s ∈ cs) as Hscs by (rewrite Hcs; apply elem_of_app; right; left).
    assert (s' ∈ cs') as Hscs' by (rewrite Hcs'; apply elem_of_app; right; left).
    assert (s ∈ cs') as Hin by (by rewrite <-Hp).
    assert (s' ∈ cs) as Hin' by (by rewrite Hp).
    split; [by apply (Hnum s)|]. split; [by apply (Hnum s')|]. split.
    + by apply (run_group_lower_bound flt_irrefl flt_trans cs' g m' Hg Hm' s).
    + by apply (run_group_lower_bound flt_irrefl flt_trans cs g m Hg Hm s').
  - destruct (run_group_setter _ _ _ Hg Hm) as (pre & s & post & Hcs & Hs & _).
    apply run_group_None in Hm' as (_ & _ & Hall).
    assert (s ∈ cs') as Hin by (rewrite <-Hp, Hcs; apply elem_of_app; right; left).
    rewrite (Hall s Hin) in Hs. done.
  - destruct (run_group_setter _ _ _ Hg Hm') as (pre & s & post & Hcs & Hs & _).
    apply run_group_None in Hm as (_ & _ & Hall).
    assert (s ∈ cs) as Hin by (rewrite Hp, Hcs; apply elem_of_app; right; left).
    rewrite (Hall s Hin) in Hs. done.
Qed.

Lemma group_data_lookup raw cs k :
  contributions raw = Ret cs -> k ∈ (foldl apply_contrib [] cs).*1 ->
  exists c0 l,
    filter (in_gid k) cs = c0 :: l /\
    assoc k (foldl apply_contrib [] cs) = Some (run_group (fresh_group (c_gdef c0)) (c0 :: l)) /\
    gd_id (c_gdef c0) = k /\ c_gdef c0 ∈ ANTIGRAVITY_GROUPS /\ c0 ∈ cs.
Proof.
  intros Hcs Hk. apply assoc_is_Some_keys in Hk as [g Hg].
  rewrite assoc_foldl_apply in Hg |- *. unfold group_of in Hg |- *.
  destruct (filter (in_gid k) cs) as [|c0 l] eqn:Hf; [done|].
  exists c0, l. split; [done|]. split; [done|].
  assert (c0 ∈ filter (in_gid k) cs) as Hin by (rewrite Hf; left).
  apply list_elem_of_filter in Hin as [Hid Hin]. split; [done|]. split; [|done].
  destruct (contributions_elem_inv _ _ _ Hcs Hin) as (e & _ & (i & _ & Hm & _)%entry_contrib_Some).
  by apply model_to_group_lookup in Hm as [? _].
Qed.

Lemma NoDup_keys_eq {A} (d : list (string * A)) k v v' :
  NoDup d.*1 -> (k, v) ∈ d -> (k, v') ∈ d -> v = v'.
Proof.
  intros Hnd H1 H2. apply (elem_assoc_NoDup _ _ _ Hnd) in H1, H2. congruence.
Qed.

(** An entry without a contribution is a member of no group. *)
Lemma entry_contrib_not_member e label :
  entry_contrib e = Ret None -> member_of label e = false.
Proof.
  unfold entry_contrib, member_of.
  destruct (snd e) as [| | | | | |d]; try done.
  destruct (extract_quota_fields d) as [fields|ex]; [|intros [=]]. simpl.
  destruct (model_to_group !! fst e) as [gdef|]; [|done].
  destruct (fst fields) as [| |z|x|s| |]; try solve [intros [=]];
    (destruct (py_float _) as [f|ex]; simpl; solve [intros [=]]).
Qed.

(** The contributions to a configured group are those of its entries, in
    the order of the input. *)
Lemma contributions_members gdef raw : forall cs,
  gdef ∈ ANTIGRAVITY_GROUPS ->
  contributions raw = Ret cs ->
  c_mid <$> filter (in_gid (gd_id gdef)) cs =
  (filter (fun e => member_of (gd_label gdef) e = true) raw).*1.
Proof.
  intros cs Hgd. revert cs. induction raw as [|e raw IH]; intros cs Hcs.
  - injection Hcs as <-. done.
  - destruct (contributions_cons_inv _ _ _ Hcs) as (c & cs' & He & Hcs' & ->).
    specialize (IH cs' Hcs'). destruct c as [c|].
    + destruct (entry_contrib_Some _ _ He) as (info & -> & Hmg & _).
      pose proof (model_to_group_lookup _ _ Hmg) as [Hcg _].
      assert (member_of (gd_label gdef) (c_mid c, VDict info) =
              String.eqb (gd_label (c_gdef c)) (gd_label gdef)) as Hmo.
      { unfold member_of. simpl. by rewrite Hmg. }
      destruct (decide (gd_id (c_gdef c) = gd_id gdef)) as [Hid|Hne].
      * assert (c_gdef c = gdef) as Heq
          by (by apply (NoDup_fmap_eq gd_id ANTIGRAVITY_GROUPS);
                [apply ANTIGRAVITY_GROUPS_ids|..]).
        rewrite filter_cons_True by done.
        rewrite filter_cons_True by (rewrite Hmo, Heq; apply String.eqb_refl).
        rewrite !fmap_cons, IH. done.
      * rewrite filter_cons_False by done.
        rewrite filter_cons_False; [done|].
        rewrite Hmo. intros Hl%String.eqb_eq. apply Hne. f_equal.
        by apply (NoDup_fmap_eq gd_label ANTIGRAVITY_GROUPS);
          [apply ANTIGRAVITY_GROUPS_labels|..].
    + rewrite filter_cons_False; [done|].
      by rewrite (entry_contrib_not_member _ _ He).
Qed.

(** C7. For an input without repeated keys, the aggregator returns on a
    reordering of the input as many groups, in the same order of labels;
    corresponding groups have the same label; the members of each are the
    keys of its entries in the order of its own input, so that the two
    member lists are permutations of each other; their fractions compare
    equal when no member of the group shows a NaN fraction; and they have
    the same reset time whenever one member of the group shows a fraction
    strictly below that of every other member together with a reset time
    that is not empty. Stated for a comparison of floats that is
    irreflexive and transitive. *)
Theorem groups_permutation_invariant raw raw' gs :
  raw ≡ₚ raw' -> NoDup raw.*1 ->
  _build_antigravity_groups raw = Ret gs ->
  exists gs', _build_antigravity_groups raw' = Ret gs' /\
    Forall2 (same_group raw raw') gs gs'.
Proof.
  intros Hp Hnd (cs & Hcs & _ & ->)%build_groups_inv.
  destruct (contributions_perm _ _ Hp _ Hcs) as (cs' & Hcs' & Hpc).
  exists (sorted_by_label ((foldl apply_contrib [] cs').*2)). split.
  { unfold _build_antigravity_groups. by rewrite aggregate_loop_contributions, Hcs'. }
  set (gd := foldl apply_contrib [] cs). set (gd' := foldl apply_contrib [] cs').
  set (d := fresh_group {| gd_id := ""; gd_label := ""; gd_ids := [] |}).
  assert (NoDup gd.*1) as Hk by apply foldl_apply_keys_NoDup, NoDup_nil_2.
  assert (NoDup gd'.*1) as Hk' by apply foldl_apply_keys_NoDup, NoDup_nil_2.
  assert (gd'.*1 ≡ₚ gd.*1) as Hkeys.
  { apply NoDup_Permutation; [done..|]. intros k. unfold gd, gd'.
    rewrite !foldl_apply_keys. by setoid_rewrite Hpc. }
  rewrite (assoc_values d gd Hk), (assoc_values d gd' Hk').
  set (G := fun k => default d (assoc k gd)). set (G' := fun k => default d (assoc k gd')).
  (* the groups of the reordered input, listed by the keys of the first *)
  assert (forall k, k ∈ gd.*1 -> exists gdef l l',
            gd_id gdef = k /\ gdef ∈ ANTIGRAVITY_GROUPS /\ l ≡ₚ l' /\
            filter (in_gid k) cs = l /\ filter (in_gid k) cs' = l' /\
            G k = run_group (fresh_group gdef) l /\
            G' k = run_group (fresh_group gdef) l') as Hview.
  { intros k Hin.
    destruct (group_data_lookup _ _ _ Hcs Hin) as (c0 & l & Hf & Ha & Hid & Hg & Hc0).
    assert (k ∈ gd'.*1) as Hin' by (by rewrite Hkeys).
    destruct (group_data_lookup _ _ _ Hcs' Hin') as (c0' & l' & Hf' & Ha' & Hid' & Hg' & Hc0').
    assert (c_gdef c0' = c_gdef c0) as Hsame.
    { apply (NoDup_fmap_eq gd_id ANTIGRAVITY_GROUPS); [apply ANTIGRAVITY_GROUPS_ids|done..|congruence]. }
    exists (c_gdef c0), (c0 :: l), (c0' :: l').
    split; [done|]. split; [done|]. split; [by rewrite <-Hf, <-Hf', Hpc|].
    split; [done|]. split; [done|]. unfold G, G'. fold gd in Ha. fold gd' in Ha'.
    rewrite Ha, Ha', Hsame. done. }
  rewrite (sorted_by_label_unique (G' <$> gd'.*1) (G' <$> gd.*1)).
  2: { by rewrite Hkeys. }
  2: { rewrite <-list_fmap_compose. apply NoDup_fmap_2_strong; [|done].
       intros k1 k2 H1 H2 Hl. rewrite Hkeys in H1, H2. simpl in Hl.
       destruct (Hview k1 H1) as (g1 & l1 & l1' & <- & Hg1 & _ & _ & _ & _ & Hl1).
       destruct (Hview k2 H2) as (g2 & l2 & l2' & <- & Hg2 & _ & _ & _ & _ & Hl2).
       rewrite Hl1, Hl2, !run_group_label in Hl. simpl in Hl.
       f_equal. by apply (NoDup_fmap_eq gd_label ANTIGRAVITY_GROUPS);
         [apply ANTIGRAVITY_GROUPS_labels|..]. }
  apply sorted_by_label_Forall2; [by intros x y [? _]|].
  apply Forall2_fmap_same. intros k Hin.
  destruct (Hview k Hin) as (gdef & l & l' & Hid & Hg & Hl & Hf & Hf' & -> & ->).
  assert (forall c, c ∈ l -> c ∈ cs /\ in_gid k c) as Hmem.
  { intros c Hc. rewrite <-Hf in Hc. by apply list_elem_of_filter in Hc as [? ?]. }
  split; [by rewrite !run_group_label|].
  split.
  { unfold members_in_input_order. rewrite run_group_label, run_group_models. simpl.
    rewrite <-Hf, <-Hid. by apply contributions_members. }
  split.
  { unfold members_in_input_order. rewrite run_group_label, run_group_models. simpl.
    rewrite <-Hf', <-Hid. by apply contributions_members. }
  split; [by rewrite !run_group_models, Hl|].
  split.
  { intros Hnum. apply run_group_same_fraction; [done|done|].
    intros c f Hc Hcf. destruct (Hmem c Hc) as [Hccs _].
    destruct (contributions_elem_inv _ _ _ Hcs Hccs)
      as (e & He & (i & -> & _ & Hobs)%entry_contrib_Some).
    rewrite Hcf in Hobs. apply (Hnum (c_mid c) i f (c_reset c)); [|done|done].
    rewrite run_group_models. simpl. by apply list_elem_of_fmap_2. }
  intros mid info m r Hmid Hraw Hobs Htr Hmin.
  rewrite run_group_models in Hmid. simpl in Hmid.
  apply list_elem_of_fmap in Hmid as (c1 & -> & Hc1).
  destruct (Hmem c1 Hc1) as [Hc1cs Hc1id].
  destruct (contributions_elem_inv _ _ _ Hcs Hc1cs)
    as (e1 & _ & (i1 & _ & Hmg & _)%entry_contrib_Some).
  set (c := {| c_gdef := c_gdef c1; c_mid := c_mid c1; c_frac := Some m; c_reset := r |}).
  pose proof (contributions_elem _ _ _ _ Hcs Hraw (entry_contrib_observed _ _ _ _ _ Hmg Hobs))
    as Hccs. fold c in Hccs.
  assert (c ∈ l) as Hcl by (rewrite <-Hf; by apply list_elem_of_filter).
  assert (forall c' f, c' ∈ l -> c_frac c' = Some f -> c' = c \/ flt m f = true) as Hmin'.
  { intros c' f Hc' Hf'0. destruct (Hmem c' Hc') as [Hc'cs Hc'id].
    destruct (contributions_elem_inv _ _ _ Hcs Hc'cs)
      as (e' & He' & (i' & -> & Hmg' & Hobs')%entry_contrib_Some).
    rewrite Hf'0 in Hobs'.
    destruct (Hmin (c_mid c') i' f (c_reset c')) as [Heq|?]; [|done|done| |by right].
    { rewrite run_group_models. simpl. by apply list_elem_of_fmap_2. }
    left. rewrite Heq in He', Hmg'.
    pose proof (NoDup_keys_eq _ _ _ _ Hnd He' Hraw) as [= ->].
    rewrite Hobs in Hobs'. injection Hobs' as Hm' Hr'.
    destruct c' as [g' mid' f' r']. unfold c. simpl in *. subst. f_equal; congruence. }
  split.
  - by apply (run_group_strict_min l _ c m).
  - apply (run_group_strict_min l' _ c m); [done|by rewrite <-Hl|done|done|].
    intros c' f Hc'. apply Hmin'. by rewrite Hl.
Qed.

End Reordering.

Transparent model_to_group.

End Aggregator.

(** * The fetchers and the directory client *)

Section Fetch.

Context {pf : PyFloat} {host : Host}.

Lemma api_call_log payload log :
  api_call payload log = (proxied payload, log ++ [api_request payload]).
Proof.
  unfold proxied, api_call, _make_request, api_request.
  destruct (urlopen _); [destruct (json_loads _)|..]; done.
Qed.

Lemma is_2xx_status v :
  is_2xx v -> exists n, status_not_2xx v = Ret (false, n).
Proof.
  intros (n & Hn & Hlt & Hge). exists n. unfold status_not_2xx. by rewrite Hn, Hlt, Hge.
Qed.

Local Arguments _build_antigravity_groups : simpl never.
Local Arguments decode_body : simpl never.
Local Arguments status_not_2xx : simpl never.
Local Arguments proxied : simpl never.
Local Arguments api_request : simpl never.
Local Arguments antigravity_payload : simpl never.
Local Arguments codex_payload : simpl never.

Ltac run_api :=
  unfold try_except, antigravity_try, codex_try; simpl;
  unfold mbind, eff_bind, on_log; simpl; rewrite api_call_log; simpl.

Lemma antigravity_try_fails af url reason log :
  endpoint_fails (proxied (antigravity_payload af url)) reason ->
  try_except (antigravity_try af url) antigravity_caught
             (fun exc => mret (Continue (exn_str exc))) log
  = (Ret (Continue reason), log ++ [api_request (antigravity_payload af url)]).
Proof.
  intros Hf. run_api.
  inversion Hf as [r reason' Hp| d body H2 Hb Hd Hm Hr]; subst.
  - inversion Hp as [msg Hr|e Hr|d n Hn Hbad Hr|d [n [Hn [Hlt Hge]]] Hb Hr
                    |d s e [n [Hn [Hlt Hge]]] Hb Hs He Hr]; subst; simpl; try done.
    + unfold status_not_2xx. fold (status_of d). rewrite Hn. simpl. rewrite Hbad. done.
    + unfold status_not_2xx. fold (status_of d). rewrite Hn, Hlt, Hge. simpl.
      fold (body_of d). rewrite Hb. done.
    + unfold status_not_2xx. fold (status_of d). rewrite Hn, Hlt, Hge. simpl.
      fold (body_of d). rewrite Hb. simpl.
      destruct (String.eqb_spec s ""); [done|]. simpl.
      unfold decode_body. rewrite He. done.
  - simpl. destruct H2 as [n [Hn [Hlt Hge]]].
    unfold status_not_2xx. fold (status_of d). rewrite Hn, Hlt, Hge. simpl.
    fold (body_of d). rewrite Hb. simpl. rewrite Hd. simpl.
    destruct (dict_get body "models" (VDict [])) as [| | | | | |[|entry entries]] eqn:Hmod; try done.
    by destruct (Hm entry entries).
Qed.

Lemma append_nonempty_r s t : t <> "" -> s +:+ t <> "".
Proof. destruct s; simpl; [done|]. intros _. done. Qed.





(** The aggregator raises nothing that the handler of the loop names. *)
Lemma extract_quota_fields_raise info e :
  extract_quota_fields info = Raise e -> e = AttributeError.
Proof.
  unfold extract_quota_fields.
  destruct (truthy _); [|done].
  destruct (dict_get info "quotaInfo" (VDict [])); simpl; try done; by intros [= <-].
Qed.

Lemma py_float_raise v e :
  py_float v = Raise e -> e = TypeError \/ e = ValueError \/ e = OverflowError.
Proof.
  destruct v; simpl; try (intros [= <-]; by auto).
  - destruct (float_of_int _); simpl; [done|]. intros [= <-]; auto.
  - destruct (float_of_int _); simpl; [done|]. intros [= <-]; auto.
  - destruct (float_of_str _); simpl; [done|]. intros [= <-]; auto.
Qed.

Lemma aggregate_entry_raise gd entry e :
  aggregate_entry gd entry = Raise e -> antigravity_caught e = false.
Proof.
  destruct entry as [mid info]. unfold aggregate_entry.
  destruct info; try done.
  destruct (extract_quota_fields d) as [[remaining reset]|e'] eqn:Hx; simpl.
  - destruct (model_to_group !! mid); [|done].
    destruct remaining; try done;
      (destruct (py_float _) eqn:Hp; simpl; [done|]; intros [= <-];
       apply py_float_raise in Hp as [->|[->| ->]]; done).
  - intros [= <-]. by apply extract_quota_fields_raise in Hx as ->.
Qed.

Lemma aggregate_loop_raise entries : forall gd e,
  aggregate_loop gd entries = Raise e -> antigravity_caught e = false.
Proof.
  induction entries as [|entry entries IH]; intros gd e; simpl; [done|].
  destruct (aggregate_entry gd entry) eqn:He; simpl; [by eauto|].
  intros [= <-]. by eapply aggregate_entry_raise.
Qed.

Lemma build_groups_raise raw e :
  _build_antigravity_groups raw = Raise e -> antigravity_caught e = false.
Proof.
  unfold _build_antigravity_groups.
  destruct (aggregate_loop [] raw) eqn:Hl; simpl; [done|].
  intros [= <-]. by eapply aggregate_loop_raise.
Qed.

Lemma antigravity_try_succeeds af url models log :
  endpoint_succeeds (proxied (antigravity_payload af url)) models ->
  try_except (antigravity_try af url) antigravity_caught
             (fun exc => mret (Continue (exn_str exc))) log
  = (match _build_antigravity_groups models with
     | Ret groups => Ret (Return groups)
     | Raise e => Raise e
     end, log ++ [api_request (antigravity_payload af url)]).
Proof.
  intros (d & body & Hr & (n & Hn & Hlt & Hge) & Hb & Hd & Hm & Hne). run_api.
  rewrite Hr. simpl. unfold status_not_2xx. fold (status_of d). rewrite Hn, Hlt, Hge. simpl.
  fold (body_of d). rewrite Hb. simpl. rewrite Hd. simpl. rewrite Hm.
  destruct models as [|entry entries]; [done|].
  destruct (_build_antigravity_groups (entry :: entries)) eqn:Hbuild; simpl; [done|].
  by rewrite (build_groups_raise _ _ Hbuild).
Qed.


(** The loop up to the first endpoint that succeeds. *)
Lemma antigravity_loop_first_success af pre : forall url post models last_error log,
  (forall v, v ∈ pre -> exists reason, endpoint_fails (proxied (antigravity_payload af v)) reason) ->
  endpoint_succeeds (proxied (antigravity_payload af url)) models ->
  antigravity_loop af last_error (pre ++ url :: post) log =
  (antigravity_result af (_build_antigravity_groups models),
   log ++ ((fun url => api_request (antigravity_payload af url)) <$> pre ++ [url])).
Proof.
  induction pre as [|v pre IH]; intros url post models last_error log Hpre Hok; simpl.
  - unfold mbind, eff_bind at 1. rewrite (antigravity_try_succeeds af url models) by done.
    destruct (_build_antigravity_groups models); done.
  - unfold mbind, eff_bind at 1.
    destruct (Hpre v) as [reason Hv]; [left|].
    rewrite (antigravity_try_fails af v reason) by done.
    rewrite (IH url post models) by (try done; intros; apply Hpre; by right).
    by rewrite <-app_assoc.
Qed.


(** C2. For a record with a routing index, when the endpoints before [url]
    each fail in a way the fetcher handles and the response of [url] has
    a 2xx status, a body that decodes to a mapping and a [models] mapping
    with an entry, the fetcher calls the endpoints up to [url] once, in
    the configured order, and none after it; it returns the groups the
    aggregator builds from these [models] with an empty error when the
    aggregator returns, and raises what the aggregator raises
    otherwise. *)
Theorem antigravity_first_success af log pre url post models :
  truthy (af_auth_index af) = true ->
  ANTIGRAVITY_QUOTA_URLS = pre ++ url :: post ->
  (forall v, v ∈ pre ->
     exists reason, endpoint_fails (proxied (antigravity_payload af v)) reason) ->
  endpoint_succeeds (proxied (antigravity_payload af url)) models ->
  fetch_antigravity_quota af log =
  (match _build_antigravity_groups models with
   | Ret groups =>
       Ret {| aq_email := af_email af; aq_groups := groups; aq_error := "" |}
   | Raise e => Raise e
   end,
   log ++ ((fun url => api_request (antigravity_payload af url)) <$> pre ++ [url])).
Proof.
  intros Hidx Hurls Hpre Hok. unfold fetch_antigravity_quota. rewrite Hidx. change (negb true) with false. cbv iota.
  rewrite Hurls. by rewrite (antigravity_loop_first_success af pre url post models).
Qed.

(** *** The Codex fetcher *)





(** C6. For a record whose routing index is falsy, the Codex fetcher
    leaves the request log as it was and returns the email and plan type
    of the record with no usage figure and the error
    "missing auth_index"; for a record with a routing index whose account
    id is falsy, it leaves the request log as it was and returns the same
    with the error "missing chatgpt_account_id". *)
Theorem fetch_codex_quota_missing_fields af log :
  (truthy (af_auth_index af) = false ->
   fetch_codex_quota af log =
   (Ret {| cq_email := af_email af; cq_plan_type := af_plan_type af;
           cq_primary_used_pct := VNone; cq_primary_reset_seconds := VNone;
           cq_secondary_used_pct := VNone; cq_secondary_reset_seconds := VNone;
           cq_limit_reached := VBool false; cq_error := "missing auth_index" |}, log))
  /\
  (truthy (af_auth_index af) = true ->
   truthy (af_chatgpt_account_id af) = false ->
   fetch_codex_quota af log =
   (Ret {| cq_email := af_email af; cq_plan_type := af_plan_type af;
           cq_primary_used_pct := VNone; cq_primary_reset_seconds := VNone;
           cq_secondary_used_pct := VNone; cq_secondary_reset_seconds := VNone;
           cq_limit_reached := VBool false; cq_error := "missing chatgpt_account_id" |}, log)).
Proof.
  unfold fetch_codex_quota. split.
  - by intros ->.
  - by intros -> ->.
Qed.

(** *** The credential directory *)

Lemma parse_auth_file_readable item :
  item_readable item ->
  (item_supported item /\
     exists af, parse_auth_file (VDict item) = Ret (Some af) /\ auth_file_of item af)
  \/ (~ item_supported item /\ parse_auth_file (VDict item) = Ret None).
Proof.
  unfold item_readable, item_supported, parse_auth_file, auth_file_of, id_token_field. simpl.
  destruct (dict_get item "provider" (VStr "")) as [| | | |s| |] eqn:Hp; simpl;
    try (intros _; right; split; [by intros (s' & [=] & _)|done]); try done.
  intros Htok.
  destruct (bool_decide (s ∈ TARGET_PROVIDERS)) eqn:Hs; simpl.
  - apply bool_decide_eq_true in Hs. left. split; [by exists s|].
    destruct (String.eqb s "codex") eqn:Hc; simpl.
    + destruct (Htok eq_refl) as [Hf|[t Ht]].
      * rewrite Hf. simpl. eexists. split; [done|]. simpl.
        destruct (dict_get item "id_token" (VDict [])) as [| | | | | |[|? ?]]; try done;
          repeat split; done.
      * rewrite Ht. destruct t as [|entry entries]; simpl; eexists; (split; [done|]); simpl;
          repeat split; done.
    + rewrite andb_false_r. eexists. split; [done|]. simpl. repeat split; done.
  - apply bool_decide_eq_false in Hs. right. split; [|done].
    by intros (s' & [= <-] & Hs').
Qed.

Lemma parse_auth_files_readable items : forall acc,
  Forall item_readable items ->
  exists afs,
    parse_auth_files acc (VDict <$> items) = Ret (acc ++ afs) /\
    Forall2 auth_file_of (filter item_supported items) afs.
Proof.
  induction items as [|item items IH]; intros acc Hall; csimpl.
  - exists []. by rewrite app_nil_r.
  - apply Forall_cons in Hall as [Hitem Hall].
    destruct (parse_auth_file_readable item Hitem) as [(Hs & af & -> & Haf)|(Hs & ->)]; simpl.
    + destruct (IH (acc ++ [af]) Hall) as (afs & -> & Hafs).
      exists (af :: afs). rewrite <-app_assoc. split; [done|].
      rewrite filter_cons_True by done. by constructor.
    + destruct (IH acc Hall) as (afs & -> & Hafs).
      exists afs. split; [done|]. by rewrite filter_cons_False.
Qed.

(** C8. When the directory answers with a mapping whose [files] is a list
    of records, each with a hashable provider tag and, for a codex entry,
    an [id_token] that is falsy or a mapping, [get_auth_files] issues one
    request and returns one record for each entry whose provider is
    "codex" or "antigravity", in the order of the list; a field that is
    absent takes its default: the empty string, [False] for the two
    flags, and "unknown" for the status. *)
Theorem get_auth_files_filters log text resp items :
  urlopen directory_request = Response text ->
  json_loads text = inr (VDict resp) ->
  dict_get resp "files" (VList []) = VList (VDict <$> items) ->
  Forall item_readable items ->
  exists afs,
    get_auth_files log = (Ret afs, log ++ [directory_request]) /\
    Forall2 auth_file_of (filter item_supported items) afs.
Proof.
  intros Hnet Hjson Hfiles Hall.
  destruct (parse_auth_files_readable items [] Hall) as (afs & Hparse & Hafs).
  exists afs. split; [|done].
  unfold get_auth_files, _make_request. unfold mbind, eff_bind.
  fold directory_request. rewrite Hnet, Hjson.
  unfold lift, parse_directory. simpl. rewrite Hfiles. simpl. by rewrite Hparse.
Qed.

End Fetch.

(** * The formatters *)

Section FormattingFacts.

Context {clock : PyClock}.

(** C9. The delay formatter returns "now" for an absent delay and for a
    delay that is not positive; for a positive delay it returns the
    month, day, hour and minute of the local time plus the delay when
    that sum is a date the interpreter represents, and raises
    [OverflowError] when it is not. The timestamp formatter returns the
    empty string for the empty string and for a text that does not
    parse. For a text that parses to a datetime whose conversion to the
    local zone succeeds, it returns, when the datetime has a UTC offset,
    "resetting" if it is not after the current time and the month, day,
    hour and minute of the datetime in the local zone if it is, and the
    empty string when the datetime has no UTC offset. When the
    conversion to the local zone raises, it returns the empty string for
    a [ValueError] or [TypeError] and raises the exception otherwise. *)
Theorem reset_formatters :
  (forall seconds,
     seconds = None \/ (exists n, seconds = Some n /\ n <= 0) ->
     _fmt_reset_abs seconds = Ret "now") /\
  (forall n reset_dt,
     0 < n -> add_seconds now_local n = Some reset_dt ->
     _fmt_reset_abs (Some n) = Ret (fmt_month_day_time reset_dt)) /\
  (forall n,
     0 < n -> add_seconds now_local n = None ->
     _fmt_reset_abs (Some n) = Raise OverflowError) /\
  _fmt_reset_time "" = Ret "" /\
  (forall s, s <> "" -> fromisoformat (replace_Z s) = None -> _fmt_reset_time s = Ret "") /\
  (forall s reset_dt local_dt,
     s <> "" -> fromisoformat (replace_Z s) = Some reset_dt ->
     astimezone reset_dt = Ret local_dt ->
     match instant reset_dt with
     | Some t =>
         (t <= now_utc -> _fmt_reset_time s = Ret "resetting") /\
         (now_utc < t -> _fmt_reset_time s = Ret (fmt_month_day_time local_dt))
     | None => _fmt_reset_time s = Ret ""
     end) /\
  (forall s reset_dt e,
     s <> "" -> fromisoformat (replace_Z s) = Some reset_dt ->
     astimezone reset_dt = Raise e ->
     _fmt_reset_time s = if fmt_caught e then Ret "" else Raise e).
Proof.
  repeat split.
  - intros seconds [->|(n & -> & Hn)]; simpl; [done|].
    by destruct (Z.leb_spec n 0); [|lia].
  - intros n reset_dt Hn Hadd. simpl.
    destruct (Z.leb_spec n 0); [lia|]. by rewrite Hadd.
  - intros n Hn Hadd. simpl.
    destruct (Z.leb_spec n 0); [lia|]. by rewrite Hadd.
  - intros s Hs Hparse. unfold _fmt_reset_time.
    destruct (String.eqb_spec s ""); [done|]. by rewrite Hparse.
  - intros s reset_dt local_dt Hs Hparse Hlocal. unfold _fmt_reset_time, reset_passed.
    destruct (String.eqb_spec s ""); [done|]. rewrite Hparse. simpl. rewrite Hlocal. simpl.
    destruct (instant reset_dt) as [t|]; simpl; [|done]. split; intros Ht.
    + by destruct (Z.leb_spec (t - now_utc) 0); [|lia].
    + by destruct (Z.leb_spec (t - now_utc) 0); [lia|].
  - intros s reset_dt e Hs Hparse Hlocal. unfold _fmt_reset_time.
    destruct (String.eqb_spec s ""); [done|]. rewrite Hparse. simpl. by rewrite Hlocal.
Qed.

End FormattingFacts.

(** * The theorems at concrete inputs *)

Section Examples.

#[local] Existing Instance QFloat.

Lemma Qflt_irrefl (a : Q) : flt a a = false.
Proof.
  simpl. apply negb_false_iff, Qle_bool_iff, Qle_refl.
Qed.

Lemma Qflt_lt (a b : Q) : flt a b = true <-> (a < b)%Q.
Proof.
  simpl. rewrite negb_true_iff. split.
  - intros H. apply Qnot_le_lt. intros Hle. apply Qle_bool_iff in Hle. congruence.
  - intros H. destruct (Qle_bool b a) eqn:E; [|done].
    apply Qle_bool_iff in E. by apply Qlt_not_le in H.
Qed.

Lemma Qflt_trans (a b c : Q) : flt a b = true -> flt b c = true -> flt a c = true.
Proof. rewrite !Qflt_lt. apply Qlt_trans. Qed.

Lemma Qflt_is_number (a : Q) : is_number a.
Proof.
  exists (a + 1)%Q. left. apply Qflt_lt.
  rewrite <-(Qplus_0_r a) at 1. by apply Qplus_lt_r.
Qed.

Lemma Qflt_between (a b c : Q) :
  flt a b = true -> is_number c -> flt a c = true \/ flt c b = true.
Proof.
  rewrite !Qflt_lt. intros Hab _.
  destruct (Qlt_le_dec a c) as [Hac|Hca]; [by left|right].
  by apply (Qle_lt_trans _ a).
Qed.

(** C1, counterexample: the group takes its fraction, one quarter, from
    the second member, which supplies the empty reset time, and keeps the
    reset time of the first member. *)
Lemma reset_time_not_from_minimum :
  _build_antigravity_groups two_models = Ret [two_models_group] /\
  observed_quota [("quotaInfo", VDict [("remainingFraction", VFloat (1#4)%Q)])]
    = Ret (Some (1#4)%Q, VStr "") /\
  observed_quota [("quotaInfo", VDict [("remainingFraction", VFloat (1#2)%Q);
                                       ("resetTime", VStr "T1")])]
    = Ret (Some (1#2)%Q, VStr "T1") /\
  reset_time two_models_group = VStr "T1" /\
  reset_time two_models_group <> VStr "".
Proof. repeat split; try reflexivity. discriminate. Qed.

(** C1, witness. *)
Lemma group_fraction_is_minimum_witness :
  _build_antigravity_groups two_models = Ret [two_models_group] /\
  two_models_group ∈ [two_models_group] /\
  remaining_fraction two_models_group = Some (1#4)%Q /\
  member_fractions_are_numbers two_models two_models_group /\
  lowest_member two_models two_models_group (1#4)%Q.
Proof.
  assert (_build_antigravity_groups two_models = Ret [two_models_group]) as Hb
    by reflexivity.
  assert (two_models_group ∈ [two_models_group]) as Hin by left.
  assert (member_fractions_are_numbers two_models two_models_group) as Hnum.
  { intros mid info f r _ _ _. apply Qflt_is_number. }
  split; [exact Hb|]. split; [exact Hin|]. split; [reflexivity|]. split; [exact Hnum|].
  exact (group_fraction_is_minimum Qflt_irrefl Qflt_trans Qflt_between
           two_models [two_models_group] two_models_group (1#4)%Q Hb Hin eq_refl Hnum).
Defined.

(** C4, counterexample: the fraction at the top level is not read when
    [quotaInfo] holds a reset time only. *)
Lemma quota_info_hides_top_level_fraction :
  dict_get split_entry "quotaInfo" (VDict []) = VDict [("resetTime", VStr "T")] /\
  assoc "remainingFraction" split_entry = Some (VFloat (1#2)%Q) /\
  extract_quota_fields split_entry = Ret (VNone, VStr "T") /\
  _build_antigravity_groups [("gemini-2.5-pro", VDict split_entry)] =
    Ret [ {| group_label := "Gemini 2.5 Pro"; remaining_fraction := None;
             reset_time := VStr ""; models := ["gemini-2.5-pro"] |} ].
Proof. repeat split; reflexivity. Qed.

(** C7, counterexample: the two members have different fractions, and the
    results for the two orders differ in the member list and in the reset
    time. *)
Lemma reordering_changes_members_and_reset :
  two_models ≡ₚ two_models_swapped /\
  _build_antigravity_groups two_models = Ret [two_models_group] /\
  _build_antigravity_groups two_models_swapped = Ret [two_models_swapped_group] /\
  flt (1#4)%Q (1#2)%Q = true /\
  models two_models_group <> models two_models_swapped_group /\
  reset_time two_models_group <> reset_time two_models_swapped_group.
Proof.
  split; [apply perm_swap|].
  repeat split; try reflexivity; discriminate.
Qed.

(** C7, witness. *)
Lemma groups_permutation_invariant_witness :
  two_models ≡ₚ two_models_swapped /\
  NoDup two_models.*1 /\
  _build_antigravity_groups two_models = Ret [two_models_group] /\
  exists gs', _build_antigravity_groups two_models_swapped = Ret gs' /\
    Forall2 (same_group two_models two_models_swapped) [two_models_group] gs'.
Proof.
  assert (two_models ≡ₚ two_models_swapped) as Hp by apply perm_swap.
  assert (NoDup two_models.*1) as Hnd.
  { apply (bool_decide_unpack _). exact I. }
  assert (_build_antigravity_groups two_models = Ret [two_models_group]) as Hb
    by reflexivity.
  split; [exact Hp|]. split; [exact Hnd|]. split; [exact Hb|].
  exact (groups_permutation_invariant Qflt_irrefl Qflt_trans
           two_models two_models_swapped [two_models_group] Hp Hnd Hb).
Defined.

(** C10, witness. *)
Lemma groups_nonempty_and_configured_witness :
  _build_antigravity_groups two_models = Ret [two_models_group] /\
  two_models_group ∈ [two_models_group] /\
  models two_models_group <> [] /\
  exists gdef, gdef ∈ ANTIGRAVITY_GROUPS /\ group_label two_models_group = gd_label gdef /\
    forall mid, mid ∈ models two_models_group ->
      mid ∈ gd_ids gdef /\ exists info, (mid, VDict info) ∈ two_models.
Proof.
  assert (_build_antigravity_groups two_models = Ret [two_models_group]) as Hb
    by reflexivity.
  assert (two_models_group ∈ [two_models_group]) as Hin by left.
  split; [exact Hb|]. split; [exact Hin|].
  exact (groups_nonempty_and_configured two_models [two_models_group] two_models_group Hb Hin).
Defined.

(** C2, counterexample: (1) the first endpoint answers 200 with a body
    that is not empty and a [models] mapping that is not empty, and the
    fetch raises instead of returning a success; (2) the first endpoint
    answers 200 with a list as body, the second with a good [models]
    mapping, and the fetch raises at the first without calling the
    second. *)
Lemma first_success_may_raise :
  (endpoint_succeeds (host := host_bad_model_entry)
     (proxied (host := host_bad_model_entry) (antigravity_payload (host := host_bad_model_entry) antigravity_account url_A))
     bad_models /\
   fetch_antigravity_quota (host := host_bad_model_entry) antigravity_account [] =
   (Raise AttributeError,
    [api_request (host := host_bad_model_entry) (antigravity_payload (host := host_bad_model_entry) antigravity_account url_A)]))
  /\
  (proxied (host := host_list_then_good) (antigravity_payload (host := host_list_then_good) antigravity_account url_A) =
     Ret (VDict [("status_code", VInt 200); ("body", VStr "[1]")]) /\
   json_loads (Host := host_list_then_good) "[1]" = inr (VList [VInt 1]) /\
   endpoint_succeeds (host := host_list_then_good)
     (proxied (host := host_list_then_good) (antigravity_payload (host := host_list_then_good) antigravity_account url_B))
     good_models /\
   fetch_antigravity_quota (host := host_list_then_good) antigravity_account [] =
   (Raise AttributeError,
    [api_request (host := host_list_then_good) (antigravity_payload (host := host_list_then_good) antigravity_account url_A)])).
Proof.
  split; split.
  - eexists _, _. repeat split; try reflexivity.
    + exists (NInt 200). by repeat split.
    + discriminate.
  - reflexivity.
  - reflexivity.
  - split; [reflexivity|]. split; [|reflexivity].
    eexists _, _. repeat split; try reflexivity.
    + exists (NInt 200). by repeat split.
    + discriminate.
Qed.


(** C2, witness: the third endpoint is the first that succeeds. *)
Lemma antigravity_first_success_witness :
  fetch_antigravity_quota (host := host_third_endpoint) antigravity_account [] =
  (Ret {| aq_email := VStr "v@y.com";
          aq_groups := [ {| group_label := "Gemini 2.5 Pro";
                            remaining_fraction := Some (2#5)%Q;
                            reset_time := VStr "2099-01-01T00:00:00Z";
                            models := ["gemini-2.5-pro"] |} ];
          aq_error := "" |},
   (fun url => api_request (host := host_third_endpoint)
                 (antigravity_payload (host := host_third_endpoint) antigravity_account url))
     <$> [url_A; url_B; url_C]).
Proof.
  assert (_build_antigravity_groups good_models =
          Ret [ {| group_label := "Gemini 2.5 Pro";
                   remaining_fraction := Some (2#5)%Q;
                   reset_time := VStr "2099-01-01T00:00:00Z";
                   models := ["gemini-2.5-pro"] |} ]) as Hgroups
    by reflexivity.
  rewrite (antigravity_first_success (host := host_third_endpoint)
             antigravity_account [] [url_A; url_B] url_C [] good_models).
  - rewrite Hgroups. reflexivity.
  - reflexivity.
  - reflexivity.
  - intros v Hv. apply elem_of_cons in Hv as [->|Hv].
    + exists "Connection error: timed out". constructor.
      assert (proxied (host := host_third_endpoint)
                (antigravity_payload (host := host_third_endpoint) antigravity_account url_A)
              = Raise (RuntimeError "Connection error: timed out")) as ->
        by reflexivity.
      constructor.
    + apply list_elem_of_singleton in Hv as ->.
      exists "HTTP 404". constructor.
      assert (proxied (host := host_third_endpoint)
                (antigravity_payload (host := host_third_endpoint) antigravity_account url_B)
              = Ret (VDict [("status_code", VInt 404); ("body", VStr "not found")])) as ->
        by reflexivity.
      by apply (fails_status _ (NInt 404)).
  - exists [ ("status_code", VInt 200);
             ("body", VStr (json_text (VDict [("models", VDict good_models)]))) ],
           [("models", VDict good_models)].
    split; [reflexivity|].
    split; [exists (NInt 200); split; [reflexivity|split; reflexivity]|].
    split; [reflexivity|].
    split; [reflexivity|].
    split; [reflexivity|discriminate].
Defined.




(** C6, witness. *)
Lemma fetch_codex_quota_missing_fields_witness :
  fetch_codex_quota (host := host_codex_usage) account_without_index [] =
    (Ret {| cq_email := VStr "w@x.com"; cq_plan_type := VStr "plus";
            cq_primary_used_pct := VNone; cq_primary_reset_seconds := VNone;
            cq_secondary_used_pct := VNone; cq_secondary_reset_seconds := VNone;
            cq_limit_reached := VBool false; cq_error := "missing auth_index" |}, []) /\
  fetch_codex_quota (host := host_codex_usage) account_without_id [] =
    (Ret {| cq_email := VStr "z@x.com"; cq_plan_type := VStr "";
            cq_primary_used_pct := VNone; cq_primary_reset_seconds := VNone;
            cq_secondary_used_pct := VNone; cq_secondary_reset_seconds := VNone;
            cq_limit_reached := VBool false;
            cq_error := "missing chatgpt_account_id" |}, []).
Proof.
  split.
  - exact (proj1 (fetch_codex_quota_missing_fields (host := host_codex_usage)
                    account_without_index []) eq_refl).
  - exact (proj2 (fetch_codex_quota_missing_fields (host := host_codex_usage)
                    account_without_id []) eq_refl eq_refl).
Defined.

(** C8, counterexample: the [status] of an entry that has none is
    ["unknown"], neither the empty string nor false. *)
Lemma absent_status_is_unknown :
  assoc "status" bare_codex_item = None /\
  exists af,
    get_auth_files (host := host_bare_directory) [] =
      (Ret [af], [directory_request (host := host_bare_directory)]) /\
    af_status af = VStr "unknown" /\
    af_status af <> VStr "" /\ af_status af <> VBool false.
Proof.
  split; [reflexivity|]. eexists. split; [reflexivity|]. simpl.
  repeat split; discriminate.
Qed.

(** C8, witness: the codex and the antigravity entry are kept, in that
    order, the claude entry is dropped. *)
Lemma get_auth_files_filters_witness :
  exists afs,
    get_auth_files (host := host_directory) [] =
      (Ret afs, [directory_request (host := host_directory)]) /\
    Forall2 auth_file_of (filter item_supported directory_items) afs.
Proof.
  apply (get_auth_files_filters (host := host_directory) []
           (json_text (VDict [("files", VList (VDict <$> directory_items))]))
           [("files", VList (VDict <$> directory_items))] directory_items).
  - reflexivity.
  - reflexivity.
  - reflexivity.
  - apply Forall_cons. split; [intros _; right; by eexists|].
    apply Forall_cons. split; [intros H; discriminate H|].
    apply Forall_cons. split; [intros H; discriminate H|].
    apply Forall_nil_2.
Defined.

(** C9, counterexample: a timestamp without UTC offset parses, lies in the
    future on the clock of the host (2026-11-03 12:00 UTC), and is
    rendered as the empty string. *)
Lemma naive_timestamp_renders_empty :
  fromisoformat (PyClock := example_clock) (replace_Z "2099-01-01T00:00:00") =
    Some {| ex_wall := 4070908800; ex_offset := None |} /\
  civil_from_days (4070908800 / 86400) = (2099, 1, 1) /\
  civil_from_days (1793707200 / 86400) = (2026, 11, 3) /\
  _fmt_reset_time (clock := example_clock) "2099-01-01T00:00:00" = Ret "" /\
  _fmt_reset_time (clock := example_clock) "2099-01-01T00:00:00Z" = Ret "1月1日 00:00".
Proof. repeat split; reflexivity. Qed.

(** C9, witness: on the host in UTC, and for the last item on the host
    five hours west of UTC. *)
Lemma reset_formatters_witness :
  _fmt_reset_abs (clock := example_clock) None = Ret "now" /\
  _fmt_reset_abs (clock := example_clock) (Some 0) = Ret "now" /\
  _fmt_reset_abs (clock := example_clock) (Some 3600) = Ret "11月3日 13:00" /\
  _fmt_reset_abs (clock := example_clock) (Some 1000000000000) = Raise OverflowError /\
  _fmt_reset_time (clock := example_clock) "soon" = Ret "" /\
  _fmt_reset_time (clock := example_clock) "2020-01-01T00:00:00Z" = Ret "resetting" /\
  _fmt_reset_time (clock := example_clock) "2099-01-01T00:00:00Z" = Ret "1月1日 00:00" /\
  _fmt_reset_time (clock := example_clock) "2099-01-01T00:00:00" = Ret "" /\
  _fmt_reset_time (clock := west_clock) "0001-01-01T00:00:00Z" = Raise OverflowError.
Proof.
  destruct (reset_formatters (clock := example_clock))
    as (Hnow & Hlater & Hover & _ & Hbad & Hgood & _).
  destruct (reset_formatters (clock := west_clock)) as (_ & _ & _ & _ & _ & _ & Hraise).
  split; [apply Hnow; by left|].
  split; [apply Hnow; right; exists 0; by split|].
  split; [by apply (Hlater 3600 {| ex_wall := 1793710800; ex_offset := None |})|].
  split; [by apply Hover|].
  split; [by apply Hbad|].
  split.
  { apply (Hgood "2020-01-01T00:00:00Z" {| ex_wall := 1577836800; ex_offset := Some 0 |}
             {| ex_wall := 1577836800; ex_offset := Some 0 |}); [done|reflexivity|reflexivity|].
    simpl. lia. }
  split.
  { apply (Hgood "2099-01-01T00:00:00Z" {| ex_wall := 4070908800; ex_offset := Some 0 |}
             {| ex_wall := 4070908800; ex_offset := Some 0 |}); [done|reflexivity|reflexivity|].
    simpl. lia. }
  split.
  { by apply (Hgood "2099-01-01T00:00:00" {| ex_wall := 4070908800; ex_offset := None |}
                {| ex_wall := 4070908800; ex_offset := Some 0 |}). }
  exact (Hraise "0001-01-01T00:00:00Z" {| ex_wall := -62135596800; ex_offset := Some 0 |}
           OverflowError ltac:(done) eq_refl eq_refl).
Defined.

End Examples.

Section NanExamples.

#[local] Existing Instance NanFloat.

(** With a NaN among the fractions of a group the fraction the group ends
    with depends on the order of the input: [x < NaN] and [NaN < x] are
    false, so the group keeps NaN when the member that shows it comes
    first and one quarter when it comes second. *)
Lemma nan_fraction_depends_on_order :
  nan_models ≡ₚ nan_models_swapped /\
  ~ is_number (None : float) /\
  _build_antigravity_groups nan_models =
    Ret [ {| group_label := "Gemini 3 Pro"; remaining_fraction := Some None;
             reset_time := VStr "";
             models := ["gemini-3-pro-high"; "gemini-3-pro-low"] |} ] /\
  _build_antigravity_groups nan_models_swapped =
    Ret [ {| group_label := "Gemini 3 Pro"; remaining_fraction := Some (Some (1#4)%Q);
             reset_time := VStr "";
             models := ["gemini-3-pro-low"; "gemini-3-pro-high"] |} ].
Proof.
  split; [apply perm_swap|]. split; [|split; reflexivity].
  intros [y [H|H]]; [discriminate H|]. destruct y; discriminate H.
Qed.

End NanExamples.

(** * More on the aggregator *)

Lemma outcome_bind_Ret {A B} (m : outcome A) (f : A -> outcome B) b :
  m ≫= f = Ret b -> exists a, m = Ret a /\ f a = Ret b.
Proof. destruct m as [a|e]; [by exists a|intros H; discriminate H]. Qed.

Lemma outcome_bind_Raise {A B} (m : outcome A) (f : A -> outcome B) e :
  m ≫= f = Raise e -> m = Raise e \/ exists a, m = Ret a /\ f a = Raise e.
Proof. destruct m as [a|e']; [by right; exists a|intros [= ->]; by left]. Qed.

Section AggregatorCoverage.

Context {pf : PyFloat}.

Local Arguments py_float : simpl never.
Local Arguments extract_quota_fields : simpl never.

(** The lookup table holds every model id of every configured group: no
    id is listed by two groups. *)
Lemma model_to_group_complete gdef mid :
  gdef ∈ ANTIGRAVITY_GROUPS -> mid ∈ gd_ids gdef -> model_to_group !! mid = Some gdef.
Proof.
  intros Hg Hm.
  assert (Forall (fun g => Forall (fun m => model_to_group !! m = Some g) (gd_ids g))
                 ANTIGRAVITY_GROUPS) as Hall.
  { repeat (constructor; [repeat (constructor; [vm_compute; reflexivity|]); constructor|]).
    constructor. }
  rewrite Forall_forall in Hall. specialize (Hall _ Hg).
  rewrite Forall_forall in Hall. by apply Hall.
Qed.

Opaque model_to_group.

Lemma entry_contrib_None e :
  entry_contrib e = Ret None ->
  match snd e with VDict _ => model_to_group !! fst e = None | _ => True end.
Proof.
  destruct e as [mid info]. unfold entry_contrib. cbn [fst snd].
  destruct info; try exact (fun _ => I).
  intros (fields & _ & H)%outcome_bind_Ret.
  destruct (model_to_group !! mid) as [gdef|] eqn:Hm; [|reflexivity].
  destruct (fields.1); try discriminate H.
  all: apply outcome_bind_Ret in H as (frac & _ & [=]).
Qed.

Lemma entry_contrib_configured e c :
  entry_contrib e = Ret c -> is_Some c <-> configured_record e = true.
Proof.
  intros He. unfold configured_record. destruct c as [c|].
  - apply entry_contrib_Some in He as (info & -> & Hm & _). cbn [fst snd].
    rewrite Hm. split; [intros _; by apply bool_decide_eq_true|by eauto].
  - apply entry_contrib_None in He. split; [by intros [? ?]|].
    destruct (snd e) as [| | | | | |d]; [intros [=]..|]. rewrite He.
    intros H%bool_decide_eq_true. by destruct H.
Qed.

Lemma entry_contrib_mid e c : entry_contrib e = Ret (Some c) -> c_mid c = fst e.
Proof. by intros (info & -> & _)%entry_contrib_Some. Qed.

(** The contributions are those of the entries the loop acts on. *)
Lemma contributions_filter raw : forall cs,
  contributions raw = Ret cs ->
  contributions (filter (fun e => configured_record e = true) raw) = Ret cs /\
  c_mid <$> cs = fst <$> filter (fun e => configured_record e = true) raw.
Proof.
  induction raw as [|e raw IH]; intros cs Hcs.
  - injection Hcs as <-. done.
  - apply contributions_cons_inv in Hcs as (c & cs' & He & Hraw & ->).
    destruct (IH _ Hraw) as [IH1 IH2].
    pose proof (entry_contrib_configured _ _ He) as Hconf.
    rewrite filter_cons. destruct c as [c|].
    + rewrite decide_True by (apply Hconf; eauto).
      simpl. rewrite He. simpl. rewrite IH1. simpl. split; [done|].
      csimpl. f_equal; [by apply entry_contrib_mid|exact IH2].
    + rewrite decide_False; [done|].
      intros Hc. apply Hconf in Hc. by destruct Hc.
Qed.

Lemma build_groups_of_contributions raw cs :
  contributions raw = Ret cs ->
  _build_antigravity_groups raw = Ret (sorted_by_label ((foldl apply_contrib [] cs).*2)).
Proof.
  intros Hcs. unfold _build_antigravity_groups.
  by rewrite aggregate_loop_contributions, Hcs.
Qed.

(** The label stored under a key of [group_data] is the label of the
    configured group with that id. *)
Lemma group_data_labels raw cs :
  contributions raw = Ret cs ->
  forall k g, (k, g) ∈ foldl apply_contrib [] cs ->
    exists gdef, gdef ∈ ANTIGRAVITY_GROUPS /\ gd_id gdef = k /\ group_label g = gd_label gdef.
Proof.
  intros Hcs k g Hin.
  assert (k ∈ (foldl apply_contrib [] cs).*1) as Hk.
  { apply list_elem_of_fmap. by exists (k, g). }
  destruct (group_data_lookup _ _ _ Hcs Hk) as (c0 & l & _ & Ha & Hid & Hg & _).
  apply elem_assoc_NoDup in Hin; [|apply foldl_apply_keys_NoDup, NoDup_nil_2].
  rewrite Ha in Hin. injection Hin as <-.
  exists (c_gdef c0). split; [done|]. split; [done|].
  by rewrite ?run_group_label, ?update_group_label.
Qed.

Lemma group_data_labels_NoDup raw cs :
  contributions raw = Ret cs ->
  NoDup (group_label <$> (foldl apply_contrib [] cs).*2).
Proof.
  intros Hcs. set (gd := foldl apply_contrib [] cs).
  assert (NoDup gd.*1) as Hk by apply foldl_apply_keys_NoDup, NoDup_nil_2.
  assert (forall k g, (k, g) ∈ gd -> exists gdef,
            gdef ∈ ANTIGRAVITY_GROUPS /\ gd_id gdef = k /\ group_label g = gd_label gdef)
    as Hlab by apply (group_data_labels raw cs Hcs).
  clearbody gd. induction gd as [|[k g] gd IH]; csimpl; [apply NoDup_nil_2|].
  apply NoDup_cons in Hk as [Hk Hnd]. apply NoDup_cons. split.
  - intros Hin. apply list_elem_of_fmap in Hin as (g' & Hl & Hin).
    apply list_elem_of_fmap in Hin as ([k' g''] & -> & Hin). simpl in Hl.
    destruct (Hlab k g) as (gdef & Hg & Hid & Hgl); [left|].
    destruct (Hlab k' g'') as (gdef' & Hg' & Hid' & Hgl'); [by right|].
    assert (gdef = gdef') as <-.
    { apply (NoDup_fmap_eq gd_label ANTIGRAVITY_GROUPS);
        [apply ANTIGRAVITY_GROUPS_labels|done..|congruence]. }
    apply Hk. apply list_elem_of_fmap. exists (k', g''). split; [simpl; congruence|done].
  - apply IH; [done|]. intros k' g' Hin. apply Hlab. by right.
Qed.

(** X1. The groups come out in increasing order of label, no label twice,
    and there are at most as many as configured groups. *)
Theorem groups_sorted_by_distinct_labels raw gs :
  _build_antigravity_groups raw = Ret gs ->
  Sorted label_le gs /\ NoDup (group_label <$> gs) /\
  (length gs <= length ANTIGRAVITY_GROUPS)%nat.
Proof.
  intros (cs & Hcs & _ & ->)%build_groups_inv.
  split; [apply sorted_by_label_Sorted|].
  assert (NoDup (group_label <$> sorted_by_label (foldl apply_contrib [] cs).*2)) as Hnd.
  { rewrite sorted_by_label_perm. by apply (group_data_labels_NoDup raw). }
  split; [done|].
  rewrite <-(length_fmap group_label), <-(length_fmap gd_label ANTIGRAVITY_GROUPS).
  apply submseteq_length, NoDup_submseteq; [done|].
  intros lab Hin. rewrite sorted_by_label_perm in Hin.
  apply list_elem_of_fmap in Hin as (g & -> & Hin).
  apply list_elem_of_fmap in Hin as ([k g'] & -> & Hin).
  destruct (group_data_labels _ _ Hcs _ _ Hin) as (gdef & Hg & _ & Hl).
  cbn [snd]. rewrite Hl. by apply list_elem_of_fmap_2.
Qed.

(** X2. Every entry that is a record under a model id of a configured group is
    a member of the returned group with the label of that group. *)
Theorem configured_entry_is_member raw gs mid info gdef :
  _build_antigravity_groups raw = Ret gs ->
  (mid, VDict info) ∈ raw ->
  gdef ∈ ANTIGRAVITY_GROUPS -> mid ∈ gd_ids gdef ->
  exists g, g ∈ gs /\ group_label g = gd_label gdef /\ mid ∈ models g.
Proof.
  intros (cs & Hcs & _ & ->)%build_groups_inv Hin Hg Hmid.
  pose proof (model_to_group_complete _ _ Hg Hmid) as Hm.
  assert (exists c, c ∈ cs /\ c_mid c = mid /\ c_gdef c = gdef) as (c & Hc & Hcm & Hcg).
  { assert (configured_record (mid, VDict info) = true) as Hconf.
    { unfold configured_record. cbn [fst snd]. rewrite Hm. by apply bool_decide_eq_true. }
    revert cs Hcs. induction raw as [|e raw IH]; intros cs Hcs.
    - by apply elem_of_nil in Hin.
    - apply contributions_cons_inv in Hcs as (c & cs' & He & Hraw & ->).
      apply elem_of_cons in Hin as [<-|Hin].
      + apply (entry_contrib_configured _ _ He) in Hconf as [c' ->].
        apply entry_contrib_Some in He as (info' & [= Hmid' _] & Hm' & _).
        exists c'. split; [left|]. split; [done|]. rewrite <-Hmid' in Hm'. congruence.
      + destruct (IH Hin _ Hraw) as (c' & Hc' & ?). exists c'.
        split; [|done]. destruct c; [by right|done]. }
  set (gid := gd_id gdef).
  assert (gid ∈ (foldl apply_contrib [] cs).*1) as Hk.
  { apply foldl_apply_keys. exists c. split; [done|]. unfold in_gid. by rewrite Hcg. }
  destruct (group_data_lookup _ _ _ Hcs Hk) as (c0 & l & Hf & Ha & Hid & Hg0 & Hc0).
  exists (run_group (fresh_group (c_gdef c0)) (c0 :: l)).
  assert (c_gdef c0 = gdef) as Hsame.
  { apply (NoDup_fmap_eq gd_id ANTIGRAVITY_GROUPS); [apply ANTIGRAVITY_GROUPS_ids|done..]. }
  split; [|split].
  - rewrite sorted_by_label_perm. apply list_elem_of_fmap.
    exists (gid, run_group (fresh_group (c_gdef c0)) (c0 :: l)). split; [done|].
    by apply assoc_Some_elem.
  - by rewrite run_group_label, Hsame.
  - rewrite run_group_models. simpl. rewrite <-Hcm.
    apply (list_elem_of_fmap_2 c_mid (c0 :: l) c). rewrite <-Hf.
    apply list_elem_of_filter. split; [|done]. unfold in_gid. by rewrite Hcg.
Qed.

(** X3. Entries that are not records, or whose key is no model id of the
    configuration, have no part in the result. *)
Theorem unconfigured_entries_have_no_effect raw gs :
  _build_antigravity_groups raw = Ret gs ->
  _build_antigravity_groups (filter (fun e => configured_record e = true) raw) = Ret gs.
Proof.
  intros (cs & Hcs & _ & ->)%build_groups_inv.
  apply build_groups_of_contributions. by apply contributions_filter.
Qed.

Lemma contributions_elem_Ret raw : forall cs e,
  contributions raw = Ret cs -> e ∈ raw -> exists c, entry_contrib e = Ret c.
Proof.
  induction raw as [|e' raw IH]; intros cs e Hcs Hin.
  - by apply elem_of_nil in Hin.
  - apply contributions_cons_inv in Hcs as (c & cs' & He & Hraw & _).
    apply elem_of_cons in Hin as [->|Hin]; [by exists c|by apply (IH cs')].
Qed.

(** X4. A group that comes out without a fraction has the empty reset time,
    and the loop read no fraction from any of its members. *)
Theorem group_without_fraction raw gs g :
  _build_antigravity_groups raw = Ret gs -> g ∈ gs ->
  remaining_fraction g = None ->
  reset_time g = VStr "" /\
  forall mid info, mid ∈ models g -> (mid, VDict info) ∈ raw ->
    exists reset, observed_quota info = Ret (None, reset).
Proof.
  intros Hb Hg Hnone.
  destruct (build_groups_elem _ _ _ Hb Hg) as (cs & c0 & l & Hcs & Hf & ->).
  apply run_group_None in Hnone as (_ & Hreset & Hall).
  split; [by rewrite Hreset|].
  intros mid info Hmid Hin.
  rewrite run_group_models in Hmid. cbn [models fresh_group app] in Hmid.
  apply list_elem_of_fmap in Hmid as (c1 & -> & Hc1).
  assert (c1 ∈ cs /\ in_gid (gd_id (c_gdef c0)) c1) as [Hc1cs Hc1id].
  { rewrite <-Hf in Hc1. by apply list_elem_of_filter in Hc1 as [? ?]. }
  destruct (contributions_elem_inv _ _ _ Hcs Hc1cs)
    as (e1 & _ & (i1 & _ & Hmg & _)%entry_contrib_Some).
  destruct (contributions_elem_Ret _ _ _ Hcs Hin) as [c He].
  assert (configured_record (c_mid c1, VDict info) = true) as Hconf.
  { unfold configured_record. cbn [fst snd]. rewrite Hmg. by apply bool_decide_eq_true. }
  apply (entry_contrib_configured _ _ He) in Hconf as [c2 ->].
  pose proof (contributions_elem _ _ _ _ Hcs Hin He) as Hc2.
  apply entry_contrib_Some in He as (info' & [= Hmid2 <-] & Hmg2 & Hobs).
  assert (c2 ∈ c0 :: l) as Hc2l.
  { rewrite <-Hf. apply list_elem_of_filter. split; [|done].
    unfold in_gid in *. rewrite <-Hmid2, Hmg in Hmg2. injection Hmg2 as <-. done. }
  exists (c_reset c2). by rewrite Hobs, (Hall c2 Hc2l).
Qed.

Lemma concat_fmap_perm {A B} (f : A -> list B) (l l' : list A) :
  l ≡ₚ l' -> concat (f <$> l) ≡ₚ concat (f <$> l').
Proof.
  induction 1 as [|x l l' _ IH|x y l|l l' l'' _ IH1 _ IH2]; csimpl.
  - done.
  - by rewrite IH.
  - rewrite !(assoc_L (++)). by rewrite (comm (++) (f y) (f x)).
  - by rewrite IH1.
Qed.

Lemma assoc_alter_members (f : AntigravityModelQuota -> AntigravityModelQuota) m k :
  (forall g, models (f g) = models g ++ [m]) ->
  forall d, is_Some (assoc k d) ->
  concat (models <$> (assoc_alter f k d).*2) ≡ₚ concat (models <$> d.*2) ++ [m].
Proof.
  intros Hf d. induction d as [|[k' g] d IH]; intros Hk.
  - by destruct Hk.
  - cbn [assoc assoc_alter] in *. destruct (String.eqb k' k); csimpl.
    + rewrite Hf. rewrite <-!(assoc_L (++)).
      apply Permutation_app_head, Permutation_app_comm.
    + rewrite (IH Hk). by rewrite (assoc_L (++)).
Qed.

Lemma apply_contrib_members gd c :
  concat (models <$> (apply_contrib gd c).*2) ≡ₚ concat (models <$> gd.*2) ++ [c_mid c].
Proof.
  unfold apply_contrib.
  destruct (assoc (gd_id (c_gdef c)) gd) as [g|] eqn:Ha.
  - apply assoc_alter_members; [apply update_group_models|by rewrite Ha].
  - rewrite assoc_alter_members with (m := c_mid c); [|apply update_group_models|].
    + rewrite !fmap_app, concat_app. csimpl. by rewrite !app_nil_r.
    + rewrite assoc_app, Ha. cbn [assoc]. rewrite String.eqb_refl. by eexists.
Qed.

Lemma foldl_apply_members cs : forall gd,
  concat (models <$> (foldl apply_contrib gd cs).*2)
  ≡ₚ concat (models <$> gd.*2) ++ (c_mid <$> cs).
Proof.
  induction cs as [|c cs IH]; intros gd; csimpl.
  - by rewrite app_nil_r.
  - rewrite IH, apply_contrib_members. by rewrite <-(assoc_L (++)).
Qed.

(** X5. The member lists of the groups hold, between them, the keys of the
    entries the loop acts on, each as often as it occurs in the input:
    no such entry is left out and none is listed twice. *)
Theorem members_are_the_configured_records raw gs :
  _build_antigravity_groups raw = Ret gs ->
  concat (models <$> gs) ≡ₚ fst <$> filter (fun e => configured_record e = true) raw.
Proof.
  intros (cs & Hcs & _ & ->)%build_groups_inv.
  rewrite (concat_fmap_perm models _ _ (sorted_by_label_perm _)).
  rewrite foldl_apply_members. csimpl.
  by destruct (contributions_filter _ _ Hcs) as [_ ->].
Qed.

Transparent model_to_group.

End AggregatorCoverage.

(** * More on the fetchers and the directory client *)

Section FetchCoverage.

Context {pf : PyFloat} {host : Host}.

Local Arguments _build_antigravity_groups : simpl never.
Local Arguments decode_body : simpl never.
Local Arguments status_not_2xx : simpl never.
Local Arguments proxied : simpl never.
Local Arguments api_request : simpl never.
Local Arguments antigravity_payload : simpl never.
Local Arguments codex_payload : simpl never.

Lemma eff_bind_unfold {S A B} (m : Eff S A) (f : A -> Eff S B) s :
  (m ≫= f) s = match m s with
               | (Ret a, s') => f a s'
               | (Raise e, s') => (Raise e, s')
               end.
Proof. reflexivity. Qed.

Lemma eff_bind_lift {S A B} (o : outcome A) (f : A -> Eff S B) s :
  (lift o ≫= f) s = match o with
                    | Ret a => f a s
                    | Raise e => (Raise e, s)
                    end.
Proof. by destruct o. Qed.

Lemma eff_bind_api_call {B} payload (f : value -> Eff Log B) log :
  (api_call payload ≫= f) log =
  match proxied payload with
  | Ret v => f v (log ++ [api_request payload])
  | Raise e => (Raise e, log ++ [api_request payload])
  end.
Proof. rewrite eff_bind_unfold, api_call_log. by destruct (proxied payload). Qed.

(** One pass of the loop over the endpoints sends one request, however it
    ends. *)
Lemma antigravity_try_log af url log :
  snd (antigravity_try af url log) = log ++ [api_request (antigravity_payload af url)].
Proof.
  unfold antigravity_try. rewrite eff_bind_api_call.
  destruct (proxied _) as [result|e]; [|done].
  rewrite eff_bind_lift. destruct (py_get result _ _) as [status_code|e]; [|done].
  rewrite eff_bind_lift. destruct (status_not_2xx _) as [[b n]|e]; [|done].
  cbn [fst snd]. destruct b; [done|].
  rewrite eff_bind_lift. destruct (py_get result _ _) as [body_str|e]; [|done].
  destruct (negb _); [done|].
  rewrite eff_bind_lift. destruct (decode_body _) as [body|e]; [|done].
  rewrite eff_bind_lift. destruct (py_get body _ _) as [models|e]; [|done].
  destruct models as [| | | | | |[|entry entries]]; try done.
  rewrite eff_bind_lift. by destruct (_build_antigravity_groups _).
Qed.

Lemma try_except_log {A} (body : Eff Log A) caught (handler : exn -> Eff Log A) log :
  (forall e s, snd (handler e s) = s) ->
  snd (try_except body caught handler log) = snd (body log).
Proof.
  intros Hh. unfold try_except. destruct (body log) as [[a|e] s]; [done|].
  destruct (caught e); [apply Hh|done].
Qed.

Lemma antigravity_loop_log af urls : forall last_error log,
  exists n, (n <= length urls)%nat /\ (urls <> [] -> n <> 0%nat) /\
    snd (antigravity_loop af last_error urls log) =
    log ++ ((fun url => api_request (antigravity_payload af url)) <$> take n urls).
Proof.
  induction urls as [|url urls IH]; intros last_error log.
  - exists 0%nat. split; [done|]. split; [done|]. cbn. by rewrite app_nil_r.
  - cbn [antigravity_loop]. rewrite eff_bind_unfold.
    pose proof (try_except_log (antigravity_try af url) antigravity_caught
                  (fun exc => mret (Continue (exn_str exc))) log (fun _ _ => eq_refl)) as Hlog.
    rewrite antigravity_try_log in Hlog.
    destruct (try_except _ _ _ log) as [[a|e] log1]; cbn [snd] in Hlog; subst log1.
    + destruct a as [err|groups].
      * destruct (IH err (log ++ [api_request (antigravity_payload af url)]))
          as (n & Hn & _ & ->).
        exists (S n). split; [cbn; lia|]. split; [done|].
        csimpl. by rewrite <-(assoc_L (++)).
      * exists 1%nat. split; [cbn; lia|]. split; [done|]. cbn [snd]. by csimpl.
    + exists 1%nat. split; [cbn; lia|]. split; [done|]. cbn [snd]. by csimpl.
Qed.


Lemma py_get_Ret v k dflt r :
  py_get v k dflt = Ret r -> exists d, v = VDict d /\ r = dict_get d k dflt.
Proof. destruct v; try discriminate. intros [= <-]. by eexists. Qed.

Lemma status_not_2xx_false v n : status_not_2xx v = Ret (false, n) -> is_2xx v.
Proof.
  unfold status_not_2xx, is_2xx. destruct (as_number v) as [m|]; [|discriminate].
  intros [= Hb ->]. exists n. split; [done|]. by apply orb_false_elim in Hb.
Qed.

(** An endpoint at which the loop stops with groups is one that
    succeeds. *)
Lemma antigravity_try_Return af url log groups log' :
  try_except (antigravity_try af url) antigravity_caught
             (fun exc => mret (Continue (exn_str exc))) log = (Ret (Return groups), log') ->
  exists models,
    endpoint_succeeds (proxied (antigravity_payload af url)) models /\
    _build_antigravity_groups models = Ret groups.
Proof.
  unfold try_except.
  destruct (antigravity_try af url log) as [[a|e] log1] eqn:Htry.
  2: { destruct (antigravity_caught e); [|discriminate]. intros [=]. }
  intros [= -> ->]. revert Htry.
  unfold antigravity_try. rewrite eff_bind_api_call.
  destruct (proxied _) as [result|e] eqn:Hres; [|discriminate].
  rewrite eff_bind_lift.
  destruct (py_get result _ _) as [status_code|e] eqn:Hstatus; [|discriminate].
  apply py_get_Ret in Hstatus as (d & -> & ->).
  rewrite eff_bind_lift. destruct (status_not_2xx _) as [[b n]|e] eqn:Hcheck; [|discriminate].
  cbn [fst snd]. destruct b; [discriminate|].
  apply status_not_2xx_false in Hcheck.
  rewrite eff_bind_lift. cbn [py_get].
  destruct (truthy (dict_get d "body" (VStr ""))) eqn:Hbody; cbn [negb]; [|discriminate].
  rewrite eff_bind_lift. destruct (decode_body _) as [body|e] eqn:Hdec; [|discriminate].
  rewrite eff_bind_lift. destruct (py_get body _ _) as [models|e] eqn:Hmodels; [|discriminate].
  apply py_get_Ret in Hmodels as (bd & -> & ->).
  destruct (dict_get bd "models" (VDict [])) as [| | | | | |[|entry entries]] eqn:Hm;
    try discriminate.
  rewrite eff_bind_lift.
  destruct (_build_antigravity_groups _) as [gs|e] eqn:Hb; [|discriminate].
  intros [= <- _]. exists (entry :: entries). split; [|done].
  exists d, bd. by repeat (split; [done|]).
Qed.

Lemma final_error_not_empty last_error : final_error last_error <> "".
Proof. unfold final_error. by destruct (String.eqb_spec last_error ""). Qed.

Lemma antigravity_loop_Ret af urls : forall last_error log q log',
  antigravity_loop af last_error urls log = (Ret q, log') ->
  aq_email q = af_email af /\
  ((aq_error q <> "" /\ aq_groups q = []) \/
   (aq_error q = "" /\ exists url models, url ∈ urls /\
       endpoint_succeeds (proxied (antigravity_payload af url)) models /\
       _build_antigravity_groups models = Ret (aq_groups q))).
Proof.
  induction urls as [|url urls IH]; intros last_error log q log'.
  - intros [= <- _]. split; [done|]. left. split; [apply final_error_not_empty|done].
  - cbn [antigravity_loop]. rewrite eff_bind_unfold.
    destruct (try_except _ _ _ log) as [[a|e] log1] eqn:Htry; [|discriminate].
    destruct a as [err|groups].
    + intros Hloop. destruct (IH _ _ _ _ Hloop) as [Hemail [Herr|(Herr & u & models & Hu & ?)]].
      * split; [done|]. by left.
      * split; [done|]. right. split; [done|]. exists u, models. split; [by right|done].
    + intros [= <- _]. split; [done|]. right. split; [done|].
      destruct (antigravity_try_Return _ _ _ _ _ Htry) as (models & ? & ?).
      exists url, models. split; [left|done].
Qed.

(** X7. What the Antigravity fetcher returns carries the email of the record
    and either an error and no group, or no error and the groups built
    from the models of an endpoint that succeeded. *)
Theorem antigravity_result_shape af log q :
  fst (fetch_antigravity_quota af log) = Ret q ->
  aq_email q = af_email af /\
  ((aq_error q <> "" /\ aq_groups q = []) \/
   (aq_error q = "" /\ exists url models, url ∈ ANTIGRAVITY_QUOTA_URLS /\
       endpoint_succeeds (proxied (antigravity_payload af url)) models /\
       _build_antigravity_groups models = Ret (aq_groups q))).
Proof.
  unfold fetch_antigravity_quota. destruct (truthy (af_auth_index af)); cbn [negb].
  - destruct (antigravity_loop af "" ANTIGRAVITY_QUOTA_URLS log) as [r log'] eqn:Hloop.
    cbn [fst]. intros ->. by apply (antigravity_loop_Ret _ _ _ _ _ _ Hloop).
  - intros [= <-]. split; [done|]. by left.
Qed.

Lemma eff_bind_on_log_api_call {Q B} payload (f : value -> Eff (Log * Q) B) log (q : Q) :
  (on_log (api_call payload) ≫= f) (log, q) =
  match proxied payload with
  | Ret v => f v (log ++ [api_request payload], q)
  | Raise e => (Raise e, (log ++ [api_request payload], q))
  end.
Proof.
  rewrite eff_bind_unfold. unfold on_log. cbn [fst snd]. rewrite api_call_log.
  by destruct (proxied payload).
Qed.

Lemma eff_bind_modify {Q B} (g : Q -> Q) (f : unit -> Eff (Log * Q) B) s :
  (modify g ≫= f) s = f tt (fst s, g (snd s)).
Proof. reflexivity. Qed.

Lemma py_get_Raise v k dflt e : py_get v k dflt = Raise e -> e = AttributeError.
Proof. destruct v; try discriminate; by intros [= <-]. Qed.

Lemma read_window_run window set_used set_reset log q r log' q' :
  window_setter_keeps set_used -> window_setter_keeps set_reset ->
  read_window window set_used set_reset (log, q) = (r, (log', q')) ->
  log' = log /\ cq_email q' = cq_email q /\ cq_error q' = cq_error q /\
  forall e, r = Raise e -> e = AttributeError.
Proof.
  intros Hu Hr. unfold read_window. destruct (truthy window).
  2: { unfold mret, eff_ret. intros [= <- <- <-]. by repeat split. }
  rewrite eff_bind_lift. destruct (py_get window _ _) as [used|e] eqn:Hused.
  2: { intros [= <- <- <-]. apply py_get_Raise in Hused. repeat split; try done.
       by intros ? [= <-]. }
  rewrite eff_bind_modify, eff_bind_lift. cbn [fst snd].
  destruct (py_get window "reset_after_seconds" _) as [reset|e] eqn:Hreset.
  2: { intros [= <- <- <-]. apply py_get_Raise in Hreset.
       destruct (Hu used q) as [? ?]. repeat split; try done. by intros ? [= <-]. }
  intros [= <- <- <-]. destruct (Hu used q) as [? ?].
  destruct (Hr reset (set_used used q)) as [? ?].
  repeat split; congruence.
Qed.

(** The body of the [try] of the Codex fetcher sends one request. An
    exception that the handler names leaves the quota object as it was;
    when the body ends, the quota object has the error the body stored or
    the error it had. *)
Lemma codex_try_run af log q0 r log1 q1 :
  codex_try af (log, q0) = (r, (log1, q1)) ->
  log1 = log ++ [api_request (codex_payload af)] /\
  cq_email q1 = cq_email q0 /\
  match r with
  | Ret _ => (exists msg, q1 = set_cq_error msg q0) \/ cq_error q1 = cq_error q0
  | Raise e => codex_caught e = true -> q1 = q0
  end.
Proof.
  unfold codex_try. rewrite eff_bind_on_log_api_call.
  destruct (proxied _) as [result|e]; [|by intros [= <- <- <-]].
  rewrite eff_bind_lift. destruct (py_get result _ _) as [status_code|e]; [|by intros [= <- <- <-]].
  rewrite eff_bind_lift. destruct (status_not_2xx _) as [[b n]|e]; [|by intros [= <- <- <-]].
  cbn [fst snd]. destruct b.
  { intros [= <- <- <-]. split; [done|]. split; [done|]. left. by eexists. }
  rewrite eff_bind_lift. destruct (py_get result "body" _) as [body_str|e]; [|by intros [= <- <- <-]].
  destruct (negb _).
  { intros [= <- <- <-]. split; [done|]. split; [done|]. left. by eexists. }
  rewrite eff_bind_lift. destruct (decode_body _) as [body|e]; [|by intros [= <- <- <-]].
  rewrite eff_bind_lift. destruct (py_get body _ _) as [plan|e] eqn:Hplan.
  2: { intros [= <- <- <-]. apply py_get_Raise in Hplan as ->. by repeat split. }
  rewrite eff_bind_modify, eff_bind_lift. cbn [fst snd].
  destruct (py_get body "rate_limit" _) as [rate_limit|e] eqn:Hrate.
  2: { intros [= <- <- <-]. apply py_get_Raise in Hrate as ->. by repeat split. }
  rewrite eff_bind_lift. destruct (py_get rate_limit _ _) as [reached|e] eqn:Hreached.
  2: { intros [= <- <- <-]. apply py_get_Raise in Hreached as ->. by repeat split. }
  rewrite eff_bind_modify, eff_bind_lift. cbn [fst snd].
  destruct (py_get rate_limit "primary_window" _) as [primary|e] eqn:Hprimary.
  2: { intros [= <- <- <-]. apply py_get_Raise in Hprimary as ->. by repeat split. }
  rewrite eff_bind_unfold.
  destruct (read_window primary _ _ _) as [r1 [log2 q2]] eqn:H1.
  apply read_window_run in H1 as (-> & He1 & Hr1 & Hraise1); [|by intros ? ?..].
  destruct r1 as [[]|e].
  2: { intros [= <- <- <-]. rewrite (Hraise1 e eq_refl). by repeat split. }
  rewrite eff_bind_lift. destruct (py_get rate_limit "secondary_window" _) as [secondary|e] eqn:Hsecondary.
  2: { intros [= <- <- <-]. apply py_get_Raise in Hsecondary as ->. by repeat split. }
  intros H2. apply read_window_run in H2 as (-> & He2 & Hr2 & Hraise2); [|by intros ? ?..].
  cbn in He1, Hr1. split; [done|]. split; [congruence|].
  destruct r as [[]|e]; [right; congruence|].
  by rewrite (Hraise2 e eq_refl).
Qed.

Lemma fetch_codex_quota_log af log :
  exists rest, snd (fetch_codex_quota af log) = log ++ rest.
Proof.
  unfold fetch_codex_quota.
  destruct (truthy (af_auth_index af)); cbn [negb]; [|exists []; by rewrite app_nil_r].
  destruct (truthy (af_chatgpt_account_id af)); cbn [negb]; [|exists []; by rewrite app_nil_r].
  unfold try_except.
  destruct (codex_try af (log, new_codex_quota af)) as [r [log1 q1]] eqn:Htry.
  apply codex_try_run in Htry as (-> & _ & _). eexists.
  destruct r as [[]|e]; [done|]. by destruct (codex_caught e).
Qed.

Lemma fetch_codex_quota_email af log q :
  fst (fetch_codex_quota af log) = Ret q -> cq_email q = af_email af.
Proof.
  unfold fetch_codex_quota.
  destruct (truthy (af_auth_index af)); cbn [negb]; [|by intros [= <-]].
  destruct (truthy (af_chatgpt_account_id af)); cbn [negb]; [|by intros [= <-]].
  unfold try_except.
  destruct (codex_try af (log, new_codex_quota af)) as [r [log1 q1]] eqn:Htry.
  apply codex_try_run in Htry as (_ & Hemail & _).
  destruct r as [[]|e]; [by intros [= <-]|].
  destruct (codex_caught e); [|discriminate]. by intros [= <-].
Qed.

Lemma fetch_antigravity_quota_log af log :
  exists rest, snd (fetch_antigravity_quota af log) = log ++ rest.
Proof.
  unfold fetch_antigravity_quota. destruct (truthy (af_auth_index af)); cbn [negb].
  - destruct (antigravity_loop_log af ANTIGRAVITY_QUOTA_URLS "" log) as (n & _ & _ & ->).
    by eexists.
  - exists []. cbn. by rewrite app_nil_r.
Qed.

Lemma fetch_antigravity_quota_email af log q :
  fst (fetch_antigravity_quota af log) = Ret q -> aq_email q = af_email af.
Proof.
  unfold fetch_antigravity_quota. destruct (truthy (af_auth_index af)); cbn [negb].
  - destruct (antigravity_loop af "" ANTIGRAVITY_QUOTA_URLS log) as [r log'] eqn:Hloop.
    cbn [fst]. intros ->. by apply (antigravity_loop_Ret _ _ _ _ _ _ Hloop).
  - by intros [= <-].
Qed.


(** X9. What the Codex fetcher returns carries the email of the record, and a
    result with an error is the initial result with that error: no plan
    type and no usage figure of the response is in it. *)
Theorem codex_error_result_is_initial af log q :
  fst (fetch_codex_quota af log) = Ret q ->
  cq_email q = af_email af /\
  (cq_error q <> "" -> q = set_cq_error (cq_error q) (new_codex_quota af)).
Proof.
  unfold fetch_codex_quota.
  destruct (truthy (af_auth_index af)); cbn [negb]; [|by intros [= <-]].
  destruct (truthy (af_chatgpt_account_id af)); cbn [negb]; [|by intros [= <-]].
  unfold try_except.
  destruct (codex_try af (log, new_codex_quota af)) as [r [log1 q1]] eqn:Htry.
  apply codex_try_run in Htry as (_ & Hemail & Hr).
  destruct r as [[]|e].
  - intros [= <-]. split; [done|]. destruct Hr as [[msg ->]|Herr]; [done|].
    rewrite Herr. by intros [].
  - destruct (codex_caught e); [|discriminate].
    rewrite (Hr eq_refl). by intros [= <-].
Qed.

Lemma not_in_target_providers_false provider :
  not_in_target_providers provider = Ret false ->
  provider = VStr "codex" \/ provider = VStr "antigravity".
Proof.
  destruct provider as [| | | |s| |]; try discriminate. cbn.
  intros [= H%negb_false_iff%bool_decide_eq_true].
  apply elem_of_cons in H as [->|H]; [by left|].
  apply list_elem_of_singleton in H as ->. by right.
Qed.

Lemma parse_auth_file_record item af :
  parse_auth_file item = Ret (Some af) -> directory_record af.
Proof.
  unfold parse_auth_file.
  intros (provider & _ & H)%outcome_bind_Ret.
  apply outcome_bind_Ret in H as (skip & Hskip & H).
  destruct skip; [discriminate|].
  apply not_in_target_providers_false in Hskip.
  do 10 (apply outcome_bind_Ret in H as (? & _ & H)).
  apply outcome_bind_Ret in H as (id_token & _ & H).
  destruct (truthy id_token && is_str provider "codex") eqn:Hcodex.
  - apply outcome_bind_Ret in H as (account & _ & H).
    apply outcome_bind_Ret in H as (plan & _ & [= <-]).
    apply andb_prop in Hcodex as [_ Hp]. unfold directory_record. cbn.
    split; [done|]. split; [done|]. intros ->. discriminate Hp.
  - injection H as <-. unfold directory_record. cbn. by repeat split.
Qed.

Lemma parse_auth_files_records items : forall acc afs,
  Forall directory_record acc ->
  parse_auth_files acc items = Ret afs -> Forall directory_record afs.
Proof.
  induction items as [|item items IH]; intros acc afs Hacc.
  - by intros [= <-].
  - cbn [parse_auth_files]. intros (r & Hitem & H)%outcome_bind_Ret.
    destruct r as [af|]; [|by apply (IH acc)].
    apply (IH (acc ++ [af])); [|done].
    apply Forall_app. split; [done|].
    apply Forall_singleton. by apply (parse_auth_file_record item).
Qed.

Lemma get_auth_files_log log :
  snd (get_auth_files log) = log ++ [directory_request].
Proof.
  unfold get_auth_files. rewrite eff_bind_unfold.
  unfold _make_request, directory_request.
  destruct (urlopen _) as [text|code body|reason|msg]; [|done..].
  by destruct (json_loads text).
Qed.

Lemma get_auth_files_directory_records log afs :
  fst (get_auth_files log) = Ret afs -> Forall directory_record afs.
Proof.
  unfold get_auth_files. rewrite eff_bind_unfold. unfold _make_request.
  destruct (urlopen _) as [text|code body|reason|msg]; [|discriminate..].
  destruct (json_loads text) as [e|resp]; [discriminate|].
  unfold lift. cbn [fst]. unfold parse_directory. intros Hafs.
  apply outcome_bind_Ret in Hafs as (files & _ & H).
  apply outcome_bind_Ret in H as (items & _ & H).
  by apply (parse_auth_files_records items []).
Qed.


End FetchCoverage.

(** * The start-up of the module *)

Section Startup.

Lemma strip_prefix_Some p : forall s s', strip_prefix p s = Some s' -> s = p ++ s'.
Proof.
  induction p as [|a p IH]; intros s s'; cbn [strip_prefix].
  - by intros [= ->].
  - destruct s as [|b s]; [discriminate|].
    destruct (Ascii.eqb_spec a b) as [->|]; [|discriminate].
    intros H%IH. by rewrite H.
Qed.

Lemma strip_prefix_app p s : strip_prefix p (p ++ s) = Some s.
Proof. induction p as [|a p IH]; cbn; [done|]. by rewrite Ascii.eqb_refl. Qed.

Lemma strip_one_Some chars : forall s s',
  strip_one chars s = Some s' -> exists c, c ∈ chars /\ s = c ++ s'.
Proof.
  induction chars as [|c chars IH]; intros s s'; cbn [strip_one]; [discriminate|].
  destruct (strip_prefix c s) as [s1|] eqn:Hp.
  - intros [= ->]. exists c. split; [left|]. by apply strip_prefix_Some.
  - intros (c' & ? & ?)%IH. exists c'. split; [by right|done].
Qed.

Lemma strip_one_None chars s c s' :
  strip_one chars s = None -> c ∈ chars -> s <> c ++ s'.
Proof.
  induction chars as [|c0 chars IH]; cbn [strip_one]; intros Hn Hc.
  - by apply elem_of_nil in Hc.
  - destruct (strip_prefix c0 s) as [s1|] eqn:Hp; [discriminate|].
    apply elem_of_cons in Hc as [->|Hc]; [|by apply IH].
    intros ->. by rewrite strip_prefix_app in Hp.
Qed.

(** What [lstrip] takes off is made of characters of [chars], and what it
    leaves does not start with one. *)
Lemma lstrip_fuel_spec chars : forall fuel s,
  Forall (fun c => c <> []) chars -> (length s <= fuel)%nat ->
  exists cs, Forall (fun c => c ∈ chars) cs /\
    s = concat cs ++ lstrip_fuel fuel chars s /\
    strip_one chars (lstrip_fuel fuel chars s) = None.
Proof.
  intros fuel s Hne. revert s. induction fuel as [|fuel IH]; intros s Hlen.
  - destruct s; [|cbn in Hlen; lia]. exists []. split; [done|]. split; [done|].
    cbn [lstrip_fuel]. destruct (strip_one chars []) as [s'|] eqn:H1; [|done].
    apply strip_one_Some in H1 as (c & Hc & H1).
    rewrite Forall_forall in Hne. specialize (Hne c Hc).
    symmetry in H1. apply app_eq_nil in H1 as [? _]. done.
  - cbn [lstrip_fuel]. destruct (strip_one chars s) as [s'|] eqn:H1.
    + pose proof H1 as (c & Hc & ->)%strip_one_Some.
      assert (c <> []) as Hcne by (rewrite Forall_forall in Hne; by apply Hne).
      destruct (IH s') as (cs & Hcs & Hs' & Hmax).
      { rewrite length_app in Hlen. destruct c; [done|]. cbn in Hlen. lia. }
      exists (c :: cs). split; [by constructor|]. split; [|done].
      cbn [concat]. rewrite <-(assoc_L (++)). by rewrite <-Hs'.
    + exists []. by split.
Qed.

Lemma lstrip_bytes_spec chars s :
  Forall (fun c => c <> []) chars ->
  exists cs, Forall (fun c => c ∈ chars) cs /\
    s = concat cs ++ lstrip_bytes chars s /\
    strip_one chars (lstrip_bytes chars s) = None.
Proof. intros Hne. by apply lstrip_fuel_spec. Qed.

Lemma rstrip_bytes_spec chars s :
  Forall (fun c => c <> []) chars ->
  exists cs, Forall (fun c => c ∈ chars) cs /\
    s = rstrip_bytes chars s ++ concat cs /\
    forall c s', c ∈ chars -> rstrip_bytes chars s <> s' ++ c.
Proof.
  intros Hne. unfold rstrip_bytes.
  destruct (lstrip_bytes_spec (reverse <$> chars) (reverse s))
    as (cs & Hcs & Hs & Hmax).
  { apply Forall_fmap. eapply Forall_impl; [exact Hne|]. intros c Hc Hr. cbn in Hr.
    apply Hc. by rewrite <-(reverse_involutive c), Hr. }
  set (r := lstrip_bytes (reverse <$> chars) (reverse s)) in *.
  exists (reverse (reverse <$> cs)). split; [|split].
  - rewrite Forall_reverse, Forall_fmap. eapply Forall_impl; [exact Hcs|].
    intros c (c' & -> & Hc')%list_elem_of_fmap. cbn. by rewrite reverse_involutive.
  - rewrite <-(reverse_involutive s), Hs, reverse_app. f_equal.
    clear. induction cs as [|c cs IH]; [done|].
    cbn [concat]. rewrite reverse_app, IH. csimpl.
    rewrite reverse_cons, concat_app. cbn [concat]. by rewrite app_nil_r.
  - intros c s' Hc Heq.
    apply (strip_one_None _ _ (reverse c) (reverse s') Hmax).
    + by apply list_elem_of_fmap_2.
    + by rewrite <-reverse_app, <-Heq, reverse_involutive.
Qed.

Lemma string_of_list_ascii_app l1 l2 :
  string_of_list_ascii (l1 ++ l2) = string_of_list_ascii l1 +:+ string_of_list_ascii l2.
Proof. induction l1 as [|a l1 IH]; [done|]. exact (f_equal (String a) IH). Qed.

Lemma list_ascii_of_string_app s1 s2 :
  list_ascii_of_string (s1 +:+ s2) = list_ascii_of_string s1 ++ list_ascii_of_string s2.
Proof. induction s1 as [|a s1 IH]; [done|]. exact (f_equal (cons a) IH). Qed.

Lemma rstrip_SLASH s :
  exists n, s = rstrip SLASH s +:+ slashes n /\ forall s', rstrip SLASH s <> s' +:+ "/".
Proof.
  unfold rstrip.
  destruct (rstrip_bytes_spec SLASH (list_ascii_of_string s)) as (cs & Hcs & Hs & Hmax).
  { by repeat constructor. }
  set (r := rstrip_bytes SLASH (list_ascii_of_string s)) in *.
  exists (length cs). split.
  - rewrite <-(string_of_list_ascii_of_string s) at 1. rewrite Hs.
    rewrite string_of_list_ascii_app. f_equal. unfold slashes. f_equal.
    clear Hs. induction Hcs as [|c cs Hc _ IH]; [done|].
    apply list_elem_of_singleton in Hc as ->. cbn. by rewrite IH.
  - intros s' Heq. apply (Hmax (bytes_string [47%nat]) (list_ascii_of_string s')); [left|].
    apply (f_equal list_ascii_of_string) in Heq.
    by rewrite list_ascii_of_string_of_list_ascii, list_ascii_of_string_app in Heq.
Qed.

Lemma getenv_Ret env key v : getenv env key = Ret v -> env !! key = Some v.
Proof. unfold getenv. destruct (env !! key); [by intros [= ->]|discriminate]. Qed.

(** X11. The configuration is there exactly when both variables are set, be it
    to the empty string. [BASE_URL] is the value of its variable without
    the slashes at its end, all of them, and [MANAGEMENT_API] is
    [BASE_URL] followed by ["/v0/management"]. *)
Theorem configuration_of_environment env :
  (is_Some (env !! "CPA_BASE_URL") /\ is_Some (env !! "CPA_MANAGEMENT_KEY")
   <-> exists cfg, configuration env = Ret cfg) /\
  forall cfg, configuration env = Ret cfg ->
    (exists n, env !! "CPA_BASE_URL" = Some (cfg_BASE_URL cfg +:+ slashes n)) /\
    (forall s, cfg_BASE_URL cfg <> s +:+ "/") /\
    env !! "CPA_MANAGEMENT_KEY" = Some (cfg_MANAGEMENT_KEY cfg) /\
    cfg_MANAGEMENT_API cfg = cfg_BASE_URL cfg +:+ "/v0/management".
Proof.
  split.
  - unfold configuration, getenv. split.
    + intros [[base ->] [key ->]]. by eexists.
    + intros [cfg H]. destruct (env !! "CPA_BASE_URL"); [|discriminate].
      destruct (env !! "CPA_MANAGEMENT_KEY"); [|discriminate]. by split.
  - intros cfg H. unfold configuration in H.
    apply outcome_bind_Ret in H as (base & Hbase%getenv_Ret & H).
    apply outcome_bind_Ret in H as (key & Hkey%getenv_Ret & [= <-]).
    cbn [cfg_BASE_URL cfg_MANAGEMENT_KEY cfg_MANAGEMENT_API].
    destruct (rstrip_SLASH base) as (n & Hn & Hmax).
    split; [exists n; by rewrite <-Hn|]. by split.
Qed.

Lemma load_env_line_cases env raw env' :
  load_env_line env raw = Ret env' ->
  env' = env \/
  exists key val, parse_env_line raw = Some (key, val) /\ env !! key = None /\
    env' = <[key := val]> env.
Proof.
  unfold load_env_line. destruct (parse_env_line raw) as [[key val]|]; [|intros [= <-]; by left].
  case_bool_decide as Hk; [intros [= <-]; by left|].
  unfold setenv. destruct (has_nul key || has_nul val); [discriminate|].
  intros [= <-]. right. exists key, val. split; [done|]. split; [|done].
  by apply eq_None_not_Some.
Qed.

Lemma load_env_line_subseteq env raw env' :
  load_env_line env raw = Ret env' -> env ⊆ env'.
Proof.
  intros [->|(key & val & _ & Hk & ->)]%load_env_line_cases; [done|].
  by apply insert_subseteq.
Qed.

Lemma load_env_lines_subseteq lines : forall env env',
  load_env_lines env lines = Ret env' -> env ⊆ env'.
Proof.
  induction lines as [|raw lines IH]; intros env env'; cbn [load_env_lines].
  - by intros [= <-].
  - intros (env1 & H1%load_env_line_subseteq & H2%IH)%outcome_bind_Ret.
    by transitivity env1.
Qed.

Lemma env_file_never_overrides_lemma file env env' :
  load_env_file file env = Ret env' -> env ⊆ env'.
Proof.
  destruct file as [lines|]; cbn [load_env_file]; [apply load_env_lines_subseteq|].
  by intros [= <-].
Qed.

(** X12. Reading the file adds variables and changes none: a variable that is
    set before the file is read has the same value afterwards. *)
Theorem env_file_never_overrides file env env' key val :
  load_env_file file env = Ret env' -> env !! key = Some val -> env' !! key = Some val.
Proof.
  intros Hsub%env_file_never_overrides_lemma Hk. by apply (lookup_weaken env).
Qed.

Lemma load_env_lines_app l1 l2 env :
  load_env_lines env (l1 ++ l2) = env1 ← load_env_lines env l1; load_env_lines env1 l2.
Proof.
  revert env. induction l1 as [|raw l1 IH]; intros env; cbn [load_env_lines app]; [done|].
  destruct (load_env_line env raw) as [env1|e]; [|done]. cbn. apply IH.
Qed.

Lemma load_env_lines_untouched lines : forall env env' key,
  load_env_lines env lines = Ret env' ->
  (forall raw val, raw ∈ lines -> parse_env_line raw <> Some (key, val)) ->
  env' !! key = env !! key.
Proof.
  induction lines as [|raw lines IH]; intros env env' key; cbn [load_env_lines].
  - by intros [= <-].
  - intros (env1 & H1 & H2)%outcome_bind_Ret Hno.
    rewrite (IH _ _ _ H2); [|intros raw' val Hin; apply Hno; by right].
    apply load_env_line_cases in H1 as [->|(k & v & Hp & _ & ->)]; [done|].
    apply lookup_insert_ne. intros ->. by apply (Hno raw v); [left|].
Qed.

(** X13. Of the lines that assign a variable the environment does not hold, the
    first one decides its value. *)
Theorem env_file_first_assignment_wins pre raw post env env' key val :
  load_env_lines env (pre ++ raw :: post) = Ret env' ->
  env !! key = None ->
  parse_env_line raw = Some (key, val) ->
  (forall raw' val', raw' ∈ pre -> parse_env_line raw' <> Some (key, val')) ->
  env' !! key = Some val.
Proof.
  rewrite load_env_lines_app.
  intros (env1 & Hpre & H)%outcome_bind_Ret Hk Hp Hno.
  cbn [load_env_lines] in H. apply outcome_bind_Ret in H as (env2 & Hraw & Hpost).
  apply load_env_lines_subseteq in Hpost.
  apply (lookup_weaken env2); [|done].
  rewrite <-(load_env_lines_untouched _ _ _ key Hpre Hno) in Hk.
  unfold load_env_line in Hraw. rewrite Hp in Hraw.
  rewrite bool_decide_eq_false_2 in Hraw by (rewrite Hk; by intros [? ?]).
  unfold setenv in Hraw. destruct (has_nul key || has_nul val); [discriminate|].
  injection Hraw as <-. by apply lookup_insert_eq.
Qed.

(** X14. With both variables set in the environment of the process, the file
    has no say in the configuration: unless the file stops the start-up
    with a NUL byte, the configuration is the one without any file. *)
Theorem environment_beats_env_file file env base key :
  env !! "CPA_BASE_URL" = Some base -> env !! "CPA_MANAGEMENT_KEY" = Some key ->
  startup file env = startup None env \/ startup file env = Raise ValueError.
Proof.
  intros Hbase Hkey. unfold startup. cbn [load_env_file].
  destruct (load_env_file file env) as [env'|e] eqn:Hload.
  - left. pose proof (env_file_never_overrides_lemma _ _ _ Hload) as Hsub.
    change (configuration env' = configuration env). unfold configuration, getenv.
    assert (env' !! "CPA_BASE_URL" = Some base) as -> by (by apply (lookup_weaken env)).
    assert (env' !! "CPA_MANAGEMENT_KEY" = Some key) as -> by (by apply (lookup_weaken env)).
    by rewrite Hbase, Hkey.
  - right. cbn. f_equal.
    destruct file as [lines|]; [|discriminate]. cbn [load_env_file] in Hload.
    clear Hbase Hkey. revert env Hload.
    induction lines as [|raw lines IH]; intros env; cbn [load_env_lines]; [discriminate|].
    intros [H|(env1 & _ & H)]%outcome_bind_Raise; [|by apply (IH env1)].
    unfold load_env_line in H. destruct (parse_env_line raw) as [[k v]|]; [|discriminate].
    case_bool_decide; [discriminate|]. unfold setenv in H.
    destruct (has_nul k || has_nul v); [by injection H|discriminate].
Qed.

Lemma parse_env_line_key raw key val : parse_env_line raw = Some (key, val) -> key <> "".
Proof.
  unfold parse_env_line. destruct (_ || _); [discriminate|].
  destruct (partition_equals _) as [k v].
  destruct (String.eqb_spec (strip WHITESPACE k) ""); [discriminate|]. by intros [= <- _].
Qed.

(** X15. A variable that is there after the file is read and was not there
    before has a name that is not empty, and its name and value are those
    a line of the file assigns. *)
Theorem env_file_new_variables lines env env' key val :
  load_env_lines env lines = Ret env' ->
  env !! key = None -> env' !! key = Some val ->
  key <> "" /\ exists raw, raw ∈ lines /\ parse_env_line raw = Some (key, val).
Proof.
  revert env. induction lines as [|raw lines IH]; intros env; cbn [load_env_lines].
  - intros [= <-] Hk Hk'. congruence.
  - intros (env1 & H1 & H2)%outcome_bind_Ret Hk Hk'.
    destruct (env1 !! key) as [v1|] eqn:Hk1.
    + pose proof (load_env_lines_subseteq _ _ _ H2) as Hsub.
      assert (env' !! key = Some v1) as Hv1 by (by apply (lookup_weaken env1)).
      assert (v1 = val) as -> by congruence.
      apply load_env_line_cases in H1 as [->|(k & v & Hp & _ & ->)]; [congruence|].
      destruct (decide (k = key)) as [->|Hne].
      * assert (Some val = Some v) as [= ->] by (rewrite <-Hk1; apply lookup_insert_eq).
        split; [by apply (parse_env_line_key raw key v)|]. exists raw. split; [left|done].
      * assert (Some val = env !! key) as Hx by (rewrite <-Hk1; by apply lookup_insert_ne).
        congruence.
    + destruct (IH env1 H2 Hk1 Hk') as (Hne & raw' & Hin & Hp).
      split; [done|]. exists raw'. split; [by right|done].
Qed.

End Startup.

(** * The output and the entry point *)

Section OutputFacts.

Context {pf : PyFloat} {host : Host} {clock : PyClock} {rt : PyRuntime}.

Lemma emits_print line : nested line -> emits (print line) 1 1.
Proof. intros Hn out. exists [line]. cbn. repeat split; auto. Qed.

Lemma emits_lift {A} (o : outcome A) : emits (lift o) 0 0.
Proof. intros out. exists []. cbn. rewrite app_nil_r. repeat split; auto. Qed.

Lemma emits_ret {A} (a : A) : emits (mret a) 0 0.
Proof. intros out. exists []. cbn. rewrite app_nil_r. repeat split; auto. Qed.

Lemma emits_weaken {A} (m : Eff Out A) lo hi lo' hi' :
  emits m lo hi -> (lo' <= lo)%nat -> (hi <= hi')%nat -> emits m lo' hi'.
Proof.
  intros Hm Hlo Hhi out. destruct (Hm out) as (lines & H1 & H2 & H3 & Hr).
  exists lines. repeat split; [done|done|lia|]. intros Hx. apply Hr in Hx. lia.
Qed.

Lemma emits_bind {A B} (m : Eff Out A) (f : A -> Eff Out B) lo1 hi1 lo2 hi2 :
  emits m lo1 hi1 -> (forall a, emits (f a) lo2 hi2) ->
  emits (m ≫= f) (lo1 + lo2) (hi1 + hi2).
Proof.
  intros Hm Hf out. destruct (Hm out) as (l1 & H1 & Hn1 & Hh1 & Hr1).
  change ((m ≫= f) out) with (match m out with
                               | (Ret a, s') => f a s'
                               | (Raise e, s') => (Raise e, s')
                               end).
  destruct (m out) as [[a|e] out1]; cbn [fst snd] in *; subst out1.
  - destruct (Hf a (out ++ l1)) as (l2 & H2 & Hn2 & Hh2 & Hr2).
    exists (l1 ++ l2). rewrite H2, (assoc_L (++)). split; [done|].
    split; [by apply Forall_app|]. rewrite length_app. split; [lia|].
    intros Hr. specialize (Hr1 I). specialize (Hr2 Hr). lia.
  - exists l1. repeat split; [done|lia|]. intros [].
Qed.

Lemma emits_for_each {A} (f : A -> Eff Out unit) lo hi (l : list A) :
  (forall a, emits (f a) lo hi) -> emits (for_each f l) (length l * lo) (length l * hi).
Proof.
  intros Hf. induction l as [|a l IH]; cbn [for_each length].
  - apply emits_ret.
  - apply (emits_bind (f a) (fun _ => for_each f l) lo hi); [apply Hf|intros _; apply IH].
Qed.

Ltac emits_step :=
  first
    [ apply emits_print; reflexivity
    | apply emits_lift
    | apply emits_ret ].

Lemma print_codex_quota_emits q : emits (print_codex_quota q) 1 3.
Proof.
  unfold print_codex_quota. destruct (negb _).
  { eapply emits_weaken; [emits_step|lia..]. }
  apply (emits_bind _ _ 0 0 1 3); [emits_step|]. intros plan.
  apply (emits_bind _ _ 1 2 0 1).
  - destruct (cq_primary_used_pct q);
      try (apply (emits_bind _ _ 0 0 1 2); [emits_step|]; intros ?;
           apply (emits_bind _ _ 0 0 1 2); [emits_step|]; intros ?;
           apply (emits_bind _ _ 1 1 0 1); [emits_step|]; intros ?;
           eapply emits_weaken; [emits_step|lia..]).
    eapply emits_weaken; [emits_step|lia..].
  - intros _. destruct (cq_secondary_used_pct q);
      try (apply (emits_bind _ _ 0 0 0 1); [emits_step|]; intros ?;
           apply (emits_bind _ _ 0 0 0 1); [emits_step|]; intros ?;
           eapply emits_weaken; [emits_step|lia..]).
    eapply emits_weaken; [emits_step|lia..].
Qed.

Lemma print_antigravity_group_emits g : emits (print_antigravity_group g) 1 1.
Proof.
  unfold print_antigravity_group. destruct (remaining_fraction g); [|emits_step].
  apply (emits_bind _ _ 0 0 1 1); [emits_step|]. intros ?.
  apply (emits_bind _ _ 0 0 1 1); [emits_step|]. intros ?. emits_step.
Qed.

Lemma print_antigravity_quota_emits q :
  emits (print_antigravity_quota q) 1 (1 + max 1 (length (aq_groups q))).
Proof.
  unfold print_antigravity_quota. destruct (negb _).
  { eapply emits_weaken; [emits_step|lia..]. }
  apply (emits_bind _ _ 1 1 0 (max 1 (length (aq_groups q)))); [emits_step|]. intros _.
  destruct (aq_groups q) as [|g gs] eqn:Hg.
  - eapply emits_weaken; [emits_step|cbn; lia..].
  - eapply emits_weaken; [apply emits_for_each, print_antigravity_group_emits|cbn; lia..].
Qed.

(** X16. Each section calls [print] first with its heading, and every call
    of [print] after that writes a text that starts with [--], also when
    the section stops at an exception; when it returns, it has made at
    least one of these calls for each account, and the Codex section at
    most three for each account. *)
Theorem sections_are_submenus :
  (forall quotas out, exists texts,
     snd (print_codex_section quotas out) = out ++ codex_heading quotas :: texts /\
     Forall nested texts /\ (length texts <= 3 * length quotas)%nat /\
     (returns (fst (print_codex_section quotas out)) -> (length quotas <= length texts)%nat))
  /\
  (forall quotas out, exists texts,
     snd (print_antigravity_section quotas out) = out ++ antigravity_heading quotas :: texts /\
     Forall nested texts /\
     (returns (fst (print_antigravity_section quotas out)) ->
      (length quotas <= length texts)%nat)).
Proof.
  split; intros quotas out.
  - destruct (emits_for_each print_codex_quota 1 3 quotas print_codex_quota_emits
                (out ++ [codex_heading quotas])) as (lines & Hs & Hn & Hhi & Hlo).
    exists lines. unfold print_codex_section.
    change ((print _ ≫= _) out)
      with (for_each print_codex_quota quotas (out ++ [codex_heading quotas])).
    rewrite Hs, <-(assoc_L (++)). split; [done|]. split; [done|]. split; [lia|].
    intros Hr. specialize (Hlo Hr). lia.
  - assert (forall l : list AntigravityQuota, exists hi,
              emits (for_each print_antigravity_quota l) (length l * 1) hi) as Hall.
    { induction l as [|q l [hi IH]]; cbn [for_each length].
      - exists 0%nat. apply emits_ret.
      - exists (1 + max 1 (length (aq_groups q)) + hi)%nat.
        apply (emits_bind _ (fun _ => for_each print_antigravity_quota l)
                 1 (1 + max 1 (length (aq_groups q))) (length l * 1) hi);
          [apply print_antigravity_quota_emits|intros _; exact IH]. }
    destruct (Hall quotas) as [hi Hq].
    destruct (Hq (out ++ [antigravity_heading quotas])) as (lines & Hs & Hn & _ & Hlo).
    exists lines. unfold print_antigravity_section.
    change ((print _ ≫= _) out)
      with (for_each print_antigravity_quota quotas (out ++ [antigravity_heading quotas])).
    rewrite Hs, <-(assoc_L (++)). split; [done|]. split; [done|].
    intros Hr. specialize (Hlo Hr). lia.
Qed.

Lemma emits_finishes {A} (m : Eff Out A) lo hi : emits m lo hi -> finishes m [].
Proof.
  intros Hm out. destruct (Hm out) as (lines & Hs & _). exists lines. split; [done|].
  intros _. exists lines. by rewrite app_nil_r.
Qed.

Lemma finishes_ret {A} (a : A) : finishes (mret a) [].
Proof. intros out. exists []. cbn. rewrite app_nil_r. split; [done|]. by exists []. Qed.

Lemma finishes_lift {A} (o : outcome A) : finishes (lift o) [].
Proof. intros out. exists []. cbn. rewrite app_nil_r. split; [done|]. by exists []. Qed.

Lemma finishes_print line : finishes (print line) [].
Proof.
  intros out. exists [line]. cbn. split; [done|]. intros _. exists [line]. by rewrite app_nil_r.
Qed.

Lemma finishes_bind {A B} (m : Eff Out A) (f : A -> Eff Out B) closing :
  finishes m [] -> (forall a, finishes (f a) closing) -> finishes (m ≫= f) closing.
Proof.
  intros Hm Hf out. destruct (Hm out) as (l1 & H1 & _).
  change ((m ≫= f) out) with (match m out with
                               | (Ret a, s') => f a s'
                               | (Raise e, s') => (Raise e, s')
                               end).
  destruct (m out) as [[a|e] out1]; cbn [fst snd] in *; subst out1.
  - destruct (Hf a (out ++ l1)) as (l2 & H2 & Hr2).
    exists (l1 ++ l2). rewrite H2, (assoc_L (++)). split; [done|].
    intros Hr. destruct (Hr2 Hr) as [pre ->]. exists (l1 ++ pre). by rewrite (assoc_L (++)).
  - exists l1. split; [done|]. intros [].
Qed.

Lemma print_lines_run lines : forall out, print_lines lines out = (Ret tt, out ++ lines).
Proof.
  unfold print_lines. induction lines as [|line lines IH]; intros out; cbn [for_each].
  - cbn. by rewrite app_nil_r.
  - change ((print line ≫= _) out) with (for_each print lines (out ++ [line])).
    by rewrite IH, <-(assoc_L (++)).
Qed.

Lemma finishes_print_lines lines : finishes (print_lines lines) lines.
Proof.
  intros out. rewrite print_lines_run. exists lines. split; [done|]. intros _. by exists [].
Qed.

Lemma finishes_section_codex quotas : finishes (print_codex_section quotas) [].
Proof.
  apply finishes_bind; [apply finishes_print|]. intros _.
  apply (emits_finishes _ _ _ (emits_for_each _ 1 3 quotas print_codex_quota_emits)).
Qed.

Lemma finishes_for_each {A} (f : A -> Eff Out unit) (l : list A) :
  (forall a, finishes (f a) []) -> finishes (for_each f l) [].
Proof.
  intros Hf. induction l as [|a l IH]; cbn [for_each]; [apply finishes_ret|].
  apply finishes_bind; [apply Hf|intros _; apply IH].
Qed.

Lemma finishes_section_antigravity quotas : finishes (print_antigravity_section quotas) [].
Proof.
  apply finishes_bind; [apply finishes_print|]. intros _.
  apply finishes_for_each. intros q. eapply emits_finishes, print_antigravity_quota_emits.
Qed.

Lemma finishes_status_bar cq aq : finishes (print_status_bar cq aq) [].
Proof.
  unfold print_status_bar.
  apply finishes_bind; [apply finishes_lift|]. intros codex.
  apply finishes_bind; [apply finishes_lift|]. intros antigravity. apply finishes_print.
Qed.

Lemma finishes_render cq aq : finishes (render cq aq) footer_lines.
Proof.
  unfold render.
  apply finishes_bind; [apply finishes_status_bar|]. intros _.
  apply finishes_bind; [apply finishes_print|]. intros _.
  apply finishes_bind; [destruct cq; [apply finishes_ret|apply finishes_section_codex]|].
  intros _.
  apply finishes_bind; [destruct aq; [apply finishes_ret|apply finishes_section_antigravity]|].
  intros _. apply finishes_print_lines.
Qed.

Lemma on_out_run {A} (m : Eff Out A) log out :
  on_out m (log, out) = (fst (m out), (log, snd (m out))).
Proof. unfold on_out. cbn [fst snd]. by destruct (m out). Qed.

Lemma on_log_run {Q A} (m : Eff Log A) log (q : Q) :
  on_log m (log, q) = (fst (m log), (snd (m log), q)).
Proof. unfold on_log. cbn [fst snd]. by destruct (m log). Qed.

Lemma eff_bind_run {S A B} (m : Eff S A) (f : A -> Eff S B) s :
  (m ≫= f) s = match m s with
               | (Ret a, s') => f a s'
               | (Raise e, s') => (Raise e, s')
               end.
Proof. reflexivity. Qed.

(** The loop over the records only adds to the log. *)
Lemma fetch_quotas_log afs : forall cq aq log,
  exists rest, snd (fetch_quotas afs cq aq log) = log ++ rest.
Proof.
  induction afs as [|af afs IH]; intros cq aq log; cbn [fetch_quotas].
  - exists []. cbn. by rewrite app_nil_r.
  - destruct (is_str (af_provider af) "codex").
    + rewrite eff_bind_run. destruct (fetch_codex_quota_log af log) as [r1 H1].
      destruct (fetch_codex_quota af log) as [[q|e] log1]; cbn [snd] in H1; subst log1.
      * destruct (IH (cq ++ [q]) aq (log ++ r1)) as [r2 ->].
        exists (r1 ++ r2). by rewrite (assoc_L (++)).
      * by exists r1.
    + destruct (is_str (af_provider af) "antigravity"); [|apply IH].
      rewrite eff_bind_run. destruct (fetch_antigravity_quota_log af log) as [r1 H1].
      destruct (fetch_antigravity_quota af log) as [[q|e] log1]; cbn [snd] in H1; subst log1.
      * destruct (IH cq (aq ++ [q]) (log ++ r1)) as [r2 ->].
        exists (r1 ++ r2). by rewrite (assoc_L (++)).
      * by exists r1.
Qed.

(** How the body of the [try] of [main] ends. *)
Lemma main_try_run log out :
  exists rest lines,
    snd (main_try (log, out)) = (log ++ directory_request :: rest, out ++ lines) /\
    match fst (main_try (log, out)) with
    | Ret _ => lines = no_accounts_lines \/ exists pre, lines = pre ++ footer_lines
    | Raise e =>
        (fst (get_auth_files log) = Raise e \/
         exists afs, fst (get_auth_files log) = Ret afs /\ afs <> [] /\
           fst (fetch_quotas afs [] [] (snd (get_auth_files log))) = Raise e) ->
        lines = []
    end.
Proof.
  unfold main_try. rewrite eff_bind_run, on_log_run.
  pose proof (get_auth_files_log log) as Hlog.
  destruct (get_auth_files log) as [r log1] eqn:Hga. cbn [fst snd] in Hlog |- *. subst log1.
  destruct r as [afs|e].
  2: { exists [], []. rewrite app_nil_r. by split. }
  destruct afs as [|af afs].
  { rewrite on_out_run, print_lines_run. cbn [fst snd].
    exists [], no_accounts_lines. split; [done|]. by left. }
  rewrite eff_bind_run, on_log_run.
  destruct (fetch_quotas_log (af :: afs) [] [] (log ++ [directory_request])) as [rest Hrest].
  destruct (fetch_quotas (af :: afs) [] [] (log ++ [directory_request]))
    as [r2 log2] eqn:Hfq.
  cbn [fst snd] in Hrest |- *. subst log2. destruct r2 as [quotas|e].
  2: { exists rest, []. rewrite app_nil_r, <-(assoc_L (++)). by split. }
  rewrite on_out_run. cbn [fst snd].
  destruct (finishes_render quotas.1 quotas.2 out) as (lines & Hs & Hr).
  exists rest, lines. rewrite Hs, <-(assoc_L (++)). split; [done|].
  destruct (fst (render quotas.1 quotas.2 out)) as [[]|e].
  - right. by apply Hr.
  - intros [[=]|(afs' & [= <-] & _ & Hx)]. rewrite Hfq in Hx. discriminate Hx.
Qed.

Lemma main_run log out :
  MANAGEMENT_KEY <> "" ->
  main (log, out) =
  match main_try (log, out) with
  | (Raise e, (log', out')) => (Ret tt, (log', out' ++ error_lines (error_message e)))
  | r => r
  end.
Proof.
  intros Hkey. unfold main. destruct (String.eqb_spec MANAGEMENT_KEY ""); [done|].
  unfold try_except. destruct (main_try (log, out)) as [[[]|e] [log' out']]; [done|].
  unfold print_error. by rewrite on_out_run, print_lines_run.
Qed.

Lemma main_without_key log out :
  MANAGEMENT_KEY = "" ->
  main (log, out) = (Ret tt, (log, out ++ error_lines "CPA_MANAGEMENT_KEY not set")).
Proof.
  intros Hkey. unfold main. rewrite Hkey. cbn [String.eqb].
  unfold print_error. by rewrite on_out_run, print_lines_run.
Qed.

(** X17. [main] handles every exception, and whatever happens the last lines
    it prints are the error block, the block for a directory without
    accounts, or the footer of the menu. *)
Theorem main_ends_the_menu log out :
  fst (main (log, out)) = Ret tt /\
  exists lines, snd (snd (main (log, out))) = out ++ lines /\
    ((exists pre message, lines = pre ++ error_lines message) \/
     lines = no_accounts_lines \/
     exists pre, lines = pre ++ footer_lines).
Proof.
  destruct (String.eqb_spec MANAGEMENT_KEY "") as [Hkey|Hkey].
  { rewrite (main_without_key _ _ Hkey). split; [done|]. eexists. split; [done|].
    left. by exists [], "CPA_MANAGEMENT_KEY not set". }
  rewrite (main_run _ _ Hkey).
  destruct (main_try_run log out) as (rest & lines & Hs & Hr).
  destruct (main_try (log, out)) as [[[]|e] [log' out']]; cbn [fst snd] in *.
  - split; [done|]. injection Hs as _ ->. exists lines. split; [done|]. by right.
  - split; [done|]. injection Hs as _ ->. exists (lines ++ error_lines (error_message e)).
    rewrite (assoc_L (++)). split; [done|]. left. by exists lines, (error_message e).
Qed.

Lemma main_try_failure log out e :
  (fst (get_auth_files log) = Raise e \/
   exists afs, fst (get_auth_files log) = Ret afs /\ afs <> [] /\
     fst (fetch_quotas afs [] [] (snd (get_auth_files log))) = Raise e) ->
  main_try (log, out) =
  (Raise e,
   (match fst (get_auth_files log) with
    | Ret afs => snd (fetch_quotas afs [] [] (snd (get_auth_files log)))
    | Raise _ => snd (get_auth_files log)
    end, out)).
Proof.
  intros Hfail. unfold main_try. rewrite eff_bind_run, on_log_run.
  destruct Hfail as [Hga|(afs & Hga & Hne & Hfq)]; rewrite Hga; [done|].
  destruct afs as [|af afs]; [done|].
  by rewrite eff_bind_run, on_log_run, Hfq.
Qed.

(** X18. When the key is there and the directory request or one of the fetches
    raises, the whole output of [main] is the error block with the message
    of that exception; the fetches after it are not made. *)
Theorem main_failure_before_rendering log out e :
  MANAGEMENT_KEY <> "" ->
  (fst (get_auth_files log) = Raise e \/
   exists afs, fst (get_auth_files log) = Ret afs /\ afs <> [] /\
     fst (fetch_quotas afs [] [] (snd (get_auth_files log))) = Raise e) ->
  fst (main (log, out)) = Ret tt /\
  snd (snd (main (log, out))) = out ++ error_lines (error_message e) /\
  fst (snd (main (log, out))) =
    match fst (get_auth_files log) with
    | Ret afs => snd (fetch_quotas afs [] [] (snd (get_auth_files log)))
    | Raise _ => snd (get_auth_files log)
    end.
Proof.
  intros Hkey Hfail. rewrite (main_run _ _ Hkey).
  by rewrite (main_try_failure _ _ _ Hfail).
Qed.


Lemma is_str_of_provider af provider :
  is_str (af_provider af) provider = true <-> of_provider provider af.
Proof.
  unfold of_provider, is_str. destruct (af_provider af) as [| | | |s| |]; try done.
  destruct (String.eqb_spec s provider) as [->|Hne]; [done|].
  split; [done|]. by intros [= ->].
Qed.

Lemma fetch_quotas_emails afs : forall cq aq log cq' aq',
  fst (fetch_quotas afs cq aq log) = Ret (cq', aq') ->
  cq_email <$> cq' = (cq_email <$> cq) ++ (af_email <$> filter (of_provider "codex") afs) /\
  aq_email <$> aq' =
    (aq_email <$> aq) ++ (af_email <$> filter (of_provider "antigravity") afs).
Proof.
  induction afs as [|af afs IH]; intros cq aq log cq' aq'; cbn [fetch_quotas].
  - intros [= <- <-]. by rewrite !app_nil_r.
  - rewrite !filter_cons.
    destruct (is_str (af_provider af) "codex") eqn:Hc.
    + apply is_str_of_provider in Hc as Hcodex.
      rewrite decide_True by done.
      rewrite decide_False by (unfold of_provider in *; rewrite Hcodex; discriminate).
      rewrite eff_bind_run.
      destruct (fetch_codex_quota af log) as [r log1] eqn:Hf. destruct r as [q|e]; [|discriminate].
      intros [-> ->]%IH. rewrite fmap_app. csimpl.
      assert (cq_email q = af_email af) as ->.
      { apply (fetch_codex_quota_email af log). by rewrite Hf. }
      by rewrite <-(assoc_L (++)).
    + rewrite decide_False by (intros H%is_str_of_provider; congruence).
      destruct (is_str (af_provider af) "antigravity") eqn:Ha.
      * apply is_str_of_provider in Ha as Hag. rewrite decide_True by done.
        rewrite eff_bind_run.
        destruct (fetch_antigravity_quota af log) as [r log1] eqn:Hf.
        destruct r as [q|e]; [|discriminate].
        intros [-> ->]%IH. rewrite fmap_app. csimpl.
        assert (aq_email q = af_email af) as ->.
        { apply (fetch_antigravity_quota_email af log). by rewrite Hf. }
        by rewrite <-(assoc_L (++)).
      * rewrite decide_False by (intros H%is_str_of_provider; congruence). apply IH.
Qed.

(** X20. The two lists [main] renders hold one result for each record of their
    provider, in the order of the directory, each under the email of its
    record; with the records [get_auth_files] returns, no record is left
    without a result. *)
Theorem quotas_follow_the_directory afs log cq aq :
  fst (fetch_quotas afs [] [] log) = Ret (cq, aq) ->
  cq_email <$> cq = af_email <$> filter (of_provider "codex") afs /\
  aq_email <$> aq = af_email <$> filter (of_provider "antigravity") afs /\
  (Forall directory_record afs -> (length cq + length aq = length afs)%nat).
Proof.
  intros [Hc Ha]%fetch_quotas_emails.
  change (cq_email <$> cq = af_email <$> filter (of_provider "codex") afs) in Hc.
  change (aq_email <$> aq = af_email <$> filter (of_provider "antigravity") afs) in Ha.
  split; [done|]. split; [done|].
  intros Hall. apply (f_equal length) in Hc. apply (f_equal length) in Ha.
  rewrite !length_fmap in Hc. rewrite !length_fmap in Ha.
  rewrite Hc, Ha. clear Hc Ha.
  induction Hall as [|af afs Hrec _ IH]; [done|].
  rewrite !filter_cons. destruct Hrec as ([Hp|Hp] & _).
  - rewrite decide_True by done.
    rewrite decide_False by (unfold of_provider; rewrite Hp; discriminate).
    cbn [length]. lia.
  - rewrite decide_False by (unfold of_provider; rewrite Hp; discriminate).
    rewrite decide_True by done. cbn [length]. lia.
Qed.

(** X21. The title line is made from the first Codex account and the first
    Antigravity account alone, and [print_status_bar] prints that one
    line, or nothing when it raises. *)
Theorem status_bar_reads_first_accounts cq aq out :
  print_status_bar cq aq out = print_status_bar (take 1 cq) (take 1 aq) out /\
  ((exists title, print_status_bar cq aq out = (Ret tt, out ++ [title +:+ " | size=13"])) \/
   (exists e, print_status_bar cq aq out = (Raise e, out))).
Proof.
  split.
  - destruct cq as [|q cq], aq as [|a aq]; reflexivity.
  - unfold print_status_bar. rewrite eff_bind_run. unfold lift at 1.
    destruct (codex_title_parts cq) as [codex|e]; [|right; by exists e].
    rewrite eff_bind_run. unfold lift.
    destruct (antigravity_title_parts aq) as [antigravity|e]; [|right; by exists e].
    left. by eexists.
Qed.

End OutputFacts.

(** * More on the formatters *)

Section FormatterOutcomes.

Context {clock : PyClock}.

Lemma fmt_month_day_time_nonempty dt : fmt_month_day_time dt <> "".
Proof.
  unfold fmt_month_day_time. apply append_nonempty_r. discriminate.
Qed.

(** X22. The delay formatter returns a text that is not empty, or raises
    [OverflowError]. The timestamp formatter returns the empty string,
    "resetting" or a date; it raises neither [ValueError] nor [TypeError],
    and what it raises comes from the conversion to the local zone. *)
Theorem reset_formatters_outcomes :
  (forall seconds,
     match _fmt_reset_abs seconds with
     | Ret text => text <> ""
     | Raise e => e = OverflowError
     end) /\
  (forall s,
     match _fmt_reset_time s with
     | Ret text => text = "" \/ text = "resetting" \/ exists dt, text = fmt_month_day_time dt
     | Raise e =>
         fmt_caught e = false /\
         exists dt, fromisoformat (replace_Z s) = Some dt /\ astimezone dt = Raise e
     end).
Proof.
  split.
  - intros [n|]; cbn [_fmt_reset_abs]; [|done].
    destruct (n <=? 0); [done|].
    destruct (add_seconds now_local n); [apply fmt_month_day_time_nonempty|done].
  - intros s. unfold _fmt_reset_time.
    destruct (String.eqb s ""); [by left|].
    destruct (fromisoformat (replace_Z s)) as [dt|]; cbn; [|by left].
    destruct (astimezone dt) as [local|e] eqn:Hlocal; cbn.
    + unfold reset_passed. destruct (instant dt) as [t|]; cbn; [|by left].
      destruct (t - now_utc <=? 0); [right; by left|right; right; by eexists].
    + destruct (fmt_caught e) eqn:Hc; [by left|]. split; [done|]. by exists dt.
Qed.

End FormatterOutcomes.

(** * The further theorems at concrete inputs *)

Section MoreExamples.

#[local] Existing Instance QFloat.
#[local] Existing Instance example_clock.
#[local] Existing Instance example_runtime.

Lemma mixed_models_groups : _build_antigravity_groups mixed_models = Ret mixed_groups.
Proof. reflexivity. Qed.

(** X1, witness: the three groups of [mixed_models] come out as "Claude/GPT", "Gemini 3 Flash", "Gemini 3 Pro". *)
Lemma groups_sorted_by_distinct_labels_witness :
  _build_antigravity_groups mixed_models = Ret mixed_groups /\
  Sorted label_le mixed_groups /\ NoDup (group_label <$> mixed_groups) /\
  (length mixed_groups <= length ANTIGRAVITY_GROUPS)%nat.
Proof.
  split; [exact mixed_models_groups|].
  exact (groups_sorted_by_distinct_labels mixed_models mixed_groups mixed_models_groups).
Defined.

(** X2, witness: the entry "gemini-3-pro-low" of [mixed_models] is a member of the group "Gemini 3 Pro". *)
Lemma configured_entry_is_member_witness :
  ("gemini-3-pro-low", VDict [("quotaInfo", VDict [("remainingFraction", VFloat (1#4)%Q)])])
    ∈ mixed_models /\
  exists g, g ∈ mixed_groups /\ group_label g = "Gemini 3 Pro" /\
    "gemini-3-pro-low" ∈ models g.
Proof.
  assert (("gemini-3-pro-low",
           VDict [("quotaInfo", VDict [("remainingFraction", VFloat (1#4)%Q)])])
            ∈ mixed_models) as Hin by (by repeat constructor).
  split; [exact Hin|].
  refine (configured_entry_is_member mixed_models mixed_groups "gemini-3-pro-low" _
            {| gd_id := "gemini-3-pro"; gd_label := "Gemini 3 Pro";
               gd_ids := [ "gemini-3-pro-high"; "gemini-3-pro-low";
                           "gemini-3.1-pro-high"; "gemini-3.1-pro-low" ] |}
            mixed_models_groups Hin _ _); by repeat constructor.
Defined.

(** X3, witness: without the unknown model and the entry that is not a record, [mixed_models] gives the same groups. *)
Lemma unconfigured_entries_have_no_effect_witness :
  filter (fun e => configured_record e = true) mixed_models = mixed_models_configured /\
  _build_antigravity_groups mixed_models_configured = Ret mixed_groups.
Proof.
  assert (filter (fun e => configured_record e = true) mixed_models = mixed_models_configured)
    as Hf by reflexivity.
  split; [exact Hf|]. rewrite <-Hf.
  exact (unconfigured_entries_have_no_effect mixed_models mixed_groups mixed_models_groups).
Defined.

(** X4, witness: the group "Gemini 3 Flash" of [mixed_models], whose one member shows a reset time and no fraction. *)
Lemma group_without_fraction_witness :
  flash_group ∈ mixed_groups /\ remaining_fraction flash_group = None /\
  reset_time flash_group = VStr "" /\
  forall mid info, mid ∈ models flash_group -> (mid, VDict info) ∈ mixed_models ->
    exists reset, observed_quota info = Ret (None, reset).
Proof.
  assert (flash_group ∈ mixed_groups) as Hin by (by repeat constructor).
  split; [exact Hin|]. split; [reflexivity|].
  exact (group_without_fraction mixed_models mixed_groups flash_group
           mixed_models_groups Hin eq_refl).
Defined.

(** X5, witness: the members of the groups of [mixed_models] are its four configured records. *)
Lemma members_are_the_configured_records_witness :
  concat (models <$> mixed_groups)
  ≡ₚ fst <$> filter (fun e => configured_record e = true) mixed_models.
Proof.
  exact (members_are_the_configured_records mixed_models mixed_groups mixed_models_groups).
Defined.

(** X7, witness: the result on [host_third_endpoint] has no error and the group of the third endpoint. *)
Lemma antigravity_result_shape_witness :
  fst (fetch_antigravity_quota (host := host_third_endpoint) antigravity_account []) =
    Ret third_endpoint_quota /\
  aq_email third_endpoint_quota = af_email antigravity_account /\
  ((aq_error third_endpoint_quota <> "" /\ aq_groups third_endpoint_quota = []) \/
   (aq_error third_endpoint_quota = "" /\
    exists url models, url ∈ ANTIGRAVITY_QUOTA_URLS /\
      endpoint_succeeds (host := host_third_endpoint)
        (proxied (host := host_third_endpoint)
           (antigravity_payload (host := host_third_endpoint) antigravity_account url)) models /\
      _build_antigravity_groups models = Ret (aq_groups third_endpoint_quota))).
Proof.
  assert (fst (fetch_antigravity_quota (host := host_third_endpoint) antigravity_account []) =
          Ret third_endpoint_quota) as Hf by reflexivity.
  split; [exact Hf|].
  exact (antigravity_result_shape (host := host_third_endpoint)
           antigravity_account [] third_endpoint_quota Hf).
Defined.

(** X9, witness: the result on a 503 is the initial result with the error "HTTP 503". *)
Lemma codex_error_result_is_initial_witness :
  fst (fetch_codex_quota (host := host_codex_503) codex_account []) =
    Ret (set_cq_error "HTTP 503" (new_codex_quota codex_account)) /\
  cq_email (set_cq_error "HTTP 503" (new_codex_quota codex_account)) = af_email codex_account /\
  (cq_error (set_cq_error "HTTP 503" (new_codex_quota codex_account)) <> "" ->
   set_cq_error "HTTP 503" (new_codex_quota codex_account) =
   set_cq_error (cq_error (set_cq_error "HTTP 503" (new_codex_quota codex_account)))
     (new_codex_quota codex_account)).
Proof.
  assert (fst (fetch_codex_quota (host := host_codex_503) codex_account []) =
          Ret (set_cq_error "HTTP 503" (new_codex_quota codex_account))) as Hf by reflexivity.
  split; [exact Hf|].
  exact (codex_error_result_is_initial (host := host_codex_503) codex_account [] _ Hf).
Defined.

(** What reading [env_file_lines] makes of [process_environ]. *)
Lemma env_file_loaded :
  load_env_lines process_environ env_file_lines =
  Ret {[ "CPA_MANAGEMENT_KEY" := "from-env"; "CPA_BASE_URL" := "http://127.0.0.1:8317/" ]}.
Proof. vm_compute. reflexivity. Qed.

(** X12, witness: the key of the process environment survives the line of the file that assigns it. *)
Lemma env_file_never_overrides_witness :
  process_environ !! "CPA_MANAGEMENT_KEY" = Some "from-env" /\
  parse_env_line "CPA_MANAGEMENT_KEY=from-file" = Some ("CPA_MANAGEMENT_KEY", "from-file") /\
  ({[ "CPA_MANAGEMENT_KEY" := "from-env"; "CPA_BASE_URL" := "http://127.0.0.1:8317/" ]}
     : environ) !! "CPA_MANAGEMENT_KEY" = Some "from-env".
Proof.
  split; [reflexivity|]. split; [reflexivity|].
  exact (env_file_never_overrides (Some env_file_lines) process_environ _
           "CPA_MANAGEMENT_KEY" "from-env" env_file_loaded eq_refl).
Defined.

(** X13, witness: of the two lines that assign [CPA_BASE_URL], the first decides. *)
Lemma env_file_first_assignment_wins_witness :
  parse_env_line "CPA_BASE_URL = 'http://127.0.0.1:8317/'" =
    Some ("CPA_BASE_URL", "http://127.0.0.1:8317/") /\
  parse_env_line "CPA_BASE_URL=http://other" = Some ("CPA_BASE_URL", "http://other") /\
  ({[ "CPA_MANAGEMENT_KEY" := "from-env"; "CPA_BASE_URL" := "http://127.0.0.1:8317/" ]}
     : environ) !! "CPA_BASE_URL" = Some "http://127.0.0.1:8317/".
Proof.
  split; [reflexivity|]. split; [reflexivity|].
  refine (env_file_first_assignment_wins
            ["# local settings"] "CPA_BASE_URL = 'http://127.0.0.1:8317/'"
            [""; "CPA_MANAGEMENT_KEY=from-file"; "CPA_BASE_URL=http://other"]
            process_environ _ "CPA_BASE_URL" "http://127.0.0.1:8317/"
            env_file_loaded eq_refl eq_refl _).
  intros raw' val' Hin. apply list_elem_of_singleton in Hin as ->. discriminate.
Defined.

(** X15, witness: [CPA_BASE_URL] comes from a line of the file. *)
Lemma env_file_new_variables_witness :
  "CPA_BASE_URL" <> "" /\
  exists raw, raw ∈ env_file_lines /\
    parse_env_line raw = Some ("CPA_BASE_URL", "http://127.0.0.1:8317/").
Proof.
  exact (env_file_new_variables env_file_lines process_environ _
           "CPA_BASE_URL" "http://127.0.0.1:8317/" env_file_loaded eq_refl eq_refl).
Defined.

(** X14, witness: with both variables in the environment, the file changes nothing. *)
Lemma environment_beats_env_file_witness :
  startup None full_environ =
    Ret {| cfg_BASE_URL := "http://h:1"; cfg_MANAGEMENT_KEY := "k";
           cfg_MANAGEMENT_API := "http://h:1/v0/management" |} /\
  (startup (Some env_file_lines) full_environ = startup None full_environ \/
   startup (Some env_file_lines) full_environ = Raise ValueError).
Proof.
  split; [vm_compute; reflexivity|].
  exact (environment_beats_env_file (Some env_file_lines) full_environ "http://h:1//" "k"
           eq_refl eq_refl).
Defined.

(** X20, witness: one result for the codex record and one for the antigravity record of [host_directory]. *)
Lemma quotas_follow_the_directory_witness :
  fst (get_auth_files (host := host_directory) []) = Ret directory_accounts /\
  exists cq aq,
    fst (fetch_quotas (host := host_directory) directory_accounts [] []
           [directory_request (host := host_directory)]) = Ret (cq, aq) /\
    cq_email <$> cq = [VStr "u@x.com"] /\ aq_email <$> aq = [VStr "v@y.com"] /\
    (Forall directory_record directory_accounts ->
     (length cq + length aq = length directory_accounts)%nat).
Proof.
  split; [reflexivity|]. eexists _, _.
  split; [reflexivity|].
  exact (quotas_follow_the_directory (host := host_directory) directory_accounts
           [directory_request (host := host_directory)] _ _ eq_refl).
Defined.

Lemma triple_eq {A B C} (x : A * (B * C)) a b c :
  fst x = a -> fst (snd x) = b -> snd (snd x) = c -> x = (a, (b, c)).
Proof. destruct x as [? [? ?]]. cbn. by intros -> -> ->. Qed.

(** X18, witness: a directory that answers 401, and a Codex response whose body is a list: in both runs the output is the error block. *)
Lemma main_failure_before_rendering_witness :
  (fst (get_auth_files (host := host_directory_401) []) =
     Raise (RuntimeError "HTTP 401: unauthorized") /\
   main (host := host_directory_401) ([], []) =
     (Ret tt, ([directory_request (host := host_directory_401)],
               error_lines "HTTP 401: unauthorized")))
  /\
  (fst (get_auth_files (host := host_menu_codex_list) []) = Ret directory_accounts /\
   fst (fetch_quotas (host := host_menu_codex_list) directory_accounts [] []
          [directory_request (host := host_menu_codex_list)]) = Raise AttributeError /\
   main (host := host_menu_codex_list) ([], []) =
     (Ret tt, ([ directory_request (host := host_menu_codex_list);
                 api_request (host := host_menu_codex_list)
                   (codex_payload listed_codex_account) ],
               error_lines "Unexpected: AttributeError"))).
Proof.
  split.
  - split; [reflexivity|].
    destruct (main_failure_before_rendering (host := host_directory_401) [] []
                (RuntimeError "HTTP 401: unauthorized"))
      as (H1 & H2 & H3); [discriminate|left; reflexivity|].
    apply triple_eq; [exact H1|exact H3|exact H2].
  - split; [reflexivity|]. split; [reflexivity|].
    destruct (main_failure_before_rendering (host := host_menu_codex_list) [] []
                AttributeError)
      as (H1 & H2 & H3); [discriminate| |].
    { right. exists directory_accounts. split; [reflexivity|]. split; [discriminate|reflexivity]. }
    apply triple_eq; [exact H1|exact H3|exact H2].
Defined.

End MoreExamples.
